(** * The LLM-readme commit hooks: a shallow embedding

    The repository ships two hook scripts, both kept in
    [src/scripts/post-commit-llm-readme.ts]:

    - the post-commit script (lines 1-345): [executeCommand],
      [loadCommitMetadata], [cleanupMetadata], [hasLlmReadmeFiles],
      [commitLlmReadmeFiles], [main] and the process-level handlers;
    - the pre-commit script (lines 345-1086): [ensureDirectoryExists],
      [moveFile], [executeCommand], [findLlmReadmeFiles],
      [processLlmReadmeFiles] with its local [transformPathToFilename],
      [determineTargetDirectories], [isDirectoryEmpty],
      [saveCommitMetadata], [stageLlmReadmeFiles], [validateLlmGenerator],
      [getStagedFiles], [main] and its handlers.

    Strings are JavaScript strings restricted to 8-bit code units
    ([string], and [list ascii] where the code indexes or scans).  The file
    system and the external commands are a world that is threaded through a
    state-and-exception monad.  Node's [path.dirname] is library code; it is
    modelled after the POSIX implementation of Node. *)

From Stdlib Require Import String Ascii List ZArith Lia Bool DecimalString.
From stdpp Require Import gmap strings list.
Import ListNotations.

Local Open Scope list_scope.

(** ** Characters and strings *)

Module Str.

Definition chars (s : string) : list ascii := list_ascii_of_string s.
Definition pack (l : list ascii) : string := string_of_list_ascii l.

Definition eqc (a b : ascii) : bool := Ascii.eqb a b.

(** [s.startsWith(p)] *)
Fixpoint startsWithL (p s : list ascii) : bool :=
  match p, s with
  | [], _ => true
  | _ :: _, [] => false
  | a :: p', b :: s' => eqc a b && startsWithL p' s'
  end.

(** [s.includes(p)] *)
Fixpoint includesL (p s : list ascii) : bool :=
  startsWithL p s ||
  match s with
  | [] => false
  | _ :: s' => includesL p s'
  end.

(** [s.endsWith(p)] *)
Definition endsWithL (p s : list ascii) : bool :=
  startsWithL (rev p) (rev s).

Definition startsWith (p s : string) : bool := startsWithL (chars p) (chars s).
Definition includes (p s : string) : bool := includesL (chars p) (chars s).
Definition endsWith (p s : string) : bool := endsWithL (chars p) (chars s).

(** Number of occurrences of the character [c]. *)
Definition occurrences (c : ascii) (l : list ascii) : nat :=
  count_occ ascii_dec l c.

End Str.

(** ** Node's [path] module (POSIX flavour) *)

Module Path.
Import Str.

Definition isSlash (c : ascii) : bool := eqc c "/".

(** The backwards loop of [path.dirname]:
    [for (i = len - 1; i >= 1; --i)], run over the reversed tail of the
    path; the result is the index [end], if the loop sets it. *)
Fixpoint dirname_scan (rev_tail : list ascii) (i : nat) (matchedSlash : bool)
  : option nat :=
  match rev_tail with
  | [] => None
  | c :: r =>
      if isSlash c then
        if matchedSlash then dirname_scan r (i - 1) true else Some i
      else dirname_scan r (i - 1) false
  end.

Definition dirnameL (path : list ascii) : list ascii :=
  match path with
  | [] => chars "."
  | c0 :: tl =>
      let hasRoot := isSlash c0 in
      match dirname_scan (rev tl) (length tl) true with
      | None => if hasRoot then chars "/" else chars "."
      | Some e =>
          if hasRoot && (e =? 1)%nat then chars "//" else firstn e path
      end
  end.

Definition dirname (path : string) : string := pack (dirnameL (chars path)).

(** A list without the character [/]. *)
Definition slashFree (l : list ascii) : Prop :=
  Forall (fun c => isSlash c = false) l.

End Path.

(** ** PathTransformer: [transformPathToFilename] (pre-commit script) *)

Module Transform.
Import Str Path.

(** The character class [[.\\/]] of the first [replace]. *)
Definition isLeading (c : ascii) : bool :=
  eqc c "." || eqc c "\" || eqc c "/".

(** The character class [[\\/]] of the second [replace]. *)
Definition isSep (c : ascii) : bool := eqc c "\" || eqc c "/".

(** [dirPath.replace(/^[.\\/]+/, '')] *)
Fixpoint stripLeading (s : list ascii) : list ascii :=
  match s with
  | [] => []
  | c :: r => if isLeading c then stripLeading r else s
  end.

(** [dirPath.replace(/[\\/]+/g, '-')]: every maximal run of separators
    becomes one hyphen; [inRun] tells that the previous character was part
    of the run being replaced. *)
Fixpoint replaceSeps (inRun : bool) (s : list ascii) : list ascii :=
  match s with
  | [] => []
  | c :: r =>
      if isSep c then
        if inRun then replaceSeps true r else "-"%char :: replaceSeps true r
      else c :: replaceSeps false r
  end.

(** [/^(src|test|docs|tools|types)$/.test(normalized)] *)
Definition conventional : list string :=
  ["src"; "test"; "docs"; "tools"; "types"]%string.

Definition isConventional (normalized : list ascii) : bool :=
  existsb (String.eqb (pack normalized)) conventional.

Definition project_root_json : string := "project-root.json".

Definition transformL (filePath : list ascii) : list ascii :=
  let dirPath := dirnameL filePath in
  if String.eqb (pack dirPath) "." || String.eqb (pack dirPath) "" then
    chars project_root_json
  else
    let dirPath := stripLeading dirPath in
    let normalized := replaceSeps false dirPath in
    if isConventional normalized then normalized ++ chars "-root.json"
    else normalized ++ chars ".json".

Definition transformPathToFilename (filePath : string) : string :=
  pack (transformL (chars filePath)).

(** The value of [normalized] for a path that is not at the root. *)
Definition flattenedToken (filePath : string) : string :=
  pack (replaceSeps false (stripLeading (dirnameL (chars filePath)))).

(** Hyphens of a file name. *)
Definition hyphens (name : string) : nat := occurrences "-" (chars name).

(** A list without path separators. *)
Definition sepFree (l : list ascii) : Prop :=
  Forall (fun c => isSep c = false) l.

(** A path component: not empty, and free of separators and hyphens. *)
Definition plainL (s : list ascii) : Prop :=
  s <> [] /\ Forall (fun c => isSep c = false /\ c <> "-"%char) s.

Definition plain (s : string) : Prop := plainL (chars s).

Definition dotsOnly (s : string) : Prop :=
  Forall (fun c => c = "."%char) (chars s).

(** Components joined by slashes. *)
Fixpoint joinL (segs : list (list ascii)) : list ascii :=
  match segs with
  | [] => []
  | [s] => s
  | s :: rest => s ++ "/"%char :: joinL rest
  end.

End Transform.

(** ** The world of a hook run: processes, files, clock *)

Module Sys.

(** Methods of the [Logger] class. *)
Inductive Level := Info | Verbose | Error | Warn | Success | Highlight.

(** [config.logLevel] *)
Inductive LogLevel := LogInfo | LogVerbose | LogSilent.

(** What one [execSync] call does: it returns the output of the process,
    or throws an error with a [code] and a [message] (a time-out has the
    code [ETIMEDOUT]).  A [null] result (uncaptured output) is the empty
    string: every call site tests the result for falsiness first. *)
Inductive ExecOutcome :=
| ExecOk (stdout : string)
| ExecFail (code message : string).

(** What [readdirSync(dir, { withFileTypes: true })] lists, recursively. *)
#[local] Unset Elimination Schemes.
Inductive Dirent :=
| DFile (name : string)
| DDir (name : string) (children : list Dirent)
| DOther (name : string).
#[local] Set Elimination Schemes.

Definition entryName (e : Dirent) : string :=
  match e with DFile n | DDir n _ | DOther n => n end.

Inductive FsCall :=
| CRead (p : string)
| CWrite (p : string)
| CUnlink (p : string)
| CRename (src dst : string)
| CCopy (src dst : string)
| CMkdir (p : string)
| CReaddir (p : string).

Inductive Event :=
| EvExec (command : string) (timeout : N)
| EvSleep (ms : N)
| EvLog (l : Level)
| EvFs (c : FsCall)
| EvExit (code : nat).

(** The environment ([oracle], [refuses], [now]) and the state of a run.
    Paths are relative to [PROJECT_ROOT].  [files] holds the regular files
    that [existsSync], [readFileSync], [renameSync] and the like see;
    [tree] is what [readdirSync] lists.  The two are separate because the
    tree is scanned first and the files are moved later, while the
    generator and the user may touch the working tree in between: the
    code re-checks every path it scanned. *)
Record World := mkWorld {
  oracle : nat -> string -> ExecOutcome;
  refuses : FsCall -> bool;
  now : string;
  spawned : nat;
  files : gmap string string;
  tree : list Dirent;
  trace : list Event
}.

(** Completion of a computation: a value, a thrown error (its message),
    or [process.exit(code)]. *)
Inductive Res (A : Type) :=
| Ok (a : A)
| Throw (message : string)
| Exit (code : nat).
Arguments Ok {A} a.
Arguments Throw {A} message.
Arguments Exit {A} code.

Definition M (A : Type) : Type := World -> Res A * World.

Definition ret {A} (a : A) : M A := fun w => (Ok a, w).

Definition bind {A B} (c : M A) (k : A -> M B) : M B :=
  fun w =>
    match c w with
    | (Ok a, w') => k a w'
    | (Throw e, w') => (Throw e, w')
    | (Exit n, w') => (Exit n, w')
    end.

Definition throw {A} (message : string) : M A := fun w => (Throw message, w).

(** [try { c } catch (error) { h error }] *)
Definition try_catch {A} (c : M A) (h : string -> M A) : M A :=
  fun w =>
    match c w with
    | (Throw e, w') => h e w'
    | r => r
    end.

(** [try { c } finally { fin }]: [fin] runs after a value and after a
    throw; its own abrupt completion wins. *)
Definition try_finally {A} (c : M A) (fin : M unit) : M A :=
  fun w =>
    match c w with
    | (Exit n, w') => (Exit n, w')
    | (r, w') =>
        match fin w' with
        | (Ok _, w'') => (r, w'')
        | (Throw e, w'') => (Throw e, w'')
        | (Exit n, w'') => (Exit n, w'')
        end
    end.

Definition emit (e : Event) : M unit :=
  fun w => (Ok tt,
            mkWorld (oracle w) (refuses w) (now w) (spawned w) (files w)
                    (tree w) (trace w ++ [e])).

Definition setFiles (f : gmap string string) : M unit :=
  fun w => (Ok tt,
            mkWorld (oracle w) (refuses w) (now w) (spawned w) f
                    (tree w) (trace w)).

Definition setTree (t : list Dirent) : M unit :=
  fun w => (Ok tt,
            mkWorld (oracle w) (refuses w) (now w) (spawned w) (files w)
                    t (trace w)).

Definition ask {A} (f : World -> A) : M A := fun w => (Ok (f w), w).

(** [process.exit(code)] *)
Definition process_exit {A} (code : nat) : M A :=
  fun w => (Exit code,
            mkWorld (oracle w) (refuses w) (now w) (spawned w) (files w)
                    (tree w) (trace w ++ [EvExit code])).

(** The status the process reports to git when a script ends: the
    argument of [process.exit], [0] when the script runs to its end, [1]
    for an error nothing caught. *)
Definition exitStatus {A} (r : Res A) : nat :=
  match r with
  | Ok _ => 0
  | Throw _ => 1
  | Exit n => n
  end.

(** The processes and the waits of a trace, in order. *)
Fixpoint actionsOf (tr : list Event) : list Event :=
  match tr with
  | [] => []
  | EvExec command timeout :: r => EvExec command timeout :: actionsOf r
  | EvSleep ms :: r => EvSleep ms :: actionsOf r
  | _ :: r => actionsOf r
  end.

(** The commands of a trace, in order. *)
Fixpoint commandsOf (tr : list Event) : list string :=
  match tr with
  | [] => []
  | EvExec command _ :: r => command :: commandsOf r
  | _ :: r => commandsOf r
  end.

(** The world after [n] more processes and the events [tr]. *)
Definition advance (w : World) (n : nat) (tr : list Event) : World :=
  mkWorld (oracle w) (refuses w) (now w) (n + spawned w) (files w) (tree w)
          (trace w ++ tr).

(** What a computation leaves alone when it only spawns, waits and logs. *)
Definition framed (w w' : World) : Prop :=
  oracle w' = oracle w /\ refuses w' = refuses w /\ now w' = now w
  /\ files w' = files w /\ tree w' = tree w.

(** The calls of a trace that change the disk, in order. *)
Fixpoint fsCalls (tr : list Event) : list FsCall :=
  match tr with
  | [] => []
  | EvFs c :: r => c :: fsCalls r
  | _ :: r => fsCalls r
  end.

(** A run that reads only: the files and the listing are as before, and it
    made no call that changes the disk. *)
Definition readOnly (w w' : World) : Prop :=
  framed w w' /\ fsCalls (trace w') = fsCalls (trace w).

(** The relation of a run that may do anything. *)
Definition anyWorld (w w' : World) : Prop := True.

(** What no run changes: the commands, the platform and the clock. *)
Definition settled (w w' : World) : Prop :=
  oracle w' = oracle w /\ refuses w' = refuses w /\ now w' = now w.

(** The platform refuses no call. *)
Definition grants (w : World) : Prop := forall call, refuses w call = false.

(** Every command succeeds. *)
Definition succeeds (w : World) : Prop :=
  forall n command, exists out, oracle w n command = ExecOk out.

(** No command succeeds. *)
Definition fails (w : World) : Prop :=
  forall n command, exists code message,
    oracle w n command = ExecFail code message.

(** The computation [c] leaves every world within the relation [R], and it
    never ends the process. *)
Definition keeps (R : World -> World -> Prop) {A} (c : M A) : Prop :=
  forall w, R w (snd (c w)) /\ forall n, fst (c w) <> Exit n.

(** [keeps], with a property [Q] of the value that [c] returns. *)
Definition yields (R : World -> World -> Prop) {A} (Q : A -> Prop) (c : M A)
  : Prop :=
  forall w,
    R w (snd (c w))
    /\ match fst (c w) with
       | Ok a => Q a
       | Throw _ => True
       | Exit _ => False
       end.

(** The call [c] may change the file at the path [x]. *)
Definition touches (c : FsCall) (x : string) : Prop :=
  match c with
  | CWrite p | CUnlink p => x = p
  | CRename src dst => x = src \/ x = dst
  | CCopy _ dst => x = dst
  | CMkdir _ | CRead _ | CReaddir _ => False
  end.

(** The calls that a run makes to change the disk all satisfy [allowed],
    and a file that none of them touches is as before. *)
Definition within (allowed : FsCall -> Prop) (w w' : World) : Prop :=
  exists calls,
    fsCalls (trace w') = fsCalls (trace w) ++ calls
    /\ Forall allowed calls
    /\ forall x, Forall (fun c => ~ touches c x) calls ->
                 files w' !! x = files w !! x.

(** The total of the waits of a trace, in milliseconds. *)
Fixpoint waited (tr : list Event) : N :=
  match tr with
  | [] => 0
  | EvSleep ms :: r => ms + waited r
  | _ :: r => waited r
  end.

End Sys.

Declare Scope sys_scope.
Delimit Scope sys_scope with sys.
Notation "'let!' x ':=' c 'in' k" :=
  (Sys.bind c (fun x => k))
  (at level 10, x name, c at level 100, k at level 200) : sys_scope.
Notation "c '>>' k" :=
  (Sys.bind c (fun _ => k))
  (at level 100, k at level 200, right associativity) : sys_scope.

(** ** String helpers of the scripts: [trim], [split], [path.join] *)

Module StrOps.
Import Str.

(** White space of [String.prototype.trim] among 8-bit code units. *)
Definition isSpace (c : ascii) : bool :=
  let n := nat_of_ascii c in
  ((9 <=? n) && (n <=? 13)) || (n =? 32) || (n =? 160).

Fixpoint trimStartL (s : list ascii) : list ascii :=
  match s with
  | [] => []
  | c :: r => if isSpace c then trimStartL r else s
  end.

Definition trimL (s : list ascii) : list ascii :=
  rev (trimStartL (rev (trimStartL s))).

Definition trim (s : string) : string := pack (trimL (chars s)).

(** [s.split(sep)] for a one-character separator. *)
Fixpoint splitL (sep : ascii) (s : list ascii) : list (list ascii) :=
  match s with
  | [] => [[]]
  | c :: r =>
      if eqc c sep then [] :: splitL sep r
      else match splitL sep r with
           | [] => [[c]]
           | h :: t => (c :: h) :: t
           end
  end.

Definition split (sep : ascii) (s : string) : list string :=
  map pack (splitL sep (chars s)).

Definition nonEmpty (s : string) : bool := negb (String.eqb s "").

(** [path.join(dir, name)] for a directory below the project root, the
    root itself being the empty path. *)
Definition join (dir name : string) : string :=
  if String.eqb dir "" then name else (dir ++ "/" ++ name)%string.

(** The components of a relative path. *)
Definition segments (p : string) : list string :=
  List.filter (fun s => negb (String.eqb s "") && negb (String.eqb s "."))
              (split "/" p).

(** Decimal numerals of template strings. *)
Definition showNat (n : nat) : string :=
  NilZero.string_of_uint (Nat.to_uint n).

End StrOps.

(** ** Node's [fs], [child_process] and [Logger] *)

Module Node.
Import Sys StrOps.
Local Open Scope sys_scope.

(** A [Logger] built for the level [lvl]: [info] is silent at [silent],
    [verbose] prints at [verbose] only, the other methods always print.
    The text of the message is not part of the model. *)
Definition printed (lvl : LogLevel) (l : Level) : list Event :=
  match l, lvl with
  | Info, LogSilent => []
  | Verbose, LogInfo => []
  | Verbose, LogSilent => []
  | _, _ => [EvLog l]
  end.

Definition log (lvl : LogLevel) (l : Level) : M unit :=
  fun w => (Ok tt, advance w 0 (printed lvl l)).

(** [items.forEach(item => logger.l(...))] *)
Fixpoint logEach {A} (lvl : LogLevel) (l : Level) (items : list A) : M unit :=
  match items with
  | [] => ret tt
  | _ :: rest => log lvl l >> logEach lvl l rest
  end.

(** [execSync(command, { cwd, timeout, encoding, stdio })]; the throw is
    returned as a value for the [catch] of the caller. *)
Definition execSync (command : string) (timeout : N) : M ExecOutcome :=
  fun w =>
    (Ok (oracle w (spawned w) command),
     mkWorld (oracle w) (refuses w) (now w) (S (spawned w)) (files w)
             (tree w) (trace w ++ [EvExec command timeout])).

(** The busy-wait loop [while (Date.now() - start < waitTime) {}]. *)
Definition sleep (ms : N) : M unit := emit (EvSleep ms).

(** [await new Promise(resolve => setTimeout(resolve, ms))] *)
Definition delay (ms : N) : M unit := emit (EvSleep ms).

Fixpoint findDir (name : string) (l : list Dirent) : option (list Dirent) :=
  match l with
  | [] => None
  | DDir n children :: r =>
      if String.eqb n name then Some children else findDir name r
  | _ :: r => findDir name r
  end.

Fixpoint lookupDir (segs : list string) (t : list Dirent)
  : option (list Dirent) :=
  match segs with
  | [] => Some t
  | s :: segs' =>
      match findDir s t with
      | Some children => lookupDir segs' children
      | None => None
      end
  end.

Fixpoint replaceDir (name : string) (children : list Dirent)
  (l : list Dirent) : list Dirent :=
  match l with
  | [] => []
  | DDir n c :: r =>
      if String.eqb n name then DDir n children :: r
      else DDir n c :: replaceDir name children r
  | e :: r => e :: replaceDir name children r
  end.

(** [mkdirSync(p, { recursive: true })] on the listing. *)
Fixpoint mkdirp (segs : list string) (t : list Dirent) : list Dirent :=
  match segs with
  | [] => t
  | s :: segs' =>
      match findDir s t with
      | Some children => replaceDir s (mkdirp segs' children) t
      | None => t ++ [DDir s (mkdirp segs' [])]
      end
  end.

Definition isFile (w : World) (p : string) : bool :=
  bool_decide (is_Some (files w !! p)).

Definition isDirectory (w : World) (p : string) : bool :=
  bool_decide (is_Some (lookupDir (segments p) (tree w))).

(** [fs.existsSync(p)]: never throws. *)
Definition existsSync (p : string) : M bool :=
  ask (fun w => isFile w p || isDirectory w p).

Definition refused (c : FsCall) : M bool := ask (fun w => refuses w c).

(** [fs.readFileSync(p, 'utf8')] *)
Definition readFileSync (p : string) : M string :=
  let! no := refused (CRead p) in
  if no then throw "EACCES"
  else
    let! f := ask files in
    match f !! p with
    | Some content => ret content
    | None => throw "ENOENT"
    end.

(** [fs.writeFileSync(p, content)] *)
Definition writeFileSync (p content : string) : M unit :=
  emit (EvFs (CWrite p)) >>
  let! no := refused (CWrite p) in
  if no then throw "EACCES"
  else
    let! f := ask files in
    setFiles (<[p := content]> f).

(** [fs.unlinkSync(p)] *)
Definition unlinkSync (p : string) : M unit :=
  emit (EvFs (CUnlink p)) >>
  let! no := refused (CUnlink p) in
  if no then throw "EACCES"
  else
    let! f := ask files in
    match f !! p with
    | Some _ => setFiles (delete p f)
    | None => throw "ENOENT"
    end.

(** [fs.renameSync(src, dst)]: an existing [dst] is replaced. *)
Definition renameSync (src dst : string) : M unit :=
  emit (EvFs (CRename src dst)) >>
  let! no := refused (CRename src dst) in
  if no then throw "EXDEV"
  else
    let! f := ask files in
    match f !! src with
    | Some content => setFiles (<[dst := content]> (delete src f))
    | None => throw "ENOENT"
    end.

(** [fs.copyFileSync(src, dst)] *)
Definition copyFileSync (src dst : string) : M unit :=
  emit (EvFs (CCopy src dst)) >>
  let! no := refused (CCopy src dst) in
  if no then throw "EACCES"
  else
    let! f := ask files in
    match f !! src with
    | Some content => setFiles (<[dst := content]> f)
    | None => throw "ENOENT"
    end.

(** [fs.mkdirSync(p, { recursive: true })] *)
Definition mkdirSync (p : string) : M unit :=
  emit (EvFs (CMkdir p)) >>
  let! no := refused (CMkdir p) in
  if no then throw "EACCES"
  else
    let! t := ask tree in
    setTree (mkdirp (segments p) t).

(** [fs.readdirSync(p)] *)
Definition readdirSync (p : string) : M (list Dirent) :=
  let! no := refused (CReaddir p) in
  if no then throw "EACCES"
  else
    let! t := ask tree in
    match lookupDir (segments p) t with
    | Some entries => ret entries
    | None => throw "ENOENT"
    end.

(** Relations on worlds that logging, spawning and waiting stay within. *)
Class Frame (R : World -> World -> Prop) : Prop := {
  frame_refl : forall w, R w w;
  frame_trans : forall a b c, R a b -> R b c -> R a c;
  frame_print : forall w lvl l, R w (advance w 0 (printed lvl l));
  frame_exec : forall w command timeout, R w (snd (execSync command timeout w));
  frame_wait : forall w ms, R w (snd (emit (EvSleep ms) w))
}.

(** Frames that the calls [allowed] stay within. *)
Class Disk (R : World -> World -> Prop) (allowed : FsCall -> Prop) : Prop := {
  disk_frame :: Frame R;
  disk_write : forall p content,
    allowed (CWrite p) -> keeps R (writeFileSync p content);
  disk_unlink : forall p, allowed (CUnlink p) -> keeps R (unlinkSync p);
  disk_rename : forall src dst,
    allowed (CRename src dst) -> keeps R (renameSync src dst);
  disk_copy : forall src dst,
    allowed (CCopy src dst) -> keeps R (copyFileSync src dst);
  disk_mkdir : forall p, allowed (CMkdir p) -> keeps R (mkdirSync p)
}.

End Node.

(** ** CommandRunner: [executeCommand]

    The two scripts carry the same function; they differ in the [stdio]
    option of [execSync] only, which the outcome of the process covers. *)

Module CommandRunner.
Import Sys StrOps Node.
Local Open Scope sys_scope.
Local Open Scope string_scope.

Section Runner.
Variable lvl : LogLevel.

(** The loop [for (let attempt = 1; attempt <= retries; attempt++)]:
    [left] counts the iterations that remain, [retries + 1 - attempt]. *)
Fixpoint attemptsFrom (command : string) (timeout : N) (retries : nat)
  (left attempt : nat) : M string :=
  match left with
  | 0 => throw "Unexpected error in executeCommand"
  | S left' =>
      log lvl Verbose >>
      let! outcome := execSync command timeout in
      match outcome with
      | ExecOk result => log lvl Verbose >> ret result
      | ExecFail code message =>
          let isLastAttempt := (attempt =? retries)%nat in
          log lvl Warn >>
          if isLastAttempt then
            throw ("Command failed after " ++ showNat retries
                   ++ " attempts: " ++ message)
          else
            let waitTime := (2 ^ N.of_nat (attempt - 1) * 1000)%N in
            log lvl Verbose >>
            sleep waitTime >>
            attemptsFrom command timeout retries left' (S attempt)
      end
  end.

(** [executeCommand(command, { timeout, retries })]; an option left out
    takes the default of the script's [config]. *)
Definition executeCommand (defaultTimeout : N) (defaultRetries : nat)
  (command : string) (timeout : option N) (retries : option nat)
  : M string :=
  let timeout := default defaultTimeout timeout in
  let retries := default defaultRetries retries in
  attemptsFrom command timeout retries retries 1.

End Runner.

(** The wait after a failed attempt: [Math.pow(2, attempt - 1) * 1000]. *)
Definition backoff (attempt : nat) : N :=
  (2 ^ N.of_nat (attempt - 1) * 1000)%N.

(** A failed attempt followed by its wait. *)
Definition failedTurn (command : string) (timeout : N) (attempt : nat)
  : list Event :=
  [EvExec command timeout; EvSleep (backoff attempt)].

(** Attempt [a] of a call that starts in the world [w] fails. *)
Definition failsAt (w : World) (command : string) (a : nat) : Prop :=
  exists code message,
    oracle w (spawned w + (a - 1)) command = ExecFail code message.

(** The processes and waits of a call that makes [k] attempts. *)
Definition attemptsTrace (command : string) (timeout : N) (k : nat)
  : list Event :=
  (flat_map (failedTurn command timeout) (seq 1 (k - 1))
   ++ [EvExec command timeout])%list.

End CommandRunner.

(** ** HandoffStore: the metadata record and the JSON built-ins *)

Module Handoff.

(** [interface CommitMetadata] *)
Record CommitMetadata := mkMetadata {
  timestamp : string;
  commitMessage : string;
  hasLlmReadmeFiles : bool
}.

(** [JSON.stringify(metadata, null, 2)] and [JSON.parse(text)] are
    built-ins of the runtime.  [JSON_parse] gives [None] for a
    [SyntaxError], [Some None] for the document [null], and a record
    otherwise: the declared type [CommitMetadata | null] is trusted. *)
Class Json := {
  JSON_stringify : CommitMetadata -> string;
  JSON_parse : string -> option (option CommitMetadata)
}.

(** [path.join(PROJECT_ROOT, '.git', 'llm-readme-metadata.json')] *)
Definition METADATA_PATH : string := ".git/llm-readme-metadata.json".

End Handoff.

(** ** The post-commit script (phase B) *)

Module PostCommit.
Import Sys Str StrOps Node Handoff.
Local Open Scope sys_scope.
Local Open Scope string_scope.

Record ScriptConfig := mkConfig {
  timeout : N;
  maxRetries : nat;
  logLevel : LogLevel
}.

Definition config : ScriptConfig :=
  {| timeout := 30000%N; maxRetries := 3; logLevel := LogInfo |}.

Definition masterIndexPath : string := "master-index".

Definition dquote : string := String (ascii_of_nat 34) EmptyString.

(** [/^[a-zA-Z0-9\-_]+\.json$/] *)
Definition isWordChar (c : ascii) : bool :=
  let n := nat_of_ascii c in
  (((97 <=? n) && (n <=? 122)) || ((65 <=? n) && (n <=? 90))
   || ((48 <=? n) && (n <=? 57)) || (n =? 45) || (n =? 95))%nat.

Definition matchesPlainJson (name : string) : bool :=
  let l := chars name in
  let stem := firstn (length l - 5) l in
  endsWith ".json" name && negb (bool_decide (stem = []))
  && forallb isWordChar stem.

(** The test on [entry.name] inside [hasLlmReadmeFiles]. *)
Definition isIndexFile (name : string) : bool :=
  endsWith ".json" name &&
  (includes "llmreadme" name
   || String.eqb name "project-root.json"
   || includes "-root.json" name
   || (matchesPlainJson name
       && negb (startsWith "package" name)
       && negb (startsWith "tsconfig" name)
       && negb (startsWith "eslint" name))).

Inductive Signal := SIGINT | SIGTERM.

Section Script.
Context `{Json}.
Variable cfg : ScriptConfig.

Definition logger : Level -> M unit := log (logLevel cfg).

Definition executeCommand : string -> option N -> option nat -> M string :=
  CommandRunner.executeCommand (logLevel cfg) (timeout cfg) (maxRetries cfg).

Definition loadCommitMetadata : M (option CommitMetadata) :=
  try_catch
    (let! present := existsSync METADATA_PATH in
     if negb present then logger Verbose >> ret None
     else
       let! metadataContent := readFileSync METADATA_PATH in
       match JSON_parse metadataContent with
       | None => throw "SyntaxError"
       | Some metadata => logger Verbose >> ret metadata
       end)
    (fun error => logger Error >> ret None).

Definition cleanupMetadata : M unit :=
  try_catch
    (let! present := existsSync METADATA_PATH in
     if present then unlinkSync METADATA_PATH >> logger Verbose
     else ret tt)
    (fun error => logger Warn).

(** The local [findLlmReadmeFiles(dir)] of [hasLlmReadmeFiles]; [dir] is
    read first, then its entries are visited in order. *)
Fixpoint visitEntry (dir : string) (entry : Dirent) : M (list string) :=
  let fullPath := join dir (entryName entry) in
  match entry with
  | DDir _ children =>
      let! no := refused (CReaddir fullPath) in
      if no then throw "EACCES"
      else
        (fix visitAll (entries : list Dirent) : M (list string) :=
           match entries with
           | [] => ret []
           | e :: rest =>
               let! found := visitEntry fullPath e in
               let! more := visitAll rest in
               ret (found ++ more)%list
           end) children
  | DFile name => if isIndexFile name then ret [fullPath] else ret []
  | DOther _ => ret []
  end.

Fixpoint visitAll (dir : string) (entries : list Dirent) : M (list string) :=
  match entries with
  | [] => ret []
  | e :: rest =>
      let! found := visitEntry dir e in
      let! more := visitAll dir rest in
      ret (found ++ more)%list
  end.

Definition findIndexFiles (dir : string) : M (list string) :=
  let! entries := readdirSync dir in
  visitAll dir entries.

Definition hasLlmReadmeFiles : M bool :=
  try_catch
    (let! present := existsSync masterIndexPath in
     if negb present then logger Verbose >> ret false
     else
       let! entries := readdirSync masterIndexPath in
       if (length entries =? 0)%nat then logger Verbose >> ret false
       else
         let! result := findIndexFiles masterIndexPath in
         if (length result =? 0)%nat then logger Verbose >> ret false
         else
           logger Verbose >>
           logger Info >>
           logEach (logLevel cfg) Info result >>
           ret true)
    (fun error => logger Warn >> ret false).

Definition gitAddCommand : string := "git add master-index/".
Definition stagedCheck : string :=
  "git diff --name-only --cached master-index/".
Definition commitCommand (message : string) : string :=
  "git commit -m " ++ dquote ++ message ++ dquote ++ " --no-verify".

Definition commitLlmReadmeFiles (metadata : CommitMetadata) : M bool :=
  try_catch
    (let! has := hasLlmReadmeFiles in
     if negb has then logger Info >> ret true
     else
       logger Highlight >>
       executeCommand gitAddCommand (Some 60000%N) (Some 1) >>
       let! stagedFiles := executeCommand stagedCheck None (Some 1) in
       (if negb (nonEmpty stagedFiles) || negb (nonEmpty (trim stagedFiles))
        then throw "No files were successfully staged"
        else logger Success) >>
       let message := commitMessage metadata in
       logger Highlight >>
       executeCommand (commitCommand message) (Some 60000%N) (Some 1) >>
       logger Success >>
       logger Info >>
       ret true)
    (fun error => logger Error >> ret false).

Definition mainBody : M unit :=
  logger Highlight >>
  let! metadata := loadCommitMetadata in
  match metadata with
  | None => logger Info
  | Some metadata =>
      if negb (Handoff.hasLlmReadmeFiles metadata) then logger Info
      else
        let! success := commitLlmReadmeFiles metadata in
        if success then
          logger Highlight >> logger Success >>
          logger Info >> logger Info >> logger Info
        else logger Warn >> logger Info
  end.

(** [async function main()]: [try { ... } catch { ... } finally
    { cleanupMetadata() }] *)
Definition main : M unit :=
  try_finally
    (try_catch mainBody (fun error => logger Error >> logger Info))
    cleanupMetadata.

(** [process.on('SIGINT' | 'SIGTERM', ...)] *)
Definition onSignal (s : Signal) : M unit :=
  logger Info >> cleanupMetadata >> process_exit 0.

(** [main().catch(...)] *)
Definition onRejection (error : string) : M unit :=
  logger Error >> cleanupMetadata >> process_exit 0.

Definition script : M unit := try_catch main onRejection.

End Script.

End PostCommit.

(** ** The pre-commit script (phase A) *)

Module PreCommit.
Import Sys Str StrOps Node Handoff.
Local Open Scope sys_scope.
Local Open Scope string_scope.

Record ScriptConfig := mkConfig {
  timeout : N;
  maxRetries : nat;
  logLevel : LogLevel;
  createSeparateCommits : bool;
  readmeCommitMessage : string;
  useDocker : bool;
  targetDirectories : list string
}.

(** The [config] constant; the emoji that opens [readmeCommitMessage] is
    outside 8-bit code units and left out. *)
Definition config : ScriptConfig :=
  {| timeout := 300000%N;
     maxRetries := 3;
     logLevel := LogVerbose;
     createSeparateCommits := true;
     readmeCommitMessage :=
       "Generated master index with deduplicode.ai - Enhanced project documentation and analysis";
     useDocker := false;
     targetDirectories := [] |}.

(** [PROJECT_ROOT] is the empty relative path. *)
Definition PROJECT_ROOT : string := "".
Definition MASTER_INDEX_DIR : string := join PROJECT_ROOT "master-index".

Definition newline : ascii := "010"%char.

(** [LLM_GENERATOR_PATH], below [PROJECT_ROOT], as [existsSync] sees it. *)
Definition LLM_GENERATOR_FILE : string :=
  "apps/backend/bin/llm-readme-generator/llm-readme-generator-win-x64.exe".
Definition DOCKER_IMAGE : string := "llm-readme-generator:latest".

Definition dockerVersion : string := "docker --version".
Definition dockerInspect : string := "docker image inspect " ++ DOCKER_IMAGE.
Definition gitAddCommand : string := "git add master-index/".

(** A template hole between double quotes. *)
Definition quoted (s : string) : string :=
  String (ascii_of_nat 34) EmptyString ++ s ++ String (ascii_of_nat 34) EmptyString.

(** [targetDirs.map(dir => `"${dir}"`).join(' ')] *)
Definition quotedDirs (targetDirs : list string) : string :=
  String.concat " " (map quoted targetDirs).

Definition generatorOptions : string :=
  " --target llm --format json --detect-placeholders"
  ++ " --placeholder-confidence 20 --placeholder-analysis-level enhanced".

(** The template of [command] and of [altCommand] in [main]. *)
Definition dockerCommand (dockerPath : string) (targetDirs : list string)
  (recursiveFlag : string) : string :=
  "docker run --rm --name llm-readme-runner -v " ++ quoted (dockerPath ++ ":/app")
  ++ " -w /app " ++ DOCKER_IMAGE ++ " generate " ++ quotedDirs targetDirs
  ++ generatorOptions ++ recursiveFlag.

(** The template of [command] and of [localCommand] in [main]. *)
Definition localCommand (generatorPath : string) (targetDirs : list string)
  (recursiveFlag : string) : string :=
  quoted generatorPath ++ " generate " ++ quotedDirs targetDirs
  ++ generatorOptions ++ recursiveFlag ++ " --exclude-patterns " ++ quoted "apps/".

(** [s.replace(/\\/g, '/')] *)
Definition forwardSlashes (s : string) : string :=
  pack (map (fun c => if eqc c "\" then "/"%char else c) (chars s)).

(** [s.replace(/^[A-Za-z]:/, '')] *)
Definition isLetter (c : ascii) : bool :=
  let n := nat_of_ascii c in
  (((97 <=? n) && (n <=? 122)) || ((65 <=? n) && (n <=? 90)))%nat.

Definition dropDrive (s : string) : string :=
  match chars s with
  | c :: colon :: rest =>
      if isLetter c && eqc colon ":" then pack rest else s
  | _ => s
  end.

(** The array [pathFormats] of [main]. *)
Definition pathFormats (root : string) : list string :=
  [forwardSlashes root;
   forwardSlashes (dropDrive root);
   "/" ++ forwardSlashes (dropDrive root)].

(** [targetDirs.length === 1 && targetDirs[0] === '.'] *)
Definition isFullScan (targetDirs : list string) : bool :=
  (length targetDirs =? 1)%nat && String.eqb (nth 0 targetDirs "") ".".

Definition ignoredDirs : list string :=
  ["node_modules"; ".git"; "master-index"; "dist"; "build"].
Definition readmeFileNames : list string :=
  ["llmreadme.json"; "llmreadme-enhanced.json"].
Definition excludeDirs : list string :=
  ["benchmark"; "benchmarks"; "node_modules"; ".git"; "dist"; "coverage"].
Definition excludedDirs : list string :=
  ["node_modules"; ".git"; "dist"; "build"; "coverage"; ".next"; ".nuxt"].

(** [array.includes(x)] on strings *)
Definition member (x : string) (l : list string) : bool :=
  existsb (String.eqb x) l.

(** The counters that [processLlmReadmeFiles] keeps and logs. *)
Record Counters := mkCounters {
  filesFound : nat;
  filesCopied : nat;
  filesUpdated : nat;
  filesSkipped : nat
}.

Definition zero : Counters := mkCounters 0 0 0 0.
Definition found1 (c : Counters) : Counters :=
  mkCounters (S (filesFound c)) (filesCopied c) (filesUpdated c) (filesSkipped c).
Definition copied1 (c : Counters) : Counters :=
  mkCounters (filesFound c) (S (filesCopied c)) (filesUpdated c) (filesSkipped c).
Definition updated1 (c : Counters) : Counters :=
  mkCounters (filesFound c) (filesCopied c) (S (filesUpdated c)) (filesSkipped c).
Definition skipped1 (c : Counters) : Counters :=
  mkCounters (filesFound c) (filesCopied c) (filesUpdated c) (S (filesSkipped c)).

(** [new Set<string>()] filled by [add]: insertion order, no duplicates. *)
Definition setAdd (x : string) (s : list string) : list string :=
  if member x s then s else (s ++ [x])%list.

Inductive Signal := SIGINT | SIGTERM.

Section Script.
Context `{Json}.
Variable cfg : ScriptConfig.

Definition logger : Level -> M unit := log (logLevel cfg).

Definition executeCommand : string -> option N -> option nat -> M string :=
  CommandRunner.executeCommand (logLevel cfg) (timeout cfg) (maxRetries cfg).

Definition ensureDirectoryExists (dirPath : string) : M unit :=
  try_catch
    (let! present := existsSync dirPath in
     if negb present then mkdirSync dirPath >> logger Verbose
     else ret tt)
    (fun error =>
       throw ("Failed to create directory " ++ dirPath ++ ": Error: " ++ error)).

(** [walkDirectory(dir)] of [findLlmReadmeFiles]; the result is what it
    pushes on [files]. *)
Fixpoint walkEntry (dir : string) (entry : Dirent) : M (list string) :=
  let fullPath := join dir (entryName entry) in
  let relativePath := fullPath in
  match entry with
  | DDir name children =>
      if member name ignoredDirs then ret []
      else if existsb (fun ignored => includes ignored relativePath) ignoredDirs
      then ret []
      else
        let! no := refused (CReaddir fullPath) in
        if no then throw "EACCES"
        else
          (fix walkAll (entries : list Dirent) : M (list string) :=
             match entries with
             | [] => ret []
             | e :: rest =>
                 let! found := walkEntry fullPath e in
                 let! more := walkAll rest in
                 ret (found ++ more)%list
             end) children
  | DFile name =>
      if member name readmeFileNames then ret [relativePath] else ret []
  | DOther _ => ret []
  end.

Fixpoint walkAll (dir : string) (entries : list Dirent) : M (list string) :=
  match entries with
  | [] => ret []
  | e :: rest =>
      let! found := walkEntry dir e in
      let! more := walkAll dir rest in
      ret (found ++ more)%list
  end.

Definition walkDirectory (dir : string) : M (list string) :=
  let! entries := readdirSync dir in
  walkAll dir entries.

Definition findLlmReadmeFiles : M (list string) :=
  try_catch
    (logger Verbose >>
     let! files := walkDirectory PROJECT_ROOT in
     logger Verbose >>
     (if (0 <? length files)%nat then
        logger Info >> logEach (logLevel cfg) Info files
      else ret tt) >>
     ret files)
    (fun error =>
       throw ("Failed to find LLM readme files: Error: " ++ error)).

(** [transformPathToFilename] with its one [logger.verbose] call. *)
Definition transformPathToFilename (filePath : string) : M string :=
  logger Verbose >> ret (Transform.transformPathToFilename filePath).

(** One turn of [for (const relativeFilePath of llmReadmeFiles)]. *)
Definition processOne (relativeFilePath : string) (c : Counters)
  : M Counters :=
  if existsb (fun dir => includes dir relativeFilePath) excludeDirs then
    logger Info >> ret (skipped1 c)
  else
    let c := found1 c in
    let sourceFile := join PROJECT_ROOT relativeFilePath in
    let! targetFilename := transformPathToFilename relativeFilePath in
    let destFile := join MASTER_INDEX_DIR targetFilename in
    let! destExists := existsSync destFile in
    let c := if destExists then updated1 c else copied1 c in
    let! skipped :=
      try_catch
        (let destDir := Path.dirname destFile in
         let! dirExists := existsSync destDir in
         (if negb dirExists then mkdirSync destDir else ret tt) >>
         let! sourceExists := existsSync sourceFile in
         if negb sourceExists then logger Warn >> ret true
         else
           logger Info >>
           renameSync sourceFile destFile >>
           logger Info >>
           ret false)
        (fun err =>
           try_catch
             (copyFileSync sourceFile destFile >>
              unlinkSync sourceFile >>
              logger Info >>
              ret false)
             (fun fallbackErr => logger Error >> ret true)) in
    ret (if skipped then skipped1 c else c).

Fixpoint processAll (llmReadmeFiles : list string) (c : Counters)
  : M Counters :=
  match llmReadmeFiles with
  | [] => ret c
  | relativeFilePath :: rest =>
      let! c := processOne relativeFilePath c in
      processAll rest c
  end.

(** [processLlmReadmeFiles]; it returns the counters it logs, [None]
    when the search finds nothing. *)
Definition processLlmReadmeFiles : M (option Counters) :=
  try_catch
    (logger Highlight >>
     let! llmReadmeFiles := findLlmReadmeFiles in
     if (length llmReadmeFiles =? 0)%nat then
       logger Warn >> logger Info >> ret None
     else
       logger Info >>
       ensureDirectoryExists MASTER_INDEX_DIR >>
       logger Info >>
       let! c := processAll llmReadmeFiles zero in
       logger Success >>
       logger Info >> logger Info >> logger Info >> logger Info >>
       logger Info >>
       ret (Some c))
    (fun error =>
       throw ("Failed to process llmreadme.json files: Error: " ++ error)).

Definition isDirectoryEmpty (dirPath : string) : M bool :=
  try_catch
    (let! present := existsSync dirPath in
     if negb present then ret true
     else
       let! entries := readdirSync dirPath in
       ret (length entries =? 0)%nat)
    (fun error => logger Warn >> ret true).

Definition getStagedFiles : M (list string) :=
  try_catch
    (logger Verbose >>
     let! output :=
       executeCommand "git diff --name-only --cached" None (Some 1) in
     logger Verbose >>
     logger Verbose >>
     if negb (nonEmpty output) || (String.length (trim output) =? 0)%nat
     then logger Verbose >> ret []
     else
       let files :=
         List.filter
           (fun file => nonEmpty file && nonEmpty (trim file)
                        && negb (startsWith "master-index/" file))
           (split newline (trim output)) in
       logger Verbose >> logger Verbose >> ret files)
    (fun error => logger Warn >> ret []).

(** The [for (const file of stagedFiles)] loop on [targetPaths]. *)
Definition targetPathsOf (stagedFiles : list string) : list string :=
  fold_left
    (fun targetPaths file =>
       let parentDir := Path.dirname file in
       if negb (String.eqb parentDir ".") then setAdd parentDir targetPaths
       else setAdd file targetPaths)
    stagedFiles [].

Definition keepPath (dir : string) : bool :=
  negb (member dir excludedDirs)
  && negb (existsb (fun excluded => startsWith (excluded ++ "/") dir)
                   excludedDirs).

Definition determineTargetDirectories : M (list string) :=
  if (0 <? length (targetDirectories cfg))%nat then
    logger Highlight >> ret (targetDirectories cfg)
  else
    let masterIndexPath := join PROJECT_ROOT "master-index" in
    let! present := existsSync masterIndexPath in
    let! missingOrEmpty :=
      (if negb present then ret true else isDirectoryEmpty masterIndexPath) in
    if missingOrEmpty then logger Highlight >> ret ["."]
    else
      try_catch
        (let! stagedFiles := getStagedFiles in
         if (length stagedFiles =? 0)%nat then
           logger Highlight >> ret ["."]
         else
           logger Info >>
           let targetPaths := targetPathsOf stagedFiles in
           let filteredPaths := List.filter keepPath targetPaths in
           if (0 <? length filteredPaths)%nat then
             logger Highlight >> logger Info >> ret filteredPaths
           else logger Highlight >> ret ["."])
        (fun error => logger Warn >> logger Highlight >> ret ["."]).

Definition saveCommitMetadata : M unit :=
  if negb (createSeparateCommits cfg) then ret tt
  else
    try_catch
      (logger Verbose >>
       let! timestamp := ask now in
       let metadata :=
         {| timestamp := timestamp;
            commitMessage := readmeCommitMessage cfg;
            hasLlmReadmeFiles := true |} in
       let metadataPath := METADATA_PATH in
       writeFileSync metadataPath (JSON_stringify metadata) >>
       logger Verbose)
      (fun error => logger Warn).

(** [process.on('SIGINT' | 'SIGTERM', ...)] *)
Definition onSignal (s : Signal) : M unit :=
  logger Info >> process_exit 1.

(** [main().catch(...)] *)
Definition onRejection (error : string) : M unit :=
  logger Error >> process_exit 1.

(** The last statement of the script, for the [main] it starts. *)
Definition script (main : M unit) : M unit := try_catch main onRejection.

(** [moveFile(source, destination)]; no statement of the script calls it. *)
Definition moveFile (source destination : string) : M unit :=
  try_catch
    (let destDir := Path.dirname destination in
     ensureDirectoryExists destDir >>
     let! present := existsSync destination in
     (if present then unlinkSync destination else ret tt) >>
     renameSync source destination >>
     logger Verbose)
    (fun error =>
       throw ("Failed to move file from " ++ source ++ " to " ++ destination
              ++ ": Error: " ++ error)).

(** [stageLlmReadmeFiles] *)
Definition stageLlmReadmeFiles : M unit :=
  try_catch
    (saveCommitMetadata >>
     if negb (createSeparateCommits cfg) then
       logger Info >>
       try_catch
         (let masterIndexPath := join PROJECT_ROOT "master-index" in
          let! present := existsSync masterIndexPath in
          let! filled :=
            (if present then
               let! entries := readdirSync masterIndexPath in
               ret (0 <? length entries)%nat
             else ret false) in
          if filled then
            executeCommand gitAddCommand None (Some 1) >> logger Success
          else ret tt)
         (fun error => logger Error)
     else
       logger Highlight >> logger Info >> logger Info >> logger Info)
    (fun error => logger Warn >> logger Info).

(** [validateLlmGenerator]; the field [config.useDocker], which it
    assigns, is passed in and returned beside the result. *)
Definition validateLlmGenerator (useDocker : bool) : M (bool * bool) :=
  try_catch
    (logger Verbose >>
     let! viaDocker :=
       try_catch
         (let! dockerCheck :=
            executeCommand dockerVersion (Some 5000%N) (Some 1) in
          if nonEmpty dockerCheck && nonEmpty (trim dockerCheck) then
            logger Verbose >>
            try_catch
              (executeCommand dockerInspect (Some 5000%N) (Some 1) >>
               logger Highlight >> logger Info >> ret true)
              (fun imageError => logger Warn >> ret false)
          else logger Warn >> ret false)
         (fun dockerError => logger Warn >> ret false) in
     if viaDocker then ret (true, true)
     else
       logger Verbose >>
       let! present := existsSync LLM_GENERATOR_FILE in
       if present then logger Highlight >> logger Info >> ret (true, false)
       else logger Warn >> ret (false, useDocker))
    (fun error => logger Warn >> ret (false, useDocker)).

(** [process.cwd()], as the commands print it, and
    [process.platform === 'win32']. *)
Variable cwd : string.
Variable win32 : bool.

(** [LLM_GENERATOR_PATH], as the commands print it. *)
Definition LLM_GENERATOR_PATH : string :=
  (if String.eqb cwd "/" then "/" else cwd ++ "/") ++ LLM_GENERATOR_FILE.

(** The loop [for (let i = 0; i < pathFormats.length; i++)] of [main]; it
    ends at the first format that works. *)
Fixpoint tryPathFormats (formats targetDirs : list string)
  (recursiveFlag : string) : M unit :=
  match formats with
  | [] => ret tt
  | altPath :: rest =>
      logger Info >>
      let! done :=
        try_catch
          (executeCommand (dockerCommand altPath targetDirs recursiveFlag)
                          None None >>
           logger Highlight >> ret true)
          (fun altError => logger Verbose >> ret false) in
      if done then ret tt else tryPathFormats rest targetDirs recursiveFlag
  end.

(** The [try { executeCommand(command) ... } catch (genError) { ... }] of
    [main]: [Some useDocker] when the script goes on, with the value of
    [config.useDocker] then; [None] for the [return] statements. *)
Definition runGenerator (useDocker : bool) (command : string)
  (targetDirs : list string) (recursiveFlag : string) : M (option bool) :=
  try_catch
    (executeCommand command None None >>
     logger Highlight >> ret (Some useDocker))
    (fun genError =>
       logger Warn >>
       (if useDocker && win32 then
          logger Highlight >>
          tryPathFormats (pathFormats cwd) targetDirs recursiveFlag
        else ret tt) >>
       let! fallBack :=
         (if useDocker then existsSync LLM_GENERATOR_FILE else ret false) in
       if fallBack then
         logger Highlight >>
         logger Info >>
         try_catch
           (executeCommand
              (localCommand LLM_GENERATOR_PATH targetDirs recursiveFlag)
              None None >>
            logger Highlight >> ret (Some false))
           (fun localError => logger Warn >> logger Info >> ret None)
       else logger Info >> ret None).

(** [async function main()] *)
Definition main : M unit :=
  try_catch
    (logger Highlight >>
     logger Info >>
     let! validated := validateLlmGenerator (useDocker cfg) in
     let isValid := fst validated in
     let useDocker := snd validated in
     if negb isValid then logger Warn >> logger Info
     else
       let! targetDirs := determineTargetDirectories in
       logger Highlight >>
       let recursiveFlag :=
         if isFullScan targetDirs then " --recursive" else "" in
       logger Info >>
       let! command :=
         (if useDocker then
            (if win32 then logger Verbose else ret tt) >>
            logger Info >>
            ret (dockerCommand cwd targetDirs recursiveFlag)
          else
            logger Info >>
            ret (localCommand LLM_GENERATOR_PATH targetDirs recursiveFlag)) in
       let! generated :=
         runGenerator useDocker command targetDirs recursiveFlag in
       match generated with
       | None => ret tt
       | Some useDocker =>
           logger Info >>
           logger Verbose >>
           delay 2000%N >>
           processLlmReadmeFiles >>
           logger Info >>
           stageLlmReadmeFiles >>
           logger Highlight >>
           logger Highlight >>
           if createSeparateCommits cfg then
             logger Highlight >> logger Info >> logger Info >> logger Info
           else logger Info
       end)
    (fun error => logger Error >> logger Info).

(** The script as it starts: [main().catch(...)]. *)
Definition start : M unit := script main.

End Script.

End PreCommit.

(** ** What the scripts are expected to do

    Functions of the world that the theorems compare the scripts with. *)

Module HandoffSpec.
Import Sys Node Handoff.

Section Store.
Context `{Json}.
Variable pre : PreCommit.ScriptConfig.

(** The record that [saveCommitMetadata] builds in the world [w]. *)
Definition fresh (w : World) : CommitMetadata :=
  {| timestamp := now w;
     commitMessage := PreCommit.readmeCommitMessage pre;
     hasLlmReadmeFiles := true |}.

(** What [loadCommitMetadata] finds in the world [w]. *)
Definition pending (w : World) : option CommitMetadata :=
  if isFile w METADATA_PATH || isDirectory w METADATA_PATH then
    if refuses w (CRead METADATA_PATH) then None
    else
      match files w !! METADATA_PATH with
      | Some content =>
          match JSON_parse content with
          | Some metadata => metadata
          | None => None
          end
      | None => None
      end
  else None.

End Store.

End HandoffSpec.

Module ResolverSpec.
Import Sys Str StrOps Node PreCommit.
Local Open Scope string_scope.

Definition stagedCommand : string := "git diff --name-only --cached".

(** The staged files that [getStagedFiles] reads off the output of git. *)
Definition stagedOf (output : string) : list string :=
  if negb (nonEmpty output) || (String.length (trim output) =? 0)%nat then []
  else
    List.filter
      (fun file => nonEmpty file && nonEmpty (trim file)
                   && negb (startsWith "master-index/" file))
      (split newline (trim output)).

(** What [isDirectoryEmpty(dirPath)] answers in the world [w]. *)
Definition emptyDir (w : World) (dirPath : string) : bool :=
  if isFile w dirPath || isDirectory w dirPath then
    if refuses w (CReaddir dirPath) then true
    else
      match lookupDir (segments dirPath) (tree w) with
      | Some entries => (length entries =? 0)%nat
      | None => true
      end
  else true.

(** The test [!fs.existsSync(masterIndexPath) ||
    isDirectoryEmpty(masterIndexPath)]. *)
Definition indexMissingOrEmpty (w : World) : bool :=
  let p := join PROJECT_ROOT "master-index" in
  if isFile w p || isDirectory w p then emptyDir w p else true.

(** What [getStagedFiles] returns in the world [w]. *)
Definition stagedIn (w : World) : list string :=
  match oracle w (spawned w) stagedCommand with
  | ExecOk output => stagedOf output
  | ExecFail _ _ => []
  end.

(** The scope that the staged files stand for. *)
Definition scopeOf (staged : list string) : list string :=
  match staged with
  | [] => ["."]
  | _ =>
      match List.filter keepPath (targetPathsOf staged) with
      | [] => ["."]
      | filteredPaths => filteredPaths
      end
  end.

Definition resolved (cfg : ScriptConfig) (w : World) : list string :=
  match targetDirectories cfg with
  | _ :: _ => targetDirectories cfg
  | [] => if indexMissingOrEmpty w then ["."] else scopeOf (stagedIn w)
  end.

End ResolverSpec.

Module PhaseBSpec.
Import Sys Str StrOps Node Handoff PostCommit.
Local Open Scope string_scope.

(** Worlds with the same files, listing and refused calls. *)
Definition sameDisk (w w' : World) : Prop :=
  files w' = files w /\ tree w' = tree w /\ refuses w' = refuses w.

(** The completion of [executeCommand] with a budget of one attempt. *)
Definition once (outcome : ExecOutcome) : Res string :=
  match outcome with
  | ExecOk out => Ok out
  | ExecFail _ message =>
      Throw ("Command failed after " ++ showNat 1 ++ " attempts: " ++ message)
  end.

(** The git commands that [commitLlmReadmeFiles] runs once the gate is
    passed, and whether it reports success. *)
Definition plan (w : World) (message : string) : list string * bool :=
  match oracle w (spawned w) gitAddCommand with
  | ExecFail _ _ => ([gitAddCommand], false)
  | ExecOk _ =>
      match oracle w (S (spawned w)) stagedCheck with
      | ExecFail _ _ => ([gitAddCommand; stagedCheck], false)
      | ExecOk stagedFiles =>
          if negb (nonEmpty stagedFiles) || negb (nonEmpty (trim stagedFiles))
          then ([gitAddCommand; stagedCheck], false)
          else
            match oracle w (S (S (spawned w))) (commitCommand message) with
            | ExecOk _ =>
                ([gitAddCommand; stagedCheck; commitCommand message], true)
            | ExecFail _ _ =>
                ([gitAddCommand; stagedCheck; commitCommand message], false)
            end
      end
  end.

(** The staged diff [staged] counts as empty. *)
Definition emptyDiff (staged : string) : bool :=
  negb (nonEmpty staged) || negb (nonEmpty (trim staged)).

(** The world after [cleanupMetadata] and its events [tr]. *)
Definition swept (w : World) (tr : list Event) : World :=
  mkWorld (oracle w) (refuses w) (now w) (spawned w)
          (if refuses w (CUnlink METADATA_PATH) then files w
           else delete METADATA_PATH (files w))
          (tree w) (trace w ++ tr).

(** The world after a run of [main] with [n] processes and the events
    [tr]. *)
Definition finished (w : World) (n : nat) (tr : list Event) : World :=
  mkWorld (oracle w) (refuses w) (now w) (n + spawned w)
          (if refuses w (CUnlink METADATA_PATH) then files w
           else delete METADATA_PATH (files w))
          (tree w) (trace w ++ tr).

(** The hand-off record is deleted: after the run the file is gone, unless
    the platform refuses the unlink. *)
Definition cleaned (w w' : World) : Prop :=
  refuses w (CUnlink METADATA_PATH) = false -> files w' !! METADATA_PATH = None.

Section Script.
Context `{Json}.
Variable cfg : ScriptConfig.

(** The answer of [hasLlmReadmeFiles] in the world [w]. *)
Definition gate (w : World) : bool :=
  match fst (hasLlmReadmeFiles cfg w) with
  | Ok b => b
  | _ => false
  end.

(** The git commands of a run of [main] that starts in the world [w]. *)
Definition commandsIn (w : World) : list string :=
  match HandoffSpec.pending w with
  | Some metadata =>
      if Handoff.hasLlmReadmeFiles metadata && gate w
      then fst (plan w (commitMessage metadata))
      else []
  | None => []
  end.

(** The run of [main] that starts in the world [w] tries to commit and
    fails. *)
Definition commitFails (w : World) : Prop :=
  exists metadata,
    HandoffSpec.pending w = Some metadata
    /\ Handoff.hasLlmReadmeFiles metadata = true
    /\ gate w = true
    /\ snd (plan w (commitMessage metadata)) = false.

(** [main] with any body in place of its [try] block. *)
Definition mainAround (body : M unit) : M unit :=
  try_finally
    (try_catch body (fun error => logger cfg Error >> logger cfg Info)%sys)
    (cleanupMetadata cfg).

End Script.

End PhaseBSpec.

Module MergerSpec.
Import Sys Str StrOps Node PreCommit.
Local Open Scope string_scope.

(** The destination of the artifact [relativeFilePath]. *)
Definition destOf (relativeFilePath : string) : string :=
  join MASTER_INDEX_DIR (Transform.transformPathToFilename relativeFilePath).

(** The test [excludeDirs.some(dir => relativeFilePath.includes(dir))]. *)
Definition excluded (relativeFilePath : string) : bool :=
  existsb (fun dir => includes dir relativeFilePath) excludeDirs.

(** The counters after the test on the destination. *)
Definition classified (w : World) (p : string) (c : Counters) : Counters :=
  if isFile w (destOf p) || isDirectory w (destOf p)
  then updated1 (found1 c) else copied1 (found1 c).

(** The path [p] was not found inside the master index. *)
Definition outside (p : string) : Prop :=
  startsWith "master-index/" p = false.

End MergerSpec.

Module GeneratorSpec.
Import Sys Str StrOps Node Handoff PreCommit.
Local Open Scope string_scope.

(** Docker answers with a version. *)
Definition dockerAnswers (w : World) : bool :=
  match oracle w (spawned w) dockerVersion with
  | ExecOk dockerCheck => nonEmpty dockerCheck && nonEmpty (trim dockerCheck)
  | ExecFail _ _ => false
  end.

(** Docker answers, and the inspection of the image succeeds. *)
Definition dockerReady (w : World) : bool :=
  dockerAnswers w
  && match oracle w (S (spawned w)) dockerInspect with
     | ExecOk _ => true
     | ExecFail _ _ => false
     end.

(** The local executable is there. *)
Definition localReady (w : World) : bool :=
  isFile w LLM_GENERATOR_FILE || isDirectory w LLM_GENERATOR_FILE.

(** The processes of the check for a generator. *)
Definition probes (w : World) : list Event :=
  EvExec dockerVersion 5000%N
  :: (if dockerAnswers w then [EvExec dockerInspect 5000%N] else []).


End GeneratorSpec.

Module DiskSpec.
Import Sys Str StrOps Node Handoff PreCommit MergerSpec.
Local Open Scope string_scope.

(** The directory [dir] passes the two tests of [walkDirectory]: no ignored
    name occurs in its path. *)
Definition searched (dir : string) : Prop :=
  existsb (fun ignored => includes ignored dir) ignoredDirs = false.

(** A path that [walkDirectory] may push: a recognized file name in a
    directory that it searches. *)
Definition found (p : string) : Prop :=
  exists dir name,
    p = join dir name /\ member name readmeFileNames = true /\ searched dir.


(** Some regular file of the entry, at any depth, has a name that passes
    the filter of the post-commit script. *)
Fixpoint holdsIndexFile (e : Dirent) : bool :=
  match e with
  | DFile name => PostCommit.isIndexFile name
  | DDir _ children => existsb holdsIndexFile children
  | DOther _ => false
  end.

(** The master index is listed and holds a file that passes the filter. *)
Definition indexHoldsFile (w : World) : bool :=
  match lookupDir (segments PostCommit.masterIndexPath) (tree w) with
  | Some entries => existsb holdsIndexFile entries
  | None => false
  end.

(** The one call that the post-commit script may make to change the disk. *)
Definition postCommitCall (c : FsCall) : Prop := c = CUnlink METADATA_PATH.

End DiskSpec.

(** ** A JSON text for the handoff record

    One instance of the built-ins: the writer follows
    [JSON.stringify(metadata, null, 2)], the reader accepts a flat object of
    strings and booleans that has the three fields, and the document
    [null]. *)

Module JsonText.
Import Str StrOps Handoff.
Local Open Scope string_scope.

Definition dq : ascii := "034"%char.
Definition bs : ascii := "\"%char.

Definition hexDigit (n : nat) : ascii :=
  nth n (chars "0123456789abcdef") "0"%char.

Definition hexValue (c : ascii) : option nat :=
  let n := nat_of_ascii c in
  if ((48 <=? n) && (n <=? 57))%nat then Some (n - 48)
  else if ((97 <=? n) && (n <=? 102))%nat then Some (n - 87)
  else if ((65 <=? n) && (n <=? 70))%nat then Some (n - 55)
  else None.

Definition escape (c : ascii) : list ascii :=
  let n := nat_of_ascii c in
  if (n =? 34)%nat then [bs; dq]
  else if (n =? 92)%nat then [bs; bs]
  else if (n =? 8)%nat then [bs; "b"%char]
  else if (n =? 12)%nat then [bs; "f"%char]
  else if (n =? 10)%nat then [bs; "n"%char]
  else if (n =? 13)%nat then [bs; "r"%char]
  else if (n =? 9)%nat then [bs; "t"%char]
  else if (n <? 32)%nat then
    [bs; "u"%char; "0"%char; "0"%char; hexDigit (n / 16); hexDigit (n mod 16)]
  else [c].

Definition quote (s : string) : list ascii :=
  (dq :: flat_map escape (chars s) ++ [dq])%list.

Definition stringify (m : CommitMetadata) : string :=
  let nl := ["010"%char] in
  pack (chars "{" ++ nl
        ++ chars "  " ++ quote "timestamp" ++ chars ": "
        ++ quote (timestamp m) ++ chars "," ++ nl
        ++ chars "  " ++ quote "commitMessage" ++ chars ": "
        ++ quote (commitMessage m) ++ chars "," ++ nl
        ++ chars "  " ++ quote "hasLlmReadmeFiles" ++ chars ": "
        ++ chars (if hasLlmReadmeFiles m then "true" else "false") ++ nl
        ++ chars "}")%list.

Inductive Token :=
| LBrace | RBrace | Colon | Comma
| TString (s : string) | TTrue | TFalse | TNull.

(** The characters of a string literal after its opening quote, and what
    follows the closing quote. *)
Fixpoint readString (s : list ascii) : option (list ascii * list ascii) :=
  let cons c r :=
    match r with
    | Some (body, rest) => Some (c :: body, rest)
    | None => None
    end in
  match s with
  | [] => None
  | c :: r =>
      if eqc c dq then Some ([], r)
      else if eqc c bs then
        match r with
        | e :: r' =>
            if eqc e dq then cons dq (readString r')
            else if eqc e bs then cons bs (readString r')
            else if eqc e "/" then cons "/"%char (readString r')
            else if eqc e "b" then cons "008"%char (readString r')
            else if eqc e "f" then cons "012"%char (readString r')
            else if eqc e "n" then cons "010"%char (readString r')
            else if eqc e "r" then cons "013"%char (readString r')
            else if eqc e "t" then cons "009"%char (readString r')
            else if eqc e "u" then
              match r' with
              | "0"%char :: "0"%char :: h :: l :: r'' =>
                  match hexValue h, hexValue l with
                  | Some a, Some b =>
                      cons (ascii_of_nat (16 * a + b)) (readString r'')
                  | _, _ => None
                  end
              | _ => None
              end
            else None
        | [] => None
        end
      else if (nat_of_ascii c <? 32)%nat then None
      else cons c (readString r)
  end.

Fixpoint lex (fuel : nat) (s : list ascii) : option (list Token) :=
  let cons t r :=
    match r with
    | Some ts => Some (t :: ts)
    | None => None
    end in
  match fuel with
  | 0 => match s with [] => Some [] | _ => None end
  | S fuel =>
      match s with
      | [] => Some []
      | c :: r =>
          if isSpace c then lex fuel r
          else if eqc c "{" then cons LBrace (lex fuel r)
          else if eqc c "}" then cons RBrace (lex fuel r)
          else if eqc c ":" then cons Colon (lex fuel r)
          else if eqc c "," then cons Comma (lex fuel r)
          else if eqc c dq then
            match readString r with
            | Some (body, rest) => cons (TString (pack body)) (lex fuel rest)
            | None => None
            end
          else if startsWithL (chars "true") s then
            cons TTrue (lex fuel (skipn 4 s))
          else if startsWithL (chars "false") s then
            cons TFalse (lex fuel (skipn 5 s))
          else if startsWithL (chars "null") s then
            cons TNull (lex fuel (skipn 4 s))
          else None
      end
  end.

(** The fields of an object after its opening brace. *)
Fixpoint fields (ts : list Token) : option (list (string * Token)) :=
  match ts with
  | TString k :: Colon :: v :: rest =>
      match v, rest with
      | (TString _ | TTrue | TFalse), [RBrace] => Some [(k, v)]
      | (TString _ | TTrue | TFalse), Comma :: more =>
          match fields more with
          | Some fs => Some ((k, v) :: fs)
          | None => None
          end
      | _, _ => None
      end
  | _ => None
  end.

(** The last binding of a key wins, as in [JSON.parse]. *)
Fixpoint field (k : string) (fs : list (string * Token)) : option Token :=
  match fs with
  | [] => None
  | (k', v) :: rest =>
      match field k rest with
      | Some v' => Some v'
      | None => if String.eqb k k' then Some v else None
      end
  end.

Definition parse (text : string) : option (option CommitMetadata) :=
  match lex (String.length text) (chars text) with
  | Some [TNull] => Some None
  | Some (LBrace :: ts) =>
      match fields ts with
      | Some fs =>
          match field "timestamp" fs, field "commitMessage" fs,
                field "hasLlmReadmeFiles" fs with
          | Some (TString t), Some (TString m), Some TTrue =>
              Some (Some (mkMetadata t m true))
          | Some (TString t), Some (TString m), Some TFalse =>
              Some (Some (mkMetadata t m false))
          | _, _, _ => None
          end
      | None => None
      end
  | _ => None
  end.

#[export] Instance json : Json :=
  {| JSON_stringify := stringify; JSON_parse := parse |}.

End JsonText.

(** ** Concrete worlds *)

Module Worlds.
Import Sys.
Local Open Scope string_scope.

Definition quiet (oracle : nat -> string -> ExecOutcome)
  (files : gmap string string) (tree : list Dirent) : World :=
  mkWorld oracle (fun _ => false) "2025-01-01T00:00:00.000Z" 0 files tree [].

(** A command that fails twice and then prints [clean]. *)
Definition flaky : World :=
  quiet (fun i _ => if (i <? 2)%nat then ExecFail "1" "busy" else ExecOk "clean")
        ∅ [].

(** Nothing on disk, every command prints nothing. *)
Definition idle : World := quiet (fun _ _ => ExecOk "") ∅ [].

(** Every command prints [out]. *)
Definition printing (out : string) : World := quiet (fun _ _ => ExecOk out) ∅ [].

(** The world [w] with a master index that holds one file. *)
Definition indexed (w : World) : World :=
  mkWorld (oracle w) (refuses w) (now w) (spawned w)
          (<["master-index/project-root.json" := "{}"]> (files w))
          (tree w ++ [DDir "master-index" [DFile "project-root.json"]])
          (trace w).

(** The record of a pending hand-off. *)
Definition flagged : Handoff.CommitMetadata :=
  Handoff.mkMetadata "2025-01-01T00:00:00.000Z" "docs: refresh the index" true.

(** The world [w] with the hand-off record on disk. *)
Definition handed (w : World) : World :=
  mkWorld (oracle w) (refuses w) (now w) (spawned w)
          (<[Handoff.METADATA_PATH := JsonText.stringify flagged]> (files w))
          (tree w) (trace w).

(** A source directory with the two artifacts of the generator. *)
Definition sources : list Dirent :=
  [DDir "src" [DFile "llmreadme.json"; DFile "index.ts";
               DFile "llmreadme-enhanced.json"];
   DFile "package.json"].

(** Both artifacts are on disk. *)
Definition generated : World :=
  quiet (fun _ _ => ExecOk "")
        (<["src/llmreadme.json" := "{standard}"]>
           (<["src/llmreadme-enhanced.json" := "{enhanced}"]> ∅))
        sources.

(** One artifact below [src], as a stub generator leaves it. *)
Definition blockedFree : World :=
  quiet (fun _ _ => ExecOk "")
        (<["src/llmreadme.json" := "{standard}"]> ∅)
        [DDir "src" [DFile "llmreadme.json"]].

(** The world [w] with the canonical file of [src] in the index. *)
Definition indexedSrc (w : World) : World :=
  mkWorld (oracle w) (refuses w) (now w) (spawned w)
          (<["master-index/src-root.json" := "{old}"]> (files w))
          (tree w ++ [DDir "master-index" [DFile "src-root.json"]])
          (trace w).

(** The listing shows an artifact that is gone when its turn comes. *)
Definition raced : World :=
  quiet (fun _ _ => ExecOk "") ∅ [DDir "src" [DFile "llmreadme.json"]].

(** The artifact is there, and the platform refuses to rename or copy. *)
Definition blocked : World :=
  mkWorld (fun _ _ => ExecOk "")
          (fun call =>
             match call with
             | CRename _ _ | CCopy _ _ => true
             | _ => false
             end)
          "2025-01-01T00:00:00.000Z" 0
          (<["src/llmreadme.json" := "{standard}"]> ∅)
          [DDir "src" [DFile "llmreadme.json"]] [].

(** A pending hand-off with an index in place and a staged diff. *)
Definition ready : World := handed (indexed (printing "master-index/src-root.json")).

(** The artifact is there, and the platform refuses to rename only, as
    across devices. *)
Definition crossDevice : World :=
  mkWorld (fun _ _ => ExecOk "")
          (fun call =>
             match call with
             | CRename _ _ => true
             | _ => false
             end)
          "2025-01-01T00:00:00.000Z" 0
          (<["src/llmreadme.json" := "{standard}"]> ∅)
          [DDir "src" [DFile "llmreadme.json"]] [].

(** The generator is installed, and both artifacts are on disk. *)
Definition installed : World :=
  quiet (fun _ _ => ExecOk "")
        (<[PreCommit.LLM_GENERATOR_FILE := "exe"]> (files generated))
        sources.

(** No command ever succeeds. *)
Definition broken : World :=
  quiet (fun _ _ => ExecFail "ETIMEDOUT" "spawnSync ETIMEDOUT") ∅ [].

End Worlds.

(** * Properties *)

(** ** Strings and paths *)

Module StrFacts.
Import Str Path.

Lemma pack_chars (s : string) : pack (chars s) = s.
Proof. apply string_of_list_ascii_of_string. Qed.

Lemma chars_pack (l : list ascii) : chars (pack l) = l.
Proof. apply list_ascii_of_string_of_list_ascii. Qed.

Lemma pack_inj (a b : list ascii) : pack a = pack b -> a = b.
Proof.
  intros E. rewrite <- (chars_pack a), <- (chars_pack b). now rewrite E.
Qed.

Lemma eqc_true (a b : ascii) : eqc a b = true <-> a = b.
Proof. apply Ascii.eqb_eq. Qed.

Lemma eqc_false (a b : ascii) : eqc a b = false <-> a <> b.
Proof. apply Ascii.eqb_neq. Qed.


Lemma slashFree_app (a b : list ascii) :
  slashFree a -> slashFree b -> slashFree (a ++ b).
Proof. intros; now apply Forall_app. Qed.

Lemma slashFree_rev (a : list ascii) : slashFree a -> slashFree (rev a).
Proof. apply List.Forall_rev. Qed.

Lemma scan_slashFree (l : list ascii) :
  slashFree l -> forall i b, dirname_scan l i b = None.
Proof.
  induction 1 as [|c l Hc _ IH]; intros i b; simpl; [reflexivity|].
  rewrite Hc. apply IH.
Qed.

(** A name without a slash lies in the current directory. *)
Lemma dirnameL_slashFree (l : list ascii) :
  slashFree l -> dirnameL l = chars ".".
Proof.
  destruct l as [|c l]; [reflexivity|].
  intros Hl. inversion Hl as [|? ? Hc Htl]; subst.
  unfold dirnameL. rewrite (scan_slashFree (rev l)) by now apply slashFree_rev.
  now rewrite Hc.
Qed.

(** The scan runs over a final component and stops at the slash that
    precedes it. *)
Lemma scan_component (f r : list ascii) (i : nat) (b : bool) :
  slashFree f -> f <> [] ->
  dirname_scan (rev f ++ "/"%char :: r) i b = Some (i - length f).
Proof.
  intros Hf. revert i b.
  induction f as [|c f IH] using rev_ind; intros i b Hne; [congruence|].
  apply Forall_app in Hf as [Hf Hc]. inversion Hc as [|? ? Hc' _]; subst.
  rewrite rev_app_distr. simpl. rewrite Hc'.
  destruct f as [|d f].
  - reflexivity.
  - rewrite IH by (assumption || congruence).
    f_equal. rewrite length_app. simpl. lia.
Qed.

(** [dirname(d + "/" + f)] is [d], for a directory [d] that does not start
    with a slash and a final component [f]. *)
Lemma dirnameL_join (c : ascii) (d f : list ascii) :
  isSlash c = false -> slashFree f -> f <> [] ->
  dirnameL ((c :: d) ++ "/"%char :: f) = c :: d.
Proof.
  intros Hc Hf Hne. unfold dirnameL. cbn [app].
  rewrite rev_app_distr. cbn [rev]. rewrite <- app_assoc. cbn [app].
  rewrite scan_component by assumption.
  rewrite Hc. cbn [andb].
  rewrite length_app. cbn [length].
  replace (length d + S (length f) - length f) with (S (length d)) by lia.
  cbn [firstn]. f_equal. rewrite firstn_app, firstn_all.
  replace (length d - length d) with 0 by lia. cbn [firstn]. apply app_nil_r.
Qed.

(** The directory of [d + "/" + f] does not depend on the final component
    [f]. *)
Lemma dirnameL_final (d f : list ascii) :
  slashFree f -> f <> [] ->
  dirnameL (d ++ "/"%char :: f)
  = match d with
    | [] => chars "/"
    | c :: d' =>
        if isSlash c && (S (length d') =? 1)%nat then chars "//" else c :: d'
    end.
Proof.
  intros Hf Hne. destruct d as [|c d].
  - cbn [app dirnameL].
    rewrite (scan_slashFree (rev f)) by now apply slashFree_rev.
    reflexivity.
  - unfold dirnameL. cbn [app].
    rewrite rev_app_distr. cbn [rev]. rewrite <- app_assoc. cbn [app].
    rewrite scan_component by assumption.
    rewrite length_app. cbn [length].
    replace (length d + S (length f) - length f) with (S (length d)) by lia.
    destruct (isSlash c && (S (length d) =? 1)%nat); [reflexivity|].
    cbn [firstn]. f_equal. rewrite firstn_app, firstn_all.
    replace (length d - length d) with 0 by lia. cbn [firstn]. apply app_nil_r.
Qed.

Lemma dirnameL_sibling (d f f' : list ascii) :
  slashFree f -> f <> [] -> slashFree f' -> f' <> [] ->
  dirnameL (d ++ "/"%char :: f) = dirnameL (d ++ "/"%char :: f').
Proof. intros. now rewrite !dirnameL_final. Qed.

End StrFacts.

(** ** PathTransformer *)

Module TransformFacts.
Import Str Path Transform StrFacts.


Lemma isSep_slash (c : ascii) : isSep c = false -> isSlash c = false.
Proof.
  unfold isSep, isSlash. intros E. apply orb_false_iff in E. tauto.
Qed.

Lemma sepFree_slashFree (l : list ascii) : sepFree l -> slashFree l.
Proof. intros Hl. eapply List.Forall_impl; [exact isSep_slash | exact Hl]. Qed.

Lemma replaceSeps_sepFree (s : list ascii) (b : bool) :
  sepFree (replaceSeps b s).
Proof.
  revert b. induction s as [|c s IH]; intros b; simpl; [constructor|].
  destruct (isSep c) eqn:E.
  - destruct b; [apply IH|]. constructor; [reflexivity | apply IH].
  - constructor; [assumption | apply IH].
Qed.

Lemma chars_sepFree (s : string) :
  forallb (fun c => negb (isSep c)) (chars s) = true -> sepFree (chars s).
Proof.
  intros E. apply List.Forall_forall. intros c Hc.
  rewrite List.forallb_forall in E. specialize (E c Hc).
  now apply negb_true_iff.
Qed.

(** The canonical name never holds a path separator. *)
Lemma transformL_sepFree (p : list ascii) : sepFree (transformL p).
Proof.
  unfold transformL.
  destruct (_ || _).
  - now apply chars_sepFree.
  - destruct (isConventional _); apply Forall_app; split;
      try apply replaceSeps_sepFree; now apply chars_sepFree.
Qed.

Lemma transformL_root (p : list ascii) :
  dirnameL p = chars "." -> transformL p = chars project_root_json.
Proof. intros E. unfold transformL. now rewrite E. Qed.

Lemma transformL_twice (p : list ascii) :
  transformL (transformL p) = chars project_root_json.
Proof.
  apply transformL_root, dirnameL_slashFree, sepFree_slashFree,
    transformL_sepFree.
Qed.

Lemma chars_append (a b : string) :
  chars (a ++ b)%string = chars a ++ chars b.
Proof. induction a as [|c a IH]; simpl; [reflexivity|]. now rewrite <- IH. Qed.

(** *** Counting hyphens *)


Lemma occurrences_app (c : ascii) (a b : list ascii) :
  occurrences c (a ++ b) = occurrences c a + occurrences c b.
Proof. apply count_occ_app. Qed.

Lemma occurrences_plain (s : list ascii) :
  Forall (fun c => isSep c = false /\ c <> "-"%char) s ->
  occurrences "-" s = 0.
Proof.
  intros Hs. apply count_occ_not_In. intros Hin.
  rewrite List.Forall_forall in Hs. destruct (Hs _ Hin) as [_ Hne].
  now apply Hne.
Qed.

(** A component passes through the second [replace] unchanged. *)
Lemma replaceSeps_plain (s t : list ascii) (b : bool) :
  Forall (fun c => isSep c = false /\ c <> "-"%char) s ->
  replaceSeps b (s ++ t)
  = s ++ replaceSeps (match s with [] => b | _ => false end) t.
Proof.
  intros Hs. revert b.
  induction Hs as [|c s [Hc _] _ IH]; intros b; [reflexivity|].
  cbn [app replaceSeps]. rewrite Hc, IH. now destruct s.
Qed.


Lemma chars_concat (segs : list string) :
  chars (String.concat "/" segs) = joinL (map chars segs).
Proof.
  induction segs as [|s [|s' segs] IH]; [reflexivity | reflexivity |].
  change (chars (s ++ "/" ++ String.concat "/" (s' :: segs))%string
          = chars s ++ "/"%char :: joinL (map chars (s' :: segs))).
  now rewrite chars_append, <- IH.
Qed.

Lemma joinL_snoc (segs : list (list ascii)) (f : list ascii) :
  segs <> [] -> joinL (segs ++ [f]) = joinL segs ++ "/"%char :: f.
Proof.
  induction segs as [|s [|s' segs] IH]; intros Hne; [congruence | reflexivity |].
  change (s ++ "/"%char :: joinL ((s' :: segs) ++ [f])
          = (s ++ "/"%char :: joinL (s' :: segs)) ++ "/"%char :: f).
  rewrite IH by congruence. now rewrite <- app_assoc.
Qed.

(** Each separator between components contributes one hyphen. *)
Lemma hyphens_joinL (s : list ascii) (segs : list (list ascii)) (b : bool) :
  plainL s -> Forall plainL segs ->
  occurrences "-" (replaceSeps b (joinL (s :: segs))) = length segs.
Proof.
  intros Hs Hsegs. revert s b Hs.
  induction Hsegs as [|s' segs Hs' _ IH]; intros s b [Hne Hs].
  - cbn [joinL]. rewrite <- (app_nil_r s), replaceSeps_plain by assumption.
    cbn [replaceSeps]. rewrite app_nil_r. now apply occurrences_plain.
  - change (joinL (s :: s' :: segs)) with (s ++ "/"%char :: joinL (s' :: segs)).
    rewrite replaceSeps_plain by assumption.
    destruct s as [|c s]; [congruence|].
    rewrite occurrences_app, occurrences_plain by assumption.
    cbn [replaceSeps]. change (isSep "/") with true. cbv iota.
    unfold occurrences at 1. rewrite count_occ_cons_eq by reflexivity.
    fold (occurrences "-" (replaceSeps true (joinL (s' :: segs)))).
    now rewrite IH.
Qed.

(** The first [replace] removes leading dots only from a component that
    has another character. *)
Lemma stripLeading_plain (s t : list ascii) :
  Forall (fun c => isSep c = false /\ c <> "-"%char) s ->
  ~ Forall (fun c => c = "."%char) s ->
  exists s', stripLeading (s ++ t) = s' ++ t /\ plainL s'.
Proof.
  induction 1 as [|c s [Hc Hh] Hs IH]; intros Hdots.
  - exfalso. apply Hdots. constructor.
  - cbn [app stripLeading]. destruct (isLeading c) eqn:El.
    + assert (c = "."%char) as ->.
      { unfold isLeading in El. unfold isSep in Hc.
        apply orb_false_iff in Hc as [H1 H2].
        rewrite H1, H2, !orb_false_r in El. now apply eqc_true. }
      apply IH. intros Hall. apply Hdots. now constructor.
    + exists (c :: s). split; [reflexivity|]. split; [congruence|].
      now constructor.
Qed.

Lemma isConventional_false (n : list ascii) :
  ~ In (pack n) conventional -> isConventional n = false.
Proof.
  intros Hn. unfold isConventional. apply not_true_is_false. intros E.
  apply List.existsb_exists in E as (x & Hx & Ex).
  apply String.eqb_eq in Ex. now subst.
Qed.

(** *** The claims on the transform *)

Local Open Scope string_scope.

(** C1, as stated, fails: the canonical name of a nested artifact is not a
    fixed point of the transform; re-applied to [apps-api.json] it gives
    the name of the project root. *)
Lemma transform_not_idempotent :
  transformPathToFilename "apps/api/llmreadme.json" = "apps-api.json"
  /\ transformPathToFilename "apps-api.json" = "project-root.json"
  /\ transformPathToFilename
       (transformPathToFilename "apps/api/llmreadme.json")
     <> transformPathToFilename "apps/api/llmreadme.json".
Proof. repeat split; vm_compute; congruence. Qed.

(** C1, amended: the transform is a function of the path alone; an input
    whose containing directory is the project root gets the fixed name
    [project-root.json]; re-applied to any of its outputs the transform
    gives [project-root.json], so that [transform (transform x)] equals
    [transform x] exactly when [transform x] is [project-root.json]. *)
Theorem transform_reapplied (x : string) :
  (Path.dirname x = "." -> transformPathToFilename x = "project-root.json")
  /\ transformPathToFilename (transformPathToFilename x) = "project-root.json"
  /\ (transformPathToFilename (transformPathToFilename x)
      = transformPathToFilename x
      <-> transformPathToFilename x = "project-root.json").
Proof.
  assert (Htwice : transformPathToFilename (transformPathToFilename x)
                   = "project-root.json").
  { unfold transformPathToFilename. rewrite chars_pack, transformL_twice.
    apply pack_chars. }
  split; [|split].
  - intros Hroot. unfold transformPathToFilename.
    rewrite transformL_root; [apply pack_chars|].
    unfold Path.dirname in Hroot. apply pack_inj.
    now rewrite Hroot, pack_chars.
  - exact Htwice.
  - rewrite Htwice. split; congruence.
Qed.

Lemma transform_reapplied_witness :
  transformPathToFilename "llmreadme.json" = "project-root.json".
Proof.
  apply (proj1 (transform_reapplied "llmreadme.json")). reflexivity.
Defined.

(** Inputs of the project root are not the only ones with the name of the
    project root: an artifact of the directory [project/root] gets it too,
    and is a fixed point of the re-application. *)
Example nested_project_root :
  Path.dirname "project/root/llmreadme.json" = "project/root"
  /\ transformPathToFilename "project/root/llmreadme.json"
     = "project-root.json"
  /\ transformPathToFilename
       (transformPathToFilename "project/root/llmreadme.json")
     = transformPathToFilename "project/root/llmreadme.json".
Proof. repeat split. Qed.

(** C9, as stated, fails.  Counting the file name among the N segments,
    a 3-segment path yields one hyphen, not two; counting the directory
    segments only, a first directory named [...] is removed whole by the
    first [replace], and a backslash inside a directory name becomes a
    hyphen. *)
Lemma nested_hyphens_not_segments_minus_one :
  (hyphens (transformPathToFilename "apps/api/llmreadme.json") = 1
   /\ StrOps.split "/" "apps/api/llmreadme.json"
      = ["apps"; "api"; "llmreadme.json"])
  /\ (hyphens (transformPathToFilename ".../lib/llmreadme.json") = 0
      /\ StrOps.split "/" ".../lib/llmreadme.json"
         = ["..."; "lib"; "llmreadme.json"]
      /\ flattenedToken ".../lib/llmreadme.json" = "lib")
  /\ (hyphens (transformPathToFilename "a\b/llmreadme.json") = 1
      /\ StrOps.split "/" "a\b/llmreadme.json" = ["a\b"; "llmreadme.json"]).
Proof. repeat split; vm_compute; reflexivity. Qed.

(** C9, amended: for a source path [dirs/file] whose containing directory
    has the N components [dirs] (the file name not counted), each of them
    non-empty and free of hyphens, slashes and backslashes, the first one
    not made of dots only, and whose flattened token is not a conventional
    name, the canonical name holds exactly N-1 hyphens. *)
Theorem nested_path_hyphens (dirs : list string) (file : string) :
  dirs <> [] ->
  Forall plain dirs ->
  ~ dotsOnly (hd "" dirs) ->
  file <> "" ->
  slashFree (chars file) ->
  let x := String.concat "/" (dirs ++ [file]) in
  ~ In (flattenedToken x) conventional ->
  hyphens (transformPathToFilename x) = length dirs - 1.
Proof.
  intros Hne Hplain Hdots Hfile Hslash x Hconv.
  destruct dirs as [|d dirs]; [congruence|]. cbn [hd] in Hdots.
  apply List.Forall_cons_iff in Hplain as [Hd Hdirs].
  assert (Hdirs' : Forall plainL (map chars dirs)).
  { apply List.Forall_map. exact Hdirs. }
  assert (Hx : chars x = (joinL (chars d :: map chars dirs)
                          ++ "/"%char :: chars file)%list).
  { unfold x. rewrite chars_concat, map_app. cbn [map].
    now rewrite (joinL_snoc (chars d :: map chars dirs)). }
  assert (Hfile' : chars file <> []).
  { intros E. apply Hfile. now rewrite <- (pack_chars file), E. }
  destruct Hd as [Hd0 Hd].
  destruct (chars d) as [|c0 d0] eqn:Ed; [congruence|].
  assert (Hc0 : isSlash c0 = false).
  { apply isSep_slash. inversion Hd as [|? ? [? _] _]; now subst. }
  (* the containing directory *)
  assert (Hdir : dirnameL (chars x) = joinL ((c0 :: d0) :: map chars dirs)).
  { rewrite Hx.
    destruct (map chars dirs) as [|s' rest]; cbn [joinL app].
    - now apply dirnameL_join.
    - change (c0 :: d0 ++ "/"%char :: joinL (s' :: rest))%list
        with (c0 :: (d0 ++ "/"%char :: joinL (s' :: rest)))%list.
      now apply (dirnameL_join c0). }
  (* the first replace *)
  destruct (stripLeading_plain (c0 :: d0)
              (match map chars dirs with
               | [] => []
               | _ => "/"%char :: joinL (map chars dirs)
               end) Hd) as (s' & Hstrip & Hs').
  { unfold dotsOnly in Hdots. now rewrite Ed in Hdots. }
  assert (Hjoin : forall s, joinL (s :: map chars dirs)
                  = (s ++ match map chars dirs with
                          | [] => []
                          | _ => "/"%char :: joinL (map chars dirs)
                          end)%list).
  { intros s. destruct (map chars dirs); cbn [joinL];
      [now rewrite app_nil_r | reflexivity]. }
  rewrite <- Hjoin in Hstrip. rewrite <- Hjoin in Hstrip.
  (* not the root *)
  assert (Hnotroot :
            (pack (dirnameL (chars x)) =? ".")
            || (pack (dirnameL (chars x)) =? "") = false).
  { apply orb_false_iff. split; apply String.eqb_neq; intros E;
      apply (f_equal chars) in E; rewrite chars_pack, Hdir, Hjoin in E.
    - cbn in E. injection E as -> E. apply app_eq_nil in E as [-> _].
      apply Hdots. unfold dotsOnly. rewrite Ed. now repeat constructor.
    - discriminate E. }
  unfold flattenedToken in Hconv. rewrite Hdir, Hstrip in Hconv.
  unfold hyphens, transformPathToFilename. rewrite chars_pack.
  unfold transformL. rewrite Hnotroot, Hdir, Hstrip.
  rewrite (isConventional_false _ Hconv).
  rewrite occurrences_app, hyphens_joinL by assumption.
  rewrite length_map. cbn. lia.
Qed.

Lemma nested_path_hyphens_witness :
  hyphens (transformPathToFilename "apps/api/llmreadme-enhanced.json") = 1.
Proof.
  apply (nested_path_hyphens ["apps"; "api"] "llmreadme-enhanced.json").
  - discriminate.
  - repeat constructor; discriminate.
  - intros Hd. inversion Hd. discriminate.
  - discriminate.
  - repeat constructor.
  - vm_compute. intuition discriminate.
Defined.

End TransformFacts.

(** ** CommandRunner *)

Module RunnerFacts.
Import Sys StrOps Node CommandRunner.
Local Open Scope string_scope.


Lemma actionsOf_app (a b : list Event) :
  actionsOf (a ++ b) = (actionsOf a ++ actionsOf b)%list.
Proof.
  induction a as [|e a IH]; [reflexivity|].
  destruct e; cbn; now rewrite IH.
Qed.


Lemma framed_refl (w : World) : framed w w.
Proof. now repeat split. Qed.

Lemma framed_trans (a b c : World) : framed a b -> framed b c -> framed a c.
Proof. unfold framed. intuition congruence. Qed.


Section Loop.
Variables (lvl : LogLevel) (command : string) (timeout : N) (retries : nat).

Lemma attempt_ok (left attempt : nat) (w : World) (out : string) :
  oracle w (spawned w) command = ExecOk out ->
  exists w',
    attemptsFrom lvl command timeout retries (S left) attempt w = (Ok out, w')
    /\ framed w w' /\ spawned w' = S (spawned w)
    /\ actionsOf (trace w')
       = (actionsOf (trace w) ++ [EvExec command timeout])%list.
Proof.
  intros Hok.
  destruct lvl; cbn; unfold bind; cbn; rewrite Hok; cbn;
    (eexists; split; [reflexivity|]); cbn;
    rewrite ?actionsOf_app; cbn; rewrite ?app_nil_r;
    repeat split; reflexivity.
Qed.

Lemma attempt_last (left : nat) (w : World) (code message : string) :
  oracle w (spawned w) command = ExecFail code message ->
  exists w',
    attemptsFrom lvl command timeout retries (S left) retries w
    = (Throw ("Command failed after " ++ showNat retries ++ " attempts: "
              ++ message), w')
    /\ framed w w' /\ spawned w' = S (spawned w)
    /\ actionsOf (trace w')
       = (actionsOf (trace w) ++ [EvExec command timeout])%list.
Proof.
  intros Hfail.
  destruct lvl; cbn; unfold bind; cbn; rewrite Hfail; cbn;
    rewrite Nat.eqb_refl; cbn;
    (eexists; split; [reflexivity|]); cbn;
    rewrite ?actionsOf_app; cbn; rewrite ?app_nil_r;
    repeat split; reflexivity.
Qed.

Lemma attempt_retry (left attempt : nat) (w : World) (code message : string) :
  oracle w (spawned w) command = ExecFail code message ->
  attempt <> retries ->
  exists w',
    attemptsFrom lvl command timeout retries (S left) attempt w
    = attemptsFrom lvl command timeout retries left (S attempt) w'
    /\ framed w w' /\ spawned w' = S (spawned w)
    /\ actionsOf (trace w')
       = (actionsOf (trace w) ++ failedTurn command timeout attempt)%list.
Proof.
  intros Hfail Hne. apply Nat.eqb_neq in Hne.
  destruct lvl; cbn; unfold bind; cbn; rewrite Hfail; cbn;
    rewrite Hne; cbn;
    (eexists; split; [reflexivity|]); cbn;
    rewrite ?actionsOf_app; cbn; rewrite ?app_nil_r, <- ?app_assoc;
    repeat split; reflexivity.
Qed.

(** [k] failed attempts that are not the last one. *)
Lemma attempts_skip (k : nat) :
  forall (left attempt : nat) (w : World),
    k < left ->
    attempt + left = retries + 1 ->
    (forall j, j < k -> exists code message,
          oracle w (spawned w + j) command = ExecFail code message) ->
    exists w',
      attemptsFrom lvl command timeout retries left attempt w
      = attemptsFrom lvl command timeout retries (left - k) (attempt + k) w'
      /\ framed w w' /\ spawned w' = spawned w + k
      /\ actionsOf (trace w')
         = (actionsOf (trace w)
            ++ flat_map (failedTurn command timeout) (seq attempt k))%list.
Proof.
  induction k as [|k IH]; intros left attempt w Hk Hinv Hfail.
  - exists w. rewrite Nat.sub_0_r, !Nat.add_0_r. cbn. rewrite app_nil_r.
    auto using framed_refl.
  - destruct left as [|left]; [lia|].
    destruct (Hfail 0 ltac:(lia)) as (code & message & H0).
    rewrite Nat.add_0_r in H0.
    destruct (attempt_retry left attempt w code message H0 ltac:(lia))
      as (w1 & E1 & F1 & S1 & A1).
    destruct (IH left (S attempt) w1) as (w' & E & F & S' & A).
    + lia.
    + lia.
    + intros j Hj. destruct F1 as (-> & _). rewrite S1.
      destruct (Hfail (S j) ltac:(lia)) as (c & m & Ej).
      exists c, m. rewrite <- Ej. f_equal. lia.
    + exists w'. rewrite E1, E.
      replace (S left - S k) with (left - k) by lia.
      replace (attempt + S k) with (S attempt + k) by lia.
      split; [reflexivity|]. split; [eauto using framed_trans|].
      split; [lia|]. rewrite A, A1. cbn [seq flat_map].
      now rewrite <- !app_assoc.
Qed.

End Loop.


(** A budget of zero runs no attempt and throws the closing error. *)
Lemma executeCommand_no_budget (lvl : LogLevel) (dT : N) (dR : nat)
  (command : string) (timeout : option N) (w : World) :
  executeCommand lvl dT dR command timeout (Some 0) w
  = (Throw "Unexpected error in executeCommand", w).
Proof. reflexivity. Qed.

(** C4: with the retry budget [n], a command that fails on the attempts
    before [k] and succeeds on attempt [k <= n] returns the output of
    that attempt after exactly [k] attempts; a command that fails on all
    [n] attempts throws after exactly [n] attempts an error that carries
    the message of the last one; every failed attempt but the last is
    followed, before the next attempt, by a wait of
    [2 ^ (attempt - 1) * 1000] milliseconds. *)
Theorem executeCommand_retry (lvl : LogLevel) (dT : N) (dR : nat)
  (command : string) (timeout : option N) (retries : option nat)
  (w : World) :
  let t := default dT timeout in
  let n := default dR retries in
  let r := executeCommand lvl dT dR command timeout retries w in
  (forall k out,
      1 <= k <= n ->
      (forall a, 1 <= a < k -> failsAt w command a) ->
      oracle w (spawned w + (k - 1)) command = ExecOk out ->
      fst r = Ok out
      /\ spawned (snd r) = spawned w + k
      /\ actionsOf (trace (snd r))
         = (actionsOf (trace w) ++ attemptsTrace command t k)%list)
  /\ (1 <= n ->
      (forall a, 1 <= a <= n -> failsAt w command a) ->
      exists code message,
        oracle w (spawned w + (n - 1)) command = ExecFail code message
        /\ fst r = Throw ("Command failed after " ++ showNat n
                          ++ " attempts: " ++ message)
        /\ spawned (snd r) = spawned w + n
        /\ actionsOf (trace (snd r))
           = (actionsOf (trace w) ++ attemptsTrace command t n)%list).
Proof.
  intros t n r. unfold r, executeCommand. fold t. fold n. split.
  - intros k out Hk Hfail Hok.
    destruct (attempts_skip lvl command t n (k - 1) n 1 w)
      as (w1 & E & F & S1 & A); [lia | lia | |].
    { intros j Hj. destruct (Hfail (S j) ltac:(lia)) as (c & m & Ej).
      exists c, m. now rewrite Nat.sub_1_r in Ej. }
    destruct (n - (k - 1)) as [|left] eqn:El; [lia|].
    destruct (attempt_ok lvl command t n left (1 + (k - 1)) w1 out)
      as (w2 & E2 & F2 & S2 & A2).
    { destruct F as (-> & _). now rewrite S1. }
    rewrite E, E2. cbn [fst snd]. split; [reflexivity|].
    split; [lia|]. unfold attemptsTrace. rewrite A2, A.
    now rewrite <- app_assoc.
  - intros Hn Hfail.
    destruct (Hfail n ltac:(lia)) as (code & message & Elast).
    exists code, message. split; [exact Elast|].
    destruct (attempts_skip lvl command t n (n - 1) n 1 w)
      as (w1 & E & F & S1 & A); [lia | lia | |].
    { intros j Hj. destruct (Hfail (S j) ltac:(lia)) as (c & m & Ej).
      exists c, m. now rewrite Nat.sub_1_r in Ej. }
    replace (n - (n - 1)) with 1 in E by lia.
    replace (1 + (n - 1)) with n in E by lia.
    destruct (attempt_last lvl command t n 0 w1 code message)
      as (w2 & E2 & F2 & S2 & A2).
    { destruct F as (-> & _). now rewrite S1. }
    rewrite E, E2. cbn [fst snd]. split; [reflexivity|].
    split; [lia|]. unfold attemptsTrace. rewrite A2, A.
    now rewrite <- app_assoc.
Qed.

End RunnerFacts.


Module RunnerExamples.
Import Sys CommandRunner RunnerFacts Worlds.
Local Open Scope string_scope.

Lemma executeCommand_retry_witness :
  let r := executeCommand LogInfo 30000%N 3 "git status" None None flaky in
  fst r = Ok "clean"
  /\ spawned (snd r) = 3
  /\ actionsOf (trace (snd r))
     = [EvExec "git status" 30000%N; EvSleep 1000%N;
        EvExec "git status" 30000%N; EvSleep 2000%N;
        EvExec "git status" 30000%N].
Proof.
  apply (proj1 (executeCommand_retry LogInfo 30000%N 3 "git status"
                  None None flaky) 3 "clean").
  - cbn. lia.
  - intros a Ha. assert (a = 1 \/ a = 2) as [-> | ->] by lia;
      exists "1", "busy"; reflexivity.
  - reflexivity.
Defined.

Example executeCommand_gives_up :
  let r := executeCommand LogInfo 30000%N 3 "git status" None None broken in
  fst r = Throw "Command failed after 3 attempts: spawnSync ETIMEDOUT"
  /\ spawned (snd r) = 3.
Proof. split; reflexivity. Qed.

End RunnerExamples.

Module JsonTextExamples.
Import Handoff JsonText.
Local Open Scope string_scope.

Example parse_stringify :
  let m := mkMetadata "2025-01-01T00:00:00.000Z" "docs: index" true in
  parse (stringify m) = Some (Some m).
Proof. vm_compute. reflexivity. Qed.

Example parse_garbage : parse "{ not json" = None.
Proof. vm_compute. reflexivity. Qed.

End JsonTextExamples.

(** ** HandoffStore *)

Module HandoffFacts.
Import Sys Node Handoff HandoffSpec.
Local Open Scope string_scope.

(** Evaluates a run, with a case analysis on each test it meets. *)
Ltac cases :=
  repeat (cbn;
          match goal with
          | |- context [if negb ?c then _ else _] => destruct c eqn:?
          | |- context [if ?c then _ else _] => destruct c eqn:?
          | |- context [match ?m !! ?k with _ => _ end] =>
              destruct (m !! k) eqn:?
          | |- context [match JSON_parse ?c with _ => _ end] =>
              destruct (JSON_parse c) eqn:?
          end).

(** Closes the frame conditions left after a run has been evaluated. *)
Ltac quiet :=
  cbn; rewrite ?RunnerFacts.actionsOf_app; cbn; rewrite ?app_nil_r;
  repeat split; try reflexivity; try assumption.

Section Store.
Context `{Json}.
Variables (pre : PreCommit.ScriptConfig) (post : PostCommit.ScriptConfig).

#[local] Abbreviation fresh := (HandoffSpec.fresh pre).



Lemma load_result (w : World) :
  fst (PostCommit.loadCommitMetadata post w) = Ok (pending w)
  /\ framed w (snd (PostCommit.loadCommitMetadata post w))
  /\ spawned (snd (PostCommit.loadCommitMetadata post w)) = spawned w
  /\ actionsOf (trace (snd (PostCommit.loadCommitMetadata post w)))
     = actionsOf (trace w).
Proof.
  unfold PostCommit.loadCommitMetadata, pending, PostCommit.logger, try_catch,
    bind, existsSync, readFileSync, refused, ask, framed.
  destruct (PostCommit.logLevel post); cases; quiet.
Qed.

Lemma cleanup_result (w : World) :
  let r := PostCommit.cleanupMetadata post w in
  fst r = Ok tt
  /\ (oracle (snd r) = oracle w /\ refuses (snd r) = refuses w
      /\ now (snd r) = now w /\ tree (snd r) = tree w)
  /\ spawned (snd r) = spawned w
  /\ actionsOf (trace (snd r)) = actionsOf (trace w)
  /\ files (snd r)
     = (if refuses w (CUnlink METADATA_PATH) then files w
        else delete METADATA_PATH (files w))
  /\ (isFile w METADATA_PATH || isDirectory w METADATA_PATH = true ->
      In (EvFs (CUnlink METADATA_PATH)) (trace (snd r))).
Proof.
  unfold PostCommit.cleanupMetadata, PostCommit.logger, try_catch, bind,
    existsSync, unlinkSync, refused, ask, emit, setFiles.
  destruct (PostCommit.logLevel post); cases; quiet;
    try discriminate;
    try solve [intros _; rewrite !in_app_iff; cbn; tauto];
    try (symmetry; apply delete_id; try assumption).
  all: match goal with
       | E : isFile ?v _ || _ = false |- _ =>
           apply orb_false_iff in E as [E _]; unfold isFile in E;
           apply bool_decide_eq_false in E;
           destruct (files v !! METADATA_PATH) eqn:El; [|reflexivity];
           exfalso; apply E; eauto
       end.
Qed.

Lemma save_result (w : World) :
  PreCommit.createSeparateCommits pre = true ->
  refuses w (CWrite METADATA_PATH) = false ->
  let r := PreCommit.saveCommitMetadata pre w in
  fst r = Ok tt
  /\ files (snd r) = <[METADATA_PATH := JSON_stringify (fresh w)]> (files w)
  /\ refuses (snd r) = refuses w.
Proof.
  intros Hsep Hw.
  unfold PreCommit.saveCommitMetadata, PreCommit.logger, try_catch, bind,
    writeFileSync, refused, ask, emit, setFiles. rewrite Hsep.
  destruct (PreCommit.logLevel pre); cbn; rewrite Hw; cbn; auto.
Qed.

(** C5: after [saveCommitMetadata] has written the record [m],
    [loadCommitMetadata] returns [m]; after [cleanupMetadata] it returns
    [null]; and it never throws: without a metadata file, or with one that
    does not parse, it returns [null].  The write, the read and the unlink
    are the ones the platform carries out, and the JSON built-ins read back
    what they wrote for [m]. *)
Theorem handoff_round_trip (w : World) :
  (PreCommit.createSeparateCommits pre = true ->
   refuses w (CWrite METADATA_PATH) = false ->
   refuses w (CRead METADATA_PATH) = false ->
   JSON_parse (JSON_stringify (fresh w)) = Some (Some (fresh w)) ->
   fst (PostCommit.loadCommitMetadata post
          (snd (PreCommit.saveCommitMetadata pre w)))
   = Ok (Some (fresh w)))
  /\ (refuses w (CUnlink METADATA_PATH) = false ->
      fst (PostCommit.loadCommitMetadata post
             (snd (PostCommit.cleanupMetadata post w)))
      = Ok None)
  /\ (exists metadata, fst (PostCommit.loadCommitMetadata post w) = Ok metadata)
  /\ (files w !! METADATA_PATH = None ->
      fst (PostCommit.loadCommitMetadata post w) = Ok None)
  /\ (forall content,
        files w !! METADATA_PATH = Some content ->
        JSON_parse content = None ->
        fst (PostCommit.loadCommitMetadata post w) = Ok None).
Proof.
  repeat split.
  - intros Hsep Hwrite Hread Hjson.
    destruct (save_result w Hsep Hwrite) as (_ & Hfiles & Hrefuses).
    destruct (load_result (snd (PreCommit.saveCommitMetadata pre w)))
      as (-> & _).
    f_equal. unfold pending, isFile.
    rewrite Hfiles, Hrefuses, Hread, lookup_insert_eq, Hjson.
    rewrite bool_decide_eq_true_2 by eauto. reflexivity.
  - intros Hunlink.
    destruct (cleanup_result w) as (_ & _ & _ & _ & Hfiles & _).
    rewrite Hunlink in Hfiles.
    destruct (load_result (snd (PostCommit.cleanupMetadata post w)))
      as (-> & _).
    f_equal. unfold pending. rewrite Hfiles, lookup_delete_eq.
    now repeat case_match.
  - eexists. apply load_result.
  - intros Hnone. destruct (load_result w) as (-> & _). f_equal.
    unfold pending. rewrite Hnone. now repeat case_match.
  - intros content Hsome Hparse. destruct (load_result w) as (-> & _).
    f_equal. unfold pending. rewrite Hsome, Hparse.
    now repeat case_match.
Qed.

End Store.

End HandoffFacts.

Module HandoffExamples.
Import Sys Handoff JsonText HandoffSpec HandoffFacts Worlds.
Local Open Scope string_scope.

Lemma handoff_round_trip_witness :
  fst (PostCommit.loadCommitMetadata PostCommit.config
         (snd (PreCommit.saveCommitMetadata PreCommit.config idle)))
  = Ok (Some (fresh PreCommit.config idle)).
Proof.
  apply (proj1 (handoff_round_trip PreCommit.config PostCommit.config idle));
    vm_compute; reflexivity.
Defined.

End HandoffExamples.

(** ** TargetDirectoryResolver *)

Module ResolverFacts.
Import Sys Str StrOps Node Handoff PreCommit ResolverSpec.
Local Open Scope string_scope.

#[local] Arguments trim : simpl never.
#[local] Arguments split : simpl never.
#[local] Arguments nonEmpty : simpl never.
#[local] Arguments startsWith : simpl never.
#[local] Arguments targetPathsOf : simpl never.
#[local] Arguments keepPath : simpl never.
#[local] Arguments segments : simpl never.
#[local] Arguments lookupDir : simpl never.
#[local] Arguments isDirectory : simpl never.
#[local] Arguments isFile : simpl never.
#[local] Arguments showNat : simpl never.
#[local] Arguments String.length : simpl never.
#[local] Arguments String.append : simpl never.
#[local] Arguments List.filter : simpl never.








Ltac cases :=
  repeat (cbn;
          match goal with
          | |- context [if negb ?c then _ else _] => destruct c eqn:?
          | |- context [if ?c then _ else _] => destruct c eqn:?
          | |- context [match lookupDir ?s ?t with _ => _ end] =>
              destruct (lookupDir s t) eqn:?
          | |- context [match oracle ?w ?n ?c with _ => _ end] =>
              destruct (oracle w n c) eqn:?
          end).

Section Resolver.
Context `{Json}.
Variable cfg : ScriptConfig.

Lemma isDirectoryEmpty_run (dirPath : string) (w : World) :
  exists w',
    isDirectoryEmpty cfg dirPath w = (Ok (emptyDir w dirPath), w')
    /\ framed w w' /\ spawned w' = spawned w.
Proof.
  unfold isDirectoryEmpty, emptyDir, logger, try_catch, bind, existsSync,
    readdirSync, refused, ask, framed.
  destruct (logLevel cfg); cases; eexists; (split; [reflexivity|]); cbn; auto 10.
Qed.

Lemma getStagedFiles_run (w : World) :
  exists w', getStagedFiles cfg w = (Ok (stagedIn w), w').
Proof.
  unfold getStagedFiles, stagedIn, stagedOf, executeCommand,
    CommandRunner.executeCommand, logger, try_catch, bind, stagedCommand.
  destruct (logLevel cfg); cases; eexists; reflexivity.
Qed.

Lemma stagedIn_framed (w w' : World) :
  framed w w' -> spawned w' = spawned w -> stagedIn w' = stagedIn w.
Proof. intros (Ho & _) Hs. unfold stagedIn. now rewrite Ho, Hs. Qed.

#[local] Arguments isDirectoryEmpty : simpl never.
#[local] Arguments getStagedFiles : simpl never.

Lemma determine_result (w : World) :
  fst (determineTargetDirectories cfg w) = Ok (resolved cfg w).
Proof.
  unfold determineTargetDirectories, resolved, indexMissingOrEmpty.
  destruct (targetDirectories cfg) as [|d ds] eqn:Edirs.
  - cbn [length Nat.ltb Nat.leb]. unfold bind at 1. unfold existsSync, ask.
    destruct (isFile w _ || isDirectory w _) eqn:Eex; cbn [negb].
    + unfold bind at 1.
      destruct (isDirectoryEmpty_run (join PROJECT_ROOT "master-index") w)
        as (w1 & -> & F1 & S1).
      destruct (emptyDir w _).
      * unfold logger. destruct (logLevel cfg); reflexivity.
      * unfold try_catch, bind at 1.
        destruct (getStagedFiles_run w1) as (w2 & ->).
        rewrite (stagedIn_framed w w1 F1 S1).
        unfold scopeOf, logger.
        destruct (stagedIn w) as [|f fs]; [destruct (logLevel cfg); reflexivity|].
        cbn [length Nat.eqb].
        destruct (List.filter keepPath (targetPathsOf (f :: fs)));
          destruct (logLevel cfg); reflexivity.
    + unfold logger. destruct (logLevel cfg); reflexivity.
  - unfold logger. destruct (logLevel cfg); reflexivity.
Qed.

(** C6: [determineTargetDirectories] never throws; it returns the
    configured directories verbatim when there are any; otherwise, when the
    query for the staged files fails, or when no parent directory is left
    after the filter, it returns the whole-tree scope [["."]]. *)
Theorem resolver_falls_back (w : World) :
  (exists dirs, fst (determineTargetDirectories cfg w) = Ok dirs)
  /\ (targetDirectories cfg <> [] ->
      fst (determineTargetDirectories cfg w) = Ok (targetDirectories cfg))
  /\ (targetDirectories cfg = [] ->
      (exists code message,
          oracle w (spawned w) stagedCommand = ExecFail code message) ->
      fst (determineTargetDirectories cfg w) = Ok ["."])
  /\ (targetDirectories cfg = [] ->
      List.filter keepPath (targetPathsOf (stagedIn w)) = [] ->
      fst (determineTargetDirectories cfg w) = Ok ["."]).
Proof.
  rewrite determine_result. unfold resolved. repeat split.
  - eauto.
  - intros Hne. now destruct (targetDirectories cfg).
  - intros -> (code & message & Efail).
    destruct (indexMissingOrEmpty w); [reflexivity|].
    unfold stagedIn. now rewrite Efail.
  - intros -> Hnone.
    destruct (indexMissingOrEmpty w); [reflexivity|].
    unfold scopeOf. rewrite Hnone. now destruct (stagedIn w).
Qed.

End Resolver.

End ResolverFacts.

Module ResolverExamples.
Import Sys Handoff JsonText PreCommit ResolverSpec ResolverFacts Worlds.
Local Open Scope string_scope.

Lemma resolver_falls_back_witness :
  fst (determineTargetDirectories config (indexed broken)) = Ok ["."].
Proof.
  apply (proj1 (proj2 (proj2 (resolver_falls_back config (indexed broken))))).
  - reflexivity.
  - exists "ETIMEDOUT", "spawnSync ETIMEDOUT". reflexivity.
Defined.

(** Staged files below [src] with a master index in place. *)
Example resolver_staged :
  fst (determineTargetDirectories config
         (indexed (printing ("src/foo.ts" ++ String newline "src/bar/baz.ts"))))
  = Ok ["src"; "src/bar"].
Proof. vm_compute. reflexivity. Qed.

(** Without a master index the whole tree is scanned. *)
Example resolver_first_run :
  fst (determineTargetDirectories config (printing "src/foo.ts")) = Ok ["."].
Proof. vm_compute. reflexivity. Qed.

End ResolverExamples.

(** ** Directory listings *)

Module TreeFacts.
Import Sys.

Section Induction.
Variable P : Dirent -> Prop.
Hypothesis Hfile : forall name, P (DFile name).
Hypothesis Hdir :
  forall name children, List.Forall P children -> P (DDir name children).
Hypothesis Hother : forall name, P (DOther name).

Fixpoint Dirent_nested_ind (e : Dirent) : P e :=
  match e with
  | DFile name => Hfile name
  | DDir name children =>
      Hdir name children
        ((fix all (l : list Dirent) : List.Forall P l :=
            match l with
            | [] => @List.Forall_nil _ P
            | x :: r => @List.Forall_cons _ P x r (Dirent_nested_ind x) (all r)
            end) children)
  | DOther name => Hother name
  end.

End Induction.

End TreeFacts.

(** ** Phase B *)

Module PhaseBFacts.
Import Sys Str StrOps Node Handoff PostCommit PhaseBSpec.
Local Open Scope string_scope.

#[local] Arguments trim : simpl never.
#[local] Arguments nonEmpty : simpl never.
#[local] Arguments segments : simpl never.
#[local] Arguments lookupDir : simpl never.
#[local] Arguments isDirectory : simpl never.
#[local] Arguments isFile : simpl never.
#[local] Arguments isIndexFile : simpl never.
#[local] Arguments showNat : simpl never.
#[local] Arguments String.append : simpl never.
#[local] Arguments join : simpl never.
#[local] Arguments printed : simpl never.

Lemma advance_advance (w : World) (n m : nat) (a b : list Event) :
  advance (advance w n a) m b = advance w (m + n) (a ++ b).
Proof.
  unfold advance. cbn. f_equal; [lia | now rewrite app_assoc].
Qed.

Lemma advance_nothing (w : World) : advance w 0 [] = w.
Proof. destruct w. unfold advance. cbn. now rewrite app_nil_r. Qed.

Lemma commandsOf_app (a b : list Event) :
  commandsOf (a ++ b) = (commandsOf a ++ commandsOf b)%list.
Proof.
  induction a as [|e a IH]; [reflexivity|].
  destruct e; cbn; now rewrite IH.
Qed.

Lemma commandsOf_printed (lvl : LogLevel) (l : Level) :
  commandsOf (printed lvl l) = [].
Proof. now destruct lvl, l. Qed.

(** [error] and [warn] print at every level. *)
Lemma printed_error (lvl : LogLevel) : printed lvl Error = [EvLog Error].
Proof. now destruct lvl. Qed.

Lemma printed_warn (lvl : LogLevel) : printed lvl Warn = [EvLog Warn].
Proof. now destruct lvl. Qed.

Section Script.
Context `{Json}.
Variable cfg : ScriptConfig.

#[local] Abbreviation gate := (PhaseBSpec.gate cfg).
#[local] Abbreviation commandsIn := (PhaseBSpec.commandsIn cfg).
#[local] Abbreviation commitFails := (PhaseBSpec.commitFails cfg).
#[local] Abbreviation mainAround := (PhaseBSpec.mainAround cfg).

(** The walk over the master index changes nothing, and its result
    depends on the refused calls only. *)
Lemma visitEntry_pure (e : Dirent) :
  forall dir rf,
    exists r,
      (forall w, refuses w = rf -> visitEntry dir e w = (r, w))
      /\ forall n, r <> Exit n.
Proof.
  induction e as [name|name children IH|name] using TreeFacts.Dirent_nested_ind;
    intros dir rf.
  - exists (if isIndexFile name then Ok [join dir name] else Ok []).
    split; [intros w _; cbn; now destruct (isIndexFile name)|].
    destruct (isIndexFile name); discriminate.
  - cbn. unfold bind, refused, ask.
    set (d := join dir name). clearbody d.
    destruct (rf (CReaddir d)) eqn:Erf.
    { exists (Throw "EACCES"). split; [|discriminate].
      intros w <-. now rewrite Erf. }
    enough (exists r,
               (forall w, refuses w = rf ->
                  (fix visitAll (entries : list Dirent) : M (list string) :=
                     match entries with
                     | [] => ret []
                     | e :: rest =>
                         fun w =>
                           let (r0, w') := visitEntry d e w in
                           match r0 with
                           | Ok a =>
                               let (r1, w'0) := visitAll rest w' in
                               match r1 with
                               | Ok a0 => ret (a ++ a0)%list w'0
                               | Throw e0 => (Throw e0, w'0)
                               | Exit n => (Exit n, w'0)
                               end
                           | Throw e0 => (Throw e0, w')
                           | Exit n => (Exit n, w')
                           end
                     end) children w = (r, w))
               /\ forall n, r <> Exit n) as (r & Hr & Hn).
    { exists r. split; [|assumption]. intros w <-. rewrite Erf. now apply Hr. }
    induction IH as [|x rest Hx _ IHrest].
    + exists (Ok []). split; [reflexivity | discriminate].
    + destruct (Hx d rf) as (r1 & E1 & Hr1).
      destruct IHrest as (r2 & E2 & Hr2).
      destruct r1 as [found|msg|n]; [| |now destruct (Hr1 n)].
      * destruct r2 as [more|msg|n]; [| |now destruct (Hr2 n)].
        -- exists (Ok (found ++ more)%list). split; [|discriminate].
           intros w Hw. now rewrite (E1 w Hw), (E2 w Hw).
        -- exists (Throw msg). split; [|discriminate].
           intros w Hw. now rewrite (E1 w Hw), (E2 w Hw).
      * exists (Throw msg). split; [|discriminate].
        intros w Hw. now rewrite (E1 w Hw).
  - exists (Ok []). split; [reflexivity | discriminate].
Qed.

Lemma visitAll_pure (entries : list Dirent) :
  forall dir rf,
    exists r,
      (forall w, refuses w = rf -> visitAll dir entries w = (r, w))
      /\ forall n, r <> Exit n.
Proof.
  induction entries as [|e rest IH]; intros dir rf.
  - exists (Ok []). split; [reflexivity | discriminate].
  - destruct (visitEntry_pure e dir rf) as (r1 & E1 & Hr1).
    destruct (IH dir rf) as (r2 & E2 & Hr2).
    destruct r1 as [found|msg|n]; [| |now destruct (Hr1 n)].
    + destruct r2 as [more|msg|n]; [| |now destruct (Hr2 n)].
      * exists (Ok (found ++ more)%list). split; [|discriminate].
        intros w Hw. cbn. unfold bind. now rewrite (E1 w Hw), (E2 w Hw).
      * exists (Throw msg). split; [|discriminate].
        intros w Hw. cbn. unfold bind. now rewrite (E1 w Hw), (E2 w Hw).
    + exists (Throw msg). split; [|discriminate].
      intros w Hw. cbn. unfold bind. now rewrite (E1 w Hw).
Qed.


Lemma sameDisk_advance (w : World) (n : nat) (tr : list Event) :
  sameDisk w (advance w n tr).
Proof. now repeat split. Qed.

Lemma findIndexFiles_pure (dir : string) (w : World) :
  exists r,
    (forall w', sameDisk w w' -> findIndexFiles dir w' = (r, w'))
    /\ forall n, r <> Exit n.
Proof.
  unfold findIndexFiles, readdirSync, refused, ask, bind.
  destruct (refuses w (CReaddir dir)) eqn:Erf.
  { exists (Throw "EACCES"). split; [|discriminate].
    intros w' (_ & _ & Hr). now rewrite Hr, Erf. }
  destruct (lookupDir (segments dir) (tree w)) as [entries|] eqn:Edir.
  - destruct (visitAll_pure entries dir (refuses w)) as (r & E & Hr).
    exists r. split; [|assumption].
    intros w' (_ & Ht & Hrf). rewrite Hrf, Erf, Ht, Edir. cbn.
    now apply E.
  - exists (Throw "ENOENT"). split; [|discriminate].
    intros w' (_ & Ht & Hrf). now rewrite Hrf, Erf, Ht, Edir.
Qed.



Ltac settle :=
  unfold advance; cbn; rewrite <- ?app_assoc; reflexivity.

Ltac silent :=
  rewrite ?commandsOf_app, ?commandsOf_printed; reflexivity.

Lemma logs_run {A} (l : Level) (items : list A) (w : World) :
  exists tr,
    logEach (logLevel cfg) l items w = (Ok tt, advance w 0 tr)
    /\ commandsOf tr = [].
Proof.
  revert w. induction items as [|x items IH]; intros w.
  - exists []. now rewrite advance_nothing.
  - cbn [logEach]. unfold bind, log.
    destruct (IH (advance w 0 (printed (logLevel cfg) l))) as (tr & -> & Htr).
    eexists. split; [now rewrite advance_advance|].
    now rewrite commandsOf_app, commandsOf_printed, Htr.
Qed.

Lemma exists_sameDisk (w w' : World) (p : string) :
  sameDisk w w' ->
  isFile w' p || isDirectory w' p = isFile w p || isDirectory w p.
Proof. intros (Hf & Ht & _). unfold isFile, isDirectory. now rewrite Hf, Ht. Qed.

Lemma hasLlmReadmeFiles_run (w : World) :
  exists b,
    forall w', sameDisk w w' ->
      exists tr,
        hasLlmReadmeFiles cfg w' = (Ok b, advance w' 0 tr)
        /\ commandsOf tr = [].
Proof.
  pose proof (exists_sameDisk w) as Hex.
  unfold hasLlmReadmeFiles, try_catch, existsSync, readdirSync, refused,
    ask, logger, log, bind, ret, throw. cbn beta iota.
  destruct (isFile w masterIndexPath || isDirectory w masterIndexPath) eqn:Eex.
  2: { exists false. intros w' Hs. rewrite (Hex w' _ Hs), Eex. cbn [negb].
       eexists; split; [settle | silent]. }
  destruct (refuses w (CReaddir masterIndexPath)) eqn:Erf.
  { exists false. intros w' Hs. rewrite (Hex w' _ Hs), Eex. cbn [negb].
    destruct Hs as (_ & _ & Hr). rewrite Hr, Erf.
    eexists; split; [settle | silent]. }
  destruct (lookupDir (segments masterIndexPath) (tree w)) as [entries|] eqn:Edir.
  2: { exists false. intros w' Hs. rewrite (Hex w' _ Hs), Eex. cbn [negb].
       destruct Hs as (_ & Ht & Hr). rewrite Hr, Erf, Ht, Edir.
       eexists; split; [settle | silent]. }
  destruct (length entries =? 0)%nat eqn:Elen.
  { exists false. intros w' Hs. rewrite (Hex w' _ Hs), Eex.
    cbn [negb]. destruct Hs as (_ & Ht & Hr). rewrite Hr, Erf, Ht, Edir.
    cbn beta iota. rewrite Elen. eexists; split; [settle | silent]. }
  destruct (findIndexFiles_pure masterIndexPath w) as (r & Er & Hr).
  assert (Hwalk : forall w', sameDisk w w' ->
            refuses w' (CReaddir masterIndexPath) = false
            /\ lookupDir (segments masterIndexPath) (tree w') = Some entries
            /\ findIndexFiles masterIndexPath w' = (r, w')).
  { intros w' Hs. split; [|split]; [| |now apply Er];
      destruct Hs as (_ & Ht & Hrf); now rewrite ?Hrf, ?Ht. }
  destruct r as [result|msg|n]; [| |now destruct (Hr n)].
  2: { exists false. intros w' Hs. rewrite (Hex w' _ Hs), Eex. cbn [negb].
       destruct (Hwalk w' Hs) as (-> & -> & Ew).
       cbn beta iota. rewrite Elen, Ew. eexists; split; [settle | silent]. }
  destruct (length result =? 0)%nat eqn:Eres.
  { exists false. intros w' Hs. rewrite (Hex w' _ Hs), Eex. cbn [negb].
    destruct (Hwalk w' Hs) as (-> & -> & Ew).
    cbn beta iota. rewrite Elen, Ew. cbn beta iota. rewrite Eres.
    eexists; split; [settle | silent]. }
  exists true. intros w' Hs. rewrite (Hex w' _ Hs), Eex. cbn [negb].
  destruct (Hwalk w' Hs) as (-> & -> & Ew).
  cbn beta iota. rewrite Elen, Ew. cbn beta iota. rewrite Eres.
  match goal with
  | |- context [logEach _ _ result ?v] =>
      destruct (logs_run Info result v) as (tr & -> & Htr)
  end.
  eexists. split; [rewrite !advance_advance; reflexivity|].
  rewrite !commandsOf_app, !commandsOf_printed, Htr. reflexivity.
Qed.

Lemma sameDisk_refl (w : World) : sameDisk w w.
Proof. now repeat split. Qed.

Lemma gate_sameDisk (w w' : World) : sameDisk w w' -> gate w' = gate w.
Proof.
  intros Hs. destruct (hasLlmReadmeFiles_run w) as (b & Hb).
  destruct (Hb w' Hs) as (tr' & E' & _).
  destruct (Hb w (sameDisk_refl w)) as (tr & E & _).
  unfold PhaseBSpec.gate. now rewrite E, E'.
Qed.

Lemma gate_run (w : World) :
  exists tr,
    hasLlmReadmeFiles cfg w = (Ok (gate w), advance w 0 tr)
    /\ commandsOf tr = [].
Proof.
  destruct (hasLlmReadmeFiles_run w) as (b & Hb).
  destruct (Hb w (sameDisk_refl w)) as (tr & E & Htr).
  exists tr. unfold PhaseBSpec.gate. now rewrite E.
Qed.


Lemma executeCommand_once (command : string) (t : option N) (w : World) :
  exists tr,
    executeCommand cfg command t (Some 1) w
    = (once (oracle w (spawned w) command), advance w 1 tr)
    /\ commandsOf tr = [command].
Proof.
  unfold executeCommand, CommandRunner.executeCommand, once.
  cbn [default CommandRunner.attemptsFrom Nat.eqb].
  unfold bind, log, execSync. cbn.
  destruct (oracle w (spawned w) command); cbn;
    (eexists; split; [settle|]);
    rewrite !commandsOf_app, !commandsOf_printed; reflexivity.
Qed.

Ltac exec_step :=
  match goal with
  | |- context [executeCommand cfg ?c ?t (Some 1) ?W] =>
      let tr := fresh "tr" in
      let Htr := fresh "Htr" in
      destruct (executeCommand_once c t W) as (tr & -> & Htr);
      cbn [advance oracle spawned Nat.add]
  end.

Ltac close_run :=
  eexists; split; [rewrite ?advance_advance; reflexivity|];
  repeat split;
  rewrite ?commandsOf_app, ?commandsOf_printed;
  repeat match goal with H : commandsOf _ = _ |- _ => rewrite H end;
  try reflexivity;
  try solve [intros; rewrite ?printed_error, ?printed_warn, !in_app_iff;
             cbn; tauto];
  try solve [intros; discriminate].

Lemma commit_run (metadata : CommitMetadata) (w : World) :
  let todo := plan w (commitMessage metadata) in
  exists tr,
    commitLlmReadmeFiles cfg metadata w
    = (Ok (if gate w then snd todo else true),
       advance w (if gate w then length (fst todo) else 0) tr)
    /\ commandsOf tr = (if gate w then fst todo else [])
    /\ (gate w = true -> snd todo = false -> In (EvLog Error) tr).
Proof.
  unfold commitLlmReadmeFiles, try_catch, plan, logger, log, bind, ret, throw.
  cbn beta iota.
  destruct (gate_run w) as (tr0 & -> & H0).
  destruct (gate w); cbn [negb]; cbn beta iota; [|close_run].
  exec_step.
  destruct (oracle w (spawned w) gitAddCommand) as [out1|code1 msg1];
    cbn [once]; cbn beta iota; [|close_run].
  exec_step.
  destruct (oracle w (S (spawned w)) stagedCheck) as [staged|code2 msg2];
    cbn [once]; cbn beta iota; [|close_run].
  destruct (negb (nonEmpty staged) || negb (nonEmpty (trim staged)));
    cbn beta iota; [close_run|].
  exec_step.
  destruct (oracle w (S (S (spawned w))) _) as [out3|code3 msg3];
    cbn [once]; cbn beta iota; close_run.
Qed.

Lemma load_run (w : World) :
  exists tr,
    loadCommitMetadata cfg w = (Ok (HandoffSpec.pending w), advance w 0 tr)
    /\ commandsOf tr = [].
Proof.
  unfold loadCommitMetadata, HandoffSpec.pending, try_catch, existsSync,
    readFileSync, refused, ask, logger, log, bind, ret, throw. cbn beta iota.
  destruct (isFile w _ || isDirectory w _); cbn [negb]; cbn beta iota;
    [|eexists; split; [settle | silent]].
  destruct (refuses w _); cbn beta iota; [eexists; split; [settle | silent]|].
  destruct (files w !! METADATA_PATH) as [content|]; cbn beta iota;
    [|eexists; split; [settle | silent]].
  destruct (JSON_parse content) as [metadata|]; cbn beta iota;
    eexists; split; try settle; silent.
Qed.


Ltac project :=
  cbn [oracle refuses now spawned files tree trace Nat.add fst snd].

Lemma cleanup_run (w : World) :
  exists tr,
    cleanupMetadata cfg w = (Ok tt, swept w tr)
    /\ commandsOf tr = []
    /\ (isFile w METADATA_PATH || isDirectory w METADATA_PATH = true ->
        In (EvFs (CUnlink METADATA_PATH)) tr).
Proof.
  unfold cleanupMetadata, swept, try_catch, existsSync, unlinkSync, refused,
    ask, emit, setFiles, logger, log, advance, bind, ret, throw.
  project.
  destruct (isFile w _ || isDirectory w _) eqn:Eex; project.
  - destruct (refuses w _); project.
    + eexists. split; [rewrite <- ?app_assoc; reflexivity|].
      split; [silent | cbn; tauto].
    + destruct (files w !! METADATA_PATH) eqn:Efile; project.
      * eexists. split; [rewrite <- ?app_assoc; reflexivity|].
        split; [silent | cbn; tauto].
      * rewrite (delete_id _ _ Efile).
        eexists. split; [rewrite <- ?app_assoc; reflexivity|].
        split; [silent | cbn; tauto].
  - assert (Efile : files w !! METADATA_PATH = None).
    { apply orb_false_iff in Eex as [Eex _]. unfold isFile in Eex.
      apply bool_decide_eq_false in Eex.
      destruct (files w !! METADATA_PATH); [exfalso; eauto | reflexivity]. }
    rewrite (delete_id _ _ Efile).
    exists []. rewrite app_nil_r.
    destruct (refuses w _), w; cbn; repeat split; reflexivity || discriminate.
Qed.



Lemma plan_advance (w : World) (tr : list Event) (message : string) :
  plan (advance w 0 tr) message = plan w message.
Proof. reflexivity. Qed.

Lemma pending_advance (w : World) (n : nat) (tr : list Event) :
  HandoffSpec.pending (advance w n tr) = HandoffSpec.pending w.
Proof.
  unfold HandoffSpec.pending, isFile, isDirectory, advance.
  cbn [files tree refuses]. reflexivity.
Qed.


Lemma swept_advance (w : World) (n : nat) (a b : list Event) :
  swept (advance w n a) b = finished w n (a ++ b).
Proof.
  unfold swept, finished, advance. project. now rewrite app_assoc.
Qed.

Lemma exists_advance (w : World) (n : nat) (tr : list Event) (p : string) :
  isFile (advance w n tr) p || isDirectory (advance w n tr) p
  = isFile w p || isDirectory w p.
Proof.
  unfold isFile, isDirectory, advance. cbn [files tree]. reflexivity.
Qed.

Ltac finish_main :=
  match goal with
  | |- context [cleanupMetadata cfg ?W] =>
      let tr := fresh "tr" in
      let Htr := fresh "Htr" in
      let Hun := fresh "Hun" in
      destruct (cleanup_run W) as (tr & -> & Htr & Hun);
      rewrite ?advance_advance, ?swept_advance, ?exists_advance in *;
      do 2 eexists; split; [reflexivity|];
      repeat split;
      rewrite ?commandsOf_app, ?commandsOf_printed;
      repeat match goal with H : commandsOf _ = _ |- _ => rewrite H end;
      rewrite ?app_nil_r;
      try reflexivity;
      try solve [intros; rewrite ?printed_error, ?printed_warn, !in_app_iff;
                 cbn; tauto];
      try solve [match goal with
                 | H0 : exists _, _ |- _ =>
                     destruct H0 as (m' & E0 & F0 & G0 & P0);
                     try discriminate; try (injection E0 as <-); congruence
                 end];
      try solve [match goal with
                 | Herr : _ -> _ -> In _ _ |- _ =>
                     pose proof (Herr eq_refl eq_refl);
                     rewrite ?printed_error, ?printed_warn, !in_app_iff;
                     cbn; tauto
                 end]
  end.

Lemma main_run (w : World) :
  exists n tr,
    main cfg w = (Ok tt, finished w n tr)
    /\ commandsOf tr = commandsIn w
    /\ (isFile w METADATA_PATH || isDirectory w METADATA_PATH = true ->
        In (EvFs (CUnlink METADATA_PATH)) tr)
    /\ (commitFails w -> In (EvLog Error) tr /\ In (EvLog Warn) tr).
Proof.
  unfold main, try_finally, try_catch, mainBody, PhaseBSpec.commandsIn,
    PhaseBSpec.commitFails,
    logger, log, bind, ret. cbn beta iota.
  match goal with
  | |- context [loadCommitMetadata cfg ?W] =>
      destruct (load_run W) as (tr1 & -> & Htr1)
  end.
  rewrite pending_advance.
  destruct (HandoffSpec.pending w) as [metadata|]; cbn beta iota;
    [|finish_main].
  destruct (Handoff.hasLlmReadmeFiles metadata) eqn:Eflag; cbn [negb andb];
    cbn beta iota; [|finish_main].
  match goal with
  | |- context [commitLlmReadmeFiles cfg metadata ?W] =>
      destruct (commit_run metadata W) as (tr2 & -> & Htr2 & Herr)
  end.
  rewrite !advance_advance in *. rewrite plan_advance in *.
  rewrite (gate_sameDisk w _ (sameDisk_advance w _ _)) in *.
  destruct (gate w) eqn:Egate; cbn beta iota; [|finish_main].
  destruct (snd (plan w (commitMessage metadata))) eqn:Eok; cbn beta iota;
    finish_main.
Qed.


(** C7, amended: [main] of the post-commit script never throws.  When the
    metadata is absent or not flagged, and also when it is flagged but
    [hasLlmReadmeFiles] finds no artifact in the master index, it runs no
    git command.  Otherwise it runs [git add master-index/], then the staged
    diff restricted to [master-index/], and then, unless one of the two
    failed or the diff is empty, [git commit -m "<message>" --no-verify]
    with the message of the metadata, and nothing else; when one of the
    three fails or the diff is empty it logs an error and a warning. *)
Theorem phase_b_protocol (w : World) :
  exists tr,
    fst (main cfg w) = Ok tt
    /\ trace (snd (main cfg w)) = (trace w ++ tr)%list
    /\ ((HandoffSpec.pending w = None
         \/ exists metadata,
             HandoffSpec.pending w = Some metadata
             /\ (Handoff.hasLlmReadmeFiles metadata = false \/ gate w = false)) ->
        commandsOf tr = [])
    /\ (forall metadata,
          HandoffSpec.pending w = Some metadata ->
          Handoff.hasLlmReadmeFiles metadata = true ->
          gate w = true ->
          let commit := commitCommand (commitMessage metadata) in
          let added := oracle w (spawned w) gitAddCommand in
          let checked := oracle w (S (spawned w)) stagedCheck in
          let committed := oracle w (S (S (spawned w))) commit in
          commandsOf tr = fst (plan w (commitMessage metadata))
          /\ (snd (plan w (commitMessage metadata)) = false ->
              In (EvLog Error) tr /\ In (EvLog Warn) tr)
          /\ (forall code message, added = ExecFail code message ->
              plan w (commitMessage metadata) = ([gitAddCommand], false))
          /\ (forall out code message,
                added = ExecOk out -> checked = ExecFail code message ->
                plan w (commitMessage metadata)
                = ([gitAddCommand; stagedCheck], false))
          /\ (forall out staged,
                added = ExecOk out -> checked = ExecOk staged ->
                emptyDiff staged = true ->
                plan w (commitMessage metadata)
                = ([gitAddCommand; stagedCheck], false))
          /\ (forall out staged,
                added = ExecOk out -> checked = ExecOk staged ->
                emptyDiff staged = false ->
                plan w (commitMessage metadata)
                = ([gitAddCommand; stagedCheck; commit],
                   match committed with
                   | ExecOk _ => true
                   | ExecFail _ _ => false
                   end))).
Proof.
  destruct (main_run w) as (n & tr & E & Hcmds & _ & Hfail).
  exists tr. rewrite E. cbn [fst snd finished trace].
  split; [reflexivity|]. split; [reflexivity|]. split.
  - intros [Hnone | (metadata & Hsome & [Hflag | Hgate])];
      rewrite Hcmds; unfold PhaseBSpec.commandsIn.
    + now rewrite Hnone.
    + now rewrite Hsome, Hflag.
    + rewrite Hsome, Hgate. now rewrite andb_false_r.
  - intros metadata Hsome Hflag Hgate. cbv zeta. split; [|split].
    + rewrite Hcmds. unfold PhaseBSpec.commandsIn. now rewrite Hsome, Hflag, Hgate.
    + intros Hno. apply Hfail. exists metadata. auto.
    + unfold plan, emptyDiff. repeat split.
      * intros code message ->. reflexivity.
      * intros out code message -> ->. reflexivity.
      * intros out staged -> -> ->. reflexivity.
      * intros out staged -> -> ->. now destruct (oracle w _ _).
Qed.


Lemma finished_cleaned (w : World) (n : nat) (tr : list Event) :
  cleaned w (finished w n tr).
Proof.
  unfold cleaned, finished. intros Hok. cbn [files]. rewrite Hok.
  apply lookup_delete_eq.
Qed.

Lemma swept_cleaned (w : World) (tr : list Event) : cleaned w (swept w tr).
Proof.
  unfold cleaned, swept. intros Hok. cbn [files]. rewrite Hok.
  apply lookup_delete_eq.
Qed.

(** The handlers: a log line, the cleanup, then [process.exit(0)]. *)
Lemma handler_run (l : Level) (w : World) :
  exists tr,
    (log (logLevel cfg) l >> cleanupMetadata cfg >> process_exit 0)%sys w
    = (@Exit unit 0, swept w (tr ++ [EvExit 0]))
    /\ (isFile w METADATA_PATH || isDirectory w METADATA_PATH = true ->
        In (EvFs (CUnlink METADATA_PATH)) tr).
Proof.
  unfold bind at 1. unfold log at 1. unfold bind at 1.
  destruct (cleanup_run (advance w 0 (printed (logLevel cfg) l)))
    as (tr & E & Hcmd & Hun).
  rewrite E. unfold process_exit.
  exists (printed (logLevel cfg) l ++ tr)%list. split.
  - unfold swept, advance. project. now rewrite <- !app_assoc.
  - intros Hex. apply in_or_app. right. apply Hun.
    now rewrite exists_advance.
Qed.


Lemma main_mainAround : main cfg = mainAround (mainBody cfg).
Proof. reflexivity. Qed.

(** C8: the deletion of the metadata file runs on every terminal path of
    phase B.  [main] returns after [cleanupMetadata], whatever its body
    did: the early returns, a commit, a failure, and also an error thrown
    by the body.  The handlers of SIGINT and SIGTERM, which may run in any
    world, and the handler of an unhandled rejection call
    [cleanupMetadata] and then [process.exit].  In each case the unlink of
    the file is in the trace when the file existed, before the exit event
    when there is one, and the file is gone afterwards unless the platform
    refuses the unlink. *)
Theorem metadata_always_deleted (w : World) :
  (exists n tr,
      main cfg w = (Ok tt, finished w n tr)
      /\ cleaned w (finished w n tr)
      /\ (isFile w METADATA_PATH || isDirectory w METADATA_PATH = true ->
          In (EvFs (CUnlink METADATA_PATH)) tr))
  /\ script cfg w = main cfg w
  /\ (forall body error wb,
        body w = (Throw error, wb) ->
        exists tr,
          mainAround body w = (Ok tt, swept wb tr)
          /\ cleaned wb (swept wb tr)
          /\ (isFile wb METADATA_PATH || isDirectory wb METADATA_PATH = true ->
              In (EvFs (CUnlink METADATA_PATH)) tr))
  /\ (forall s,
        exists tr,
          onSignal cfg s w = (Exit 0, swept w (tr ++ [EvExit 0]))
          /\ cleaned w (swept w (tr ++ [EvExit 0]))
          /\ (isFile w METADATA_PATH || isDirectory w METADATA_PATH = true ->
              In (EvFs (CUnlink METADATA_PATH)) tr))
  /\ (forall error,
        exists tr,
          onRejection cfg error w = (Exit 0, swept w (tr ++ [EvExit 0]))
          /\ cleaned w (swept w (tr ++ [EvExit 0]))
          /\ (isFile w METADATA_PATH || isDirectory w METADATA_PATH = true ->
              In (EvFs (CUnlink METADATA_PATH)) tr)).
Proof.
  destruct (main_run w) as (n & tr & E & _ & Hun & _).
  split; [|split; [|split; [|split]]].
  - exists n, tr. auto using finished_cleaned.
  - unfold script, try_catch. now rewrite E.
  - intros body error wb Hbody.
    unfold PhaseBSpec.mainAround, try_finally, try_catch. rewrite Hbody.
    unfold bind, logger, log.
    match goal with
    | |- context [cleanupMetadata cfg ?W] =>
        destruct (cleanup_run W) as (tr' & -> & _ & Hun')
    end.
    rewrite advance_advance, swept_advance, exists_advance in *.
    eexists. split; [|split].
    + unfold swept, finished. project. reflexivity.
    + apply swept_cleaned.
    + intros Hex. apply in_or_app. right. now apply Hun'.
  - intros s. destruct (handler_run Info w) as (tr' & E' & Hun').
    exists tr'. auto using swept_cleaned.
  - intros error. destruct (handler_run Error w) as (tr' & E' & Hun').
    exists tr'. auto using swept_cleaned.
Qed.

(** The post-commit script reports success on each of its paths. *)
Lemma post_commit_exit_status (w : World) :
  exitStatus (fst (script cfg w)) = 0
  /\ (forall s, exitStatus (fst (onSignal cfg s w)) = 0)
  /\ (forall error, exitStatus (fst (onRejection cfg error w)) = 0).
Proof.
  destruct (main_run w) as (n & tr & E & _).
  unfold script, try_catch. rewrite E. split; [reflexivity|]. split.
  - intros s. destruct (handler_run Info w) as (tr' & E' & _).
    unfold onSignal, logger. now rewrite E'.
  - intros error. destruct (handler_run Error w) as (tr' & E' & _).
    unfold onRejection, logger. now rewrite E'.
Qed.

End Script.

End PhaseBFacts.

Module PhaseBExamples.
Import Sys Handoff JsonText PostCommit PhaseBSpec PhaseBFacts Worlds.
Local Open Scope string_scope.

(** C7, as stated, fails: with flagged metadata on disk and no master
    index, [main] stages nothing and commits nothing. *)
Lemma flagged_metadata_without_index :
  HandoffSpec.pending (handed idle) = Some flagged
  /\ Handoff.hasLlmReadmeFiles flagged = true
  /\ fst (main config (handed idle)) = Ok tt
  /\ commandsOf (trace (snd (main config (handed idle)))) = [].
Proof. vm_compute. repeat split; reflexivity. Qed.


Lemma phase_b_protocol_witness :
  exists tr,
    fst (main config ready) = Ok tt
    /\ trace (snd (main config ready)) = tr
    /\ commandsOf tr
       = ["git add master-index/";
          "git diff --name-only --cached master-index/";
          commitCommand "docs: refresh the index"].
Proof.
  destruct (phase_b_protocol config ready) as (tr & Hok & Htrace & _ & Hrun).
  exists tr. split; [exact Hok|]. split; [exact Htrace|].
  destruct (Hrun flagged) as (Hcmds & _).
  - vm_compute. reflexivity.
  - reflexivity.
  - vm_compute. reflexivity.
  - rewrite Hcmds. vm_compute. reflexivity.
Defined.

Lemma metadata_always_deleted_witness :
  files (snd (main config ready)) !! METADATA_PATH = None
  /\ In (EvFs (CUnlink METADATA_PATH)) (trace (snd (main config ready))).
Proof.
  destruct (metadata_always_deleted config ready)
    as ((n & tr & E & Hclean & Hun) & _).
  rewrite E. cbn [snd]. split.
  - apply Hclean. reflexivity.
  - unfold finished. cbn [trace]. apply in_or_app. right. apply Hun.
    vm_compute. reflexivity.
Defined.

End PhaseBExamples.

(** ** Exit status of the pre-commit script *)

Module PhaseAFacts.
Import Sys Node Handoff PreCommit.
Local Open Scope string_scope.

(** C2 fails on the pre-commit script: its signal handlers and the handler
    of an unhandled rejection call [process.exit(1)], in every world and
    whatever the configuration. *)
Theorem pre_commit_handlers_exit_1 (cfg : ScriptConfig) (w : World) :
  (forall s, exitStatus (fst (onSignal cfg s w)) = 1)
  /\ (forall error, exitStatus (fst (onRejection cfg error w)) = 1).
Proof. split; reflexivity. Qed.

(** An error that escapes [main] ends the pre-commit script with status 1. *)
Lemma pre_commit_rejection (cfg : ScriptConfig) (main : M unit)
  (w w' : World) (error : string) :
  main w = (Throw error, w') ->
  exitStatus (fst (script cfg main w)) = 1.
Proof. intros E. unfold script, try_catch. now rewrite E. Qed.

Example pre_commit_sigterm :
  fst (onSignal config SIGTERM Worlds.idle) = @Exit unit 1.
Proof. reflexivity. Qed.

End PhaseAFacts.

(** ** IndexMerger *)

Module MergerFacts.
Import Sys Str StrOps Node Handoff PreCommit MergerSpec.
Local Open Scope string_scope.



Ltac project :=
  cbn [oracle refuses now spawned files tree trace Nat.add fst snd negb].

Ltac branches :=
  repeat (project;
          match goal with
          | |- context [if ?c then _ else _] => destruct c eqn:?
          | |- context [match ?m !! ?k with _ => _ end] =>
              destruct (m !! k) eqn:?
          end).

Section Merger.
Context `{Json}.
Variable cfg : ScriptConfig.

Lemma join_root (p : string) : join PROJECT_ROOT p = p.
Proof. reflexivity. Qed.

Ltac open_turn :=
  unfold processOne, transformPathToFilename;
  rewrite ?join_root;
  unfold try_catch, existsSync, mkdirSync, renameSync, copyFileSync,
    unlinkSync, refused, ask, emit, setFiles, setTree, logger, log, advance,
    bind, ret, throw.

(** One turn of the loop returns, and touches no file but its source and
    its destination. *)
Lemma processOne_frame (p : string) (c : Counters) (w : World) :
  exists c' w',
    processOne cfg p c w = (Ok c', w')
    /\ refuses w' = refuses w
    /\ (forall x, x <> p -> is_Some (files w !! x) -> is_Some (files w' !! x))
    /\ (forall x, x <> p -> x <> destOf p -> files w' !! x = files w !! x).
Proof.
  unfold destOf. open_turn. fold (excluded p).
  set (dest := join MASTER_INDEX_DIR (Transform.transformPathToFilename p)).
  destruct (excluded p); branches;
    (do 2 eexists; split; [reflexivity|]); project;
    (split; [reflexivity|]);
    (split; [intros x Hp Hx; destruct (decide (x = dest)) as [->|Hd]
            |intros x Hp Hd]);
    repeat first [rewrite lookup_insert_eq
                 |rewrite lookup_delete_ne by congruence
                 |rewrite lookup_insert_ne by congruence];
    eauto.
Qed.

(** No failure aborts the batch: the loop runs to its end. *)
Lemma processAll_frame (l : list string) :
  forall (c : Counters) (w : World),
  exists c' w',
    processAll cfg l c w = (Ok c', w')
    /\ refuses w' = refuses w
    /\ (forall x, ~ In x l -> is_Some (files w !! x) -> is_Some (files w' !! x))
    /\ (forall x, ~ In x l -> ~ In x (map destOf l) ->
                  files w' !! x = files w !! x).
Proof.
  induction l as [|p l IH]; intros c w.
  - exists c, w. cbn. auto.
  - destruct (processOne_frame p c w) as (c1 & w1 & E1 & R1 & S1 & F1).
    destruct (IH c1 w1) as (c2 & w2 & E2 & R2 & S2 & F2).
    exists c2, w2. cbn [processAll]. unfold bind. rewrite E1, E2.
    split; [reflexivity|]. split; [congruence|]. split.
    + intros x Hx Hs. apply S2; [|apply S1]; cbn in Hx; try tauto.
      intros ->. tauto.
    + intros x Hx Hd. cbn in Hx, Hd. rewrite F2, F1; try tauto.
      * intros ->. tauto.
      * intros ->. tauto.
Qed.


Lemma isFile_lookup (w : World) (p content : string) :
  files w !! p = Some content -> isFile w p = true.
Proof. intros E. unfold isFile. rewrite E. now apply bool_decide_eq_true_2. Qed.

(** A turn in which nothing goes wrong moves the artifact. *)
Lemma processOne_moves (p : string) (c : Counters) (w : World)
  (content : string) :
  excluded p = false ->
  files w !! p = Some content ->
  (forall call, refuses w call = false) ->
  exists w',
    processOne cfg p c w = (Ok (classified w p c), w')
    /\ files w' = <[destOf p := content]> (delete p (files w))
    /\ refuses w' = refuses w.
Proof.
  intros Hex Hp Hok. pose proof (isFile_lookup w p content Hp) as Hfile.
  unfold classified, destOf. open_turn. fold (excluded p). rewrite Hex.
  unfold isFile, isDirectory in *.
  repeat (repeat progress (project; rewrite ?Hok, ?Hfile, ?Hp; cbn [orb]);
          match goal with
          | |- context [if ?b then _ else _] => destruct b eqn:?
          end);
    repeat progress (project; rewrite ?Hok, ?Hfile, ?Hp; cbn [orb]);
    eexists; (split; [reflexivity|]); project; auto.
Qed.

(** C3 fails on the counters: an artifact whose source is gone when its
    turn comes is counted as skipped and, before that, as new or updated. *)
Lemma processOne_source_gone (p : string) (c : Counters) (w : World) :
  excluded p = false ->
  isFile w p || isDirectory w p = false ->
  exists w',
    processOne cfg p c w = (Ok (skipped1 (classified w p c)), w')
    /\ files w' = files w.
Proof.
  intros Hex Hgone.
  assert (Hnone : files w !! p = None).
  { apply orb_false_iff in Hgone as [Hgone _]. unfold isFile in Hgone.
    apply bool_decide_eq_false in Hgone.
    destruct (files w !! p); [exfalso; eauto | reflexivity]. }
  unfold classified, destOf. open_turn. fold (excluded p). rewrite Hex.
  unfold isFile, isDirectory in *.
  repeat (repeat progress (project; rewrite ?Hgone, ?Hnone; cbn [orb]);
          match goal with
          | |- context [if ?b then _ else _] => destruct b eqn:?
          end);
    repeat progress (project; rewrite ?Hgone, ?Hnone; cbn [orb]);
    eexists; (split; [reflexivity|]); project; auto.
Qed.

(** The same double count when the rename and the copy are both refused. *)
Lemma processOne_relocation_refused (p : string) (c : Counters) (w : World) :
  excluded p = false ->
  refuses w (CRename p (destOf p)) = true ->
  refuses w (CCopy p (destOf p)) = true ->
  exists w',
    processOne cfg p c w = (Ok (skipped1 (classified w p c)), w')
    /\ files w' = files w.
Proof.
  intros Hex Hrename Hcopy.
  unfold classified, destOf in *. open_turn. fold (excluded p). rewrite Hex.
  unfold isFile, isDirectory in *.
  repeat (repeat progress (project; rewrite ?Hrename, ?Hcopy; cbn [orb]);
          match goal with
          | |- context [if ?b then _ else _] => destruct b eqn:?
          | |- context [match ?m !! ?k with _ => _ end] =>
              destruct (m !! k) eqn:?
          end);
    repeat progress (project; rewrite ?Hrename, ?Hcopy; cbn [orb]);
    eexists; (split; [reflexivity|]); project; auto.
Qed.

End Merger.

(** *** Two artifacts of one directory *)

Lemma chars_join (dir name : string) :
  chars (join dir name)
  = if String.eqb dir "" then chars name
    else (chars dir ++ "/"%char :: chars name)%list.
Proof.
  unfold join. destruct (String.eqb dir ""); [reflexivity|].
  now rewrite !TransformFacts.chars_append.
Qed.

(** The canonical name depends on the directory only. *)
Lemma transform_sibling (dir name name' : string) :
  Path.slashFree (chars name) -> name <> "" ->
  Path.slashFree (chars name') -> name' <> "" ->
  Transform.transformPathToFilename (join dir name)
  = Transform.transformPathToFilename (join dir name').
Proof.
  intros Hs Hn Hs' Hn'.
  assert (Hdir : Path.dirnameL (chars (join dir name))
                 = Path.dirnameL (chars (join dir name'))).
  { rewrite !chars_join. destruct (String.eqb dir "").
    - now rewrite !StrFacts.dirnameL_slashFree.
    - apply StrFacts.dirnameL_sibling; try assumption.
      + intros E. apply Hn. now rewrite <- (StrFacts.pack_chars name), E.
      + intros E. apply Hn'. now rewrite <- (StrFacts.pack_chars name'), E. }
  unfold Transform.transformPathToFilename, Transform.transformL.
  now rewrite Hdir.
Qed.

Lemma join_inj (dir name name' : string) :
  join dir name = join dir name' -> name = name'.
Proof.
  unfold join. destruct (String.eqb dir ""); [easy|].
  induction dir as [|c dir IH]; cbn; intros E.
  - now injection E.
  - injection E as E. now apply IH.
Qed.

(** Destinations lie in the master index. *)
Lemma destOf_inside (p : string) : startsWith "master-index/" (destOf p) = true.
Proof. reflexivity. Qed.

Lemma outside_not_dest (p q : string) :
  startsWith "master-index/" p = false -> p <> destOf q.
Proof. intros Hp ->. now rewrite destOf_inside in Hp. Qed.


Lemma readme_name (name : string) :
  In name readmeFileNames -> Path.slashFree (chars name) /\ name <> "".
Proof.
  intros [<- | [<- | []]]; (split; [repeat constructor | discriminate]).
Qed.

Section Siblings.
Context `{Json}.
Variable cfg : ScriptConfig.

Lemma processAll_app (a b : list string) :
  forall c w,
    processAll cfg (a ++ b) c w
    = (let! c' := processAll cfg a c in processAll cfg b c')%sys w.
Proof.
  induction a as [|p a IH]; intros c w; [reflexivity|].
  cbn [app processAll]. unfold bind.
  destruct (processOne cfg p c w) as [[c1|e|n] w1]; try reflexivity.
  rewrite IH. reflexivity.
Qed.

(** C10, amended: the two recognized artifacts of one directory get the
    same destination.  When neither path is excluded, both files are there
    and the platform refuses nothing, and no other artifact processed in
    between is the later one, then the later one replaces the earlier one
    at the destination and is counted as UPDATE, and the earlier one is
    counted as NEW only if the destination did not exist before its turn,
    and as UPDATE otherwise. *)
Theorem sibling_artifacts (dir first second : string) (mid : list string)
  (c : Counters) (w : World) (content1 content2 : string) :
  let p1 := join dir first in
  let p2 := join dir second in
  In first readmeFileNames -> In second readmeFileNames -> first <> second ->
  excluded p1 = false -> excluded p2 = false ->
  outside p1 -> outside p2 -> Forall outside mid -> ~ In p2 mid ->
  files w !! p1 = Some content1 ->
  files w !! p2 = Some content2 ->
  (forall call, refuses w call = false) ->
  destOf p1 = destOf p2
  /\ exists w1 c2 w2 w3,
      processOne cfg p1 c w = (Ok (classified w p1 c), w1)
      /\ processAll cfg mid (classified w p1 c) w1 = (Ok c2, w2)
      /\ processOne cfg p2 c2 w2 = (Ok (updated1 (found1 c2)), w3)
      /\ processAll cfg (p1 :: mid ++ [p2]) c w
         = (Ok (updated1 (found1 c2)), w3)
      /\ files w3 !! destOf p1 = Some content2
      /\ files w3 !! p2 = None.
Proof.
  intros p1 p2 Hfirst Hsecond Hne Hex1 Hex2 Hout1 Hout2 Hmid Hnotin
    Hp1 Hp2 Hok.
  destruct (readme_name first Hfirst) as (Hs1 & Hn1).
  destruct (readme_name second Hsecond) as (Hs2 & Hn2).
  assert (Hdest : destOf p1 = destOf p2).
  { unfold destOf, p1, p2. f_equal. now apply transform_sibling. }
  split; [exact Hdest|].
  assert (Hp12 : p1 <> p2).
  { intros E. apply Hne. now apply (join_inj dir). }
  (* the earlier artifact *)
  destruct (processOne_moves cfg p1 c w content1 Hex1 Hp1 Hok)
    as (w1 & E1 & F1 & R1).
  assert (H1dest : files w1 !! destOf p1 = Some content1).
  { rewrite F1. apply lookup_insert_eq. }
  assert (H1p2 : files w1 !! p2 = Some content2).
  { rewrite F1, lookup_insert_ne, lookup_delete_ne; auto.
    intros E. now apply (outside_not_dest p2 p1). }
  (* the artifacts in between *)
  destruct (processAll_frame cfg mid (classified w p1 c) w1)
    as (c2 & w2 & E2 & R2 & S2 & F2).
  assert (Hmid_dest : forall q, ~ In (destOf q) mid).
  { intros q Hin. rewrite List.Forall_forall in Hmid.
    specialize (Hmid _ Hin). unfold outside in Hmid.
    now rewrite destOf_inside in Hmid. }
  assert (H2dest : is_Some (files w2 !! destOf p2)).
  { apply S2; [apply Hmid_dest|]. rewrite <- Hdest, H1dest. eauto. }
  assert (H2p2 : files w2 !! p2 = Some content2).
  { rewrite F2; [exact H1p2 | exact Hnotin |].
    intros Hin. apply in_map_iff in Hin as (q & Eq & _).
    now apply (outside_not_dest p2 q). }
  (* the later artifact *)
  destruct (processOne_moves cfg p2 c2 w2 content2 Hex2 H2p2)
    as (w3 & E3 & F3 & R3).
  { intros call. now rewrite R2, R1. }
  assert (Hclass : classified w2 p2 c2 = updated1 (found1 c2)).
  { unfold classified, isFile.
    now rewrite (bool_decide_eq_true_2 _ H2dest). }
  rewrite Hclass in E3.
  exists w1, c2, w2, w3. repeat split; try assumption.
  - change (p1 :: mid ++ [p2])%list with ([p1] ++ mid ++ [p2])%list.
    rewrite processAll_app. unfold bind at 1. cbn [processAll].
    unfold bind at 1. rewrite E1. unfold ret at 1.
    rewrite processAll_app. unfold bind at 1. rewrite E2.
    cbn [processAll]. unfold bind. now rewrite E3.
  - rewrite F3, Hdest. apply lookup_insert_eq.
  - rewrite F3, lookup_insert_ne, lookup_delete_eq; auto.
    intros E. now apply (outside_not_dest p2 p2).
Qed.

End Siblings.

End MergerFacts.

Module MergerExamples.
Import Sys Str StrOps Node Handoff JsonText PreCommit MergerSpec MergerFacts Worlds.
Local Open Scope string_scope.

Example walk_finds_both :
  fst (findLlmReadmeFiles config generated)
  = Ok ["src/llmreadme.json"; "src/llmreadme-enhanced.json"].
Proof. vm_compute. reflexivity. Qed.

(** The end-to-end run of the specification: one artifact below [src]. *)
Example merge_one :
  fst (processLlmReadmeFiles config blockedFree)
  = Ok (Some (mkCounters 1 1 0 0)).
Proof. vm_compute. reflexivity. Qed.

(** C3 fails on [processLlmReadmeFiles]: an artifact whose source is gone,
    and one that can be neither renamed nor copied, are logged as one
    skipped file and as one new file. *)
Theorem skipped_artifact_counted_as_new :
  fst (processLlmReadmeFiles config raced) = Ok (Some (mkCounters 1 1 0 1))
  /\ fst (processLlmReadmeFiles config blocked) = Ok (Some (mkCounters 1 1 0 1)).
Proof. split; vm_compute; reflexivity. Qed.

(** C10, as stated, fails: when the destination is in the index already,
    the two artifacts of [src] are both counted as UPDATE; in an excluded
    directory neither is relocated. *)
Lemma sibling_artifacts_both_updated :
  fst (processLlmReadmeFiles config (indexedSrc generated))
  = Ok (Some (mkCounters 2 0 2 0))
  /\ fst (processAll config
            ["benchmarks/llmreadme.json"; "benchmarks/llmreadme-enhanced.json"]
            zero generated)
     = Ok (mkCounters 0 0 0 2).
Proof. split; vm_compute; reflexivity. Qed.

Lemma sibling_artifacts_witness :
  destOf "src/llmreadme.json" = destOf "src/llmreadme-enhanced.json"
  /\ exists w',
      processAll config ["src/llmreadme.json"; "src/llmreadme-enhanced.json"]
        zero generated
      = (Ok (mkCounters 2 1 1 0), w')
      /\ files w' !! "master-index/src-root.json" = Some "{enhanced}".
Proof.
  destruct (sibling_artifacts config "src" "llmreadme.json"
              "llmreadme-enhanced.json" [] zero generated
              "{standard}" "{enhanced}")
    as (Hdest & w1 & c2 & w2 & w3 & E1 & E2 & E3 & Eall & Hfile & _).
  - left. reflexivity.
  - right. left. reflexivity.
  - discriminate.
  - reflexivity.
  - reflexivity.
  - reflexivity.
  - reflexivity.
  - constructor.
  - intros [].
  - vm_compute. reflexivity.
  - vm_compute. reflexivity.
  - intros call. reflexivity.
  - split; [exact Hdest|]. exists w3.
    cbn [processAll ret] in E2. injection E2 as <- <-.
    split; [exact Eall | exact Hfile].
Defined.

End MergerExamples.

(** ** Frames: what a run leaves alone

    A relation on worlds that every step of a computation stays within is
    kept by the computation; the lemmas follow the syntax of the monad. *)

Module FrameFacts.
Import Sys StrOps Node CommandRunner.
Local Open Scope string_scope.

Create HintDb frames.

Lemma fsCalls_app (a b : list Event) :
  fsCalls (a ++ b) = (fsCalls a ++ fsCalls b)%list.
Proof.
  induction a as [|e a IH]; [reflexivity|].
  destruct e; cbn; now rewrite IH.
Qed.

Lemma fsCalls_printed (lvl : LogLevel) (l : Level) : fsCalls (printed lvl l) = [].
Proof. now destruct lvl, l. Qed.

#[export] Instance framed_frame : Frame framed.
Proof.
  split; try (intros; now repeat split).
  unfold framed. intuition congruence.
Qed.

#[export] Instance readOnly_frame : Frame readOnly.
Proof.
  split.
  - intros w. now repeat split.
  - unfold readOnly, framed. intuition congruence.
  - intros w lvl l. split; [now repeat split|]. cbn.
    now rewrite fsCalls_app, fsCalls_printed, app_nil_r.
  - intros w command timeout. split; [now repeat split|]. cbn.
    now rewrite fsCalls_app, app_nil_r.
  - intros w ms. split; [now repeat split|]. cbn.
    now rewrite fsCalls_app, app_nil_r.
Qed.

#[export] Instance anyWorld_frame : Frame anyWorld.
Proof. now split. Qed.

Lemma within_quiet (allowed : FsCall -> Prop) (w w' : World) :
  fsCalls (trace w') = fsCalls (trace w) -> files w' = files w ->
  within allowed w w'.
Proof.
  intros E F. exists []. rewrite app_nil_r, F. now repeat split.
Qed.

Lemma within_call (allowed : FsCall -> Prop) (c : FsCall) (w w' : World) :
  allowed c ->
  fsCalls (trace w') = (fsCalls (trace w) ++ [c])%list ->
  (forall x, ~ touches c x -> files w' !! x = files w !! x) ->
  within allowed w w'.
Proof.
  intros Hc E F. exists [c]. split; [exact E|]. split; [now constructor|].
  intros x Hx. apply F. now inversion Hx.
Qed.

#[export] Instance within_frame (allowed : FsCall -> Prop) :
  Frame (within allowed).
Proof.
  split.
  - intros w. now apply within_quiet.
  - intros a b c (l1 & E1 & H1 & F1) (l2 & E2 & H2 & F2).
    exists (l1 ++ l2)%list. rewrite E2, E1, <- app_assoc.
    split; [reflexivity|]. split; [apply Forall_app; now split|].
    intros x Hx. apply Forall_app in Hx as [Hx1 Hx2].
    now rewrite F2, F1.
  - intros w lvl l. apply within_quiet; [|reflexivity]. cbn.
    now rewrite fsCalls_app, fsCalls_printed, app_nil_r.
  - intros w command timeout. apply within_quiet; [|reflexivity]. cbn.
    now rewrite fsCalls_app, app_nil_r.
  - intros w ms. apply within_quiet; [|reflexivity]. cbn.
    now rewrite fsCalls_app, app_nil_r.
Qed.

(** Evaluates one call of [fs] in a world. *)
Ltac call_cases :=
  unfold bind, emit, refused, ask, setFiles, setTree, throw, ret;
  cbn [fst snd trace files refuses oracle now spawned tree];
  repeat match goal with
         | |- context [if ?b then _ else _] => destruct b
         | |- context [match ?m !! ?k with _ => _ end] => destruct (m !! k)
         end;
  cbn [fst snd trace files refuses oracle now spawned tree].

#[export] Instance within_disk (allowed : FsCall -> Prop) :
  Disk (within allowed) allowed.
Proof.
  split; [exact (within_frame allowed) | ..].
  - intros p content Hc w. unfold writeFileSync. call_cases;
      (split; [|discriminate]); apply (within_call allowed (CWrite p)); cbn;
      rewrite ?fsCalls_app; auto.
    intros x Hx. now apply lookup_insert_ne.
  - intros p Hc w. unfold unlinkSync. call_cases;
      (split; [|discriminate]); apply (within_call allowed (CUnlink p)); cbn;
      rewrite ?fsCalls_app; auto.
    intros x Hx. now apply lookup_delete_ne.
  - intros src dst Hc w. unfold renameSync. call_cases;
      (split; [|discriminate]); apply (within_call allowed (CRename src dst));
      cbn; rewrite ?fsCalls_app; auto.
    intros x Hx. rewrite lookup_insert_ne, lookup_delete_ne; auto.
  - intros src dst Hc w. unfold copyFileSync. call_cases;
      (split; [|discriminate]); apply (within_call allowed (CCopy src dst));
      cbn; rewrite ?fsCalls_app; auto.
    intros x Hx. now apply lookup_insert_ne.
  - intros p Hc w. unfold mkdirSync. call_cases;
      (split; [|discriminate]); apply (within_call allowed (CMkdir p)); cbn;
      rewrite ?fsCalls_app; auto.
Qed.

#[export] Instance anyWorld_disk (allowed : FsCall -> Prop) :
  Disk anyWorld allowed.
Proof.
  split; [exact anyWorld_frame | ..]; intros; intros w;
    (split; [exact I|]).
  - unfold writeFileSync. call_cases; discriminate.
  - unfold unlinkSync. call_cases; discriminate.
  - unfold renameSync. call_cases; discriminate.
  - unfold copyFileSync. call_cases; discriminate.
  - unfold mkdirSync. call_cases; discriminate.
Qed.

Section Keeps.
Context {R : World -> World -> Prop} `{!Frame R}.

Lemma keeps_ret {A} (a : A) : keeps R (ret a).
Proof. intros w. split; [apply frame_refl | discriminate]. Qed.

Lemma keeps_throw {A} (message : string) : keeps R (@throw A message).
Proof. intros w. split; [apply frame_refl | discriminate]. Qed.

Lemma keeps_ask {A} (f : World -> A) : keeps R (ask f).
Proof. intros w. split; [apply frame_refl | discriminate]. Qed.

Lemma keeps_log (lvl : LogLevel) (l : Level) : keeps R (log lvl l).
Proof. intros w. split; [apply frame_print | discriminate]. Qed.

Lemma keeps_execSync (command : string) (timeout : N) :
  keeps R (execSync command timeout).
Proof. intros w. split; [apply frame_exec | discriminate]. Qed.

Lemma keeps_sleep (ms : N) : keeps R (sleep ms).
Proof. intros w. split; [apply frame_wait | discriminate]. Qed.

Lemma keeps_delay (ms : N) : keeps R (delay ms).
Proof. intros w. split; [apply frame_wait | discriminate]. Qed.

Lemma keeps_bind {A B} (c : M A) (k : A -> M B) :
  keeps R c -> (forall a, keeps R (k a)) -> keeps R (bind c k).
Proof.
  intros Hc Hk w. unfold bind. specialize (Hc w).
  destruct (c w) as [[a|e|n] w1]; cbn [fst snd] in Hc; destruct Hc as [HR Hn].
  - destruct (Hk a w1) as [HR' Hn']. split; [|exact Hn'].
    eapply frame_trans; eassumption.
  - split; [exact HR | discriminate].
  - now destruct (Hn n).
Qed.

Lemma keeps_try_catch {A} (c : M A) (h : string -> M A) :
  keeps R c -> (forall e, keeps R (h e)) -> keeps R (try_catch c h).
Proof.
  intros Hc Hh w. unfold try_catch. specialize (Hc w).
  destruct (c w) as [[a|e|n] w1]; cbn [fst snd] in Hc; destruct Hc as [HR Hn].
  - split; [exact HR | discriminate].
  - destruct (Hh e w1) as [HR' Hn']. split; [|exact Hn'].
    eapply frame_trans; eassumption.
  - now destruct (Hn n).
Qed.

Lemma keeps_try_finally {A} (c : M A) (fin : M unit) :
  keeps R c -> keeps R fin -> keeps R (try_finally c fin).
Proof.
  intros Hc Hf w. unfold try_finally. specialize (Hc w).
  destruct (c w) as [[a|e|n] w1]; cbn [fst snd] in Hc; destruct Hc as [HR Hn];
    [| |now destruct (Hn n)];
    specialize (Hf w1); destruct (fin w1) as [[[]|e'|n'] w2];
    cbn [fst snd] in Hf; destruct Hf as [HR' Hn'];
    try (now destruct (Hn' n'));
    (split; [eapply frame_trans; eassumption | discriminate]).
Qed.

Lemma yields_ret {A} (Q : A -> Prop) (a : A) : Q a -> yields R Q (ret a).
Proof. intros Ha w. split; [apply frame_refl | exact Ha]. Qed.

Lemma yields_throw {A} (Q : A -> Prop) (message : string) :
  yields R Q (throw message).
Proof. intros w. split; [apply frame_refl | exact I]. Qed.

Lemma yields_keeps {A} (Q : A -> Prop) (c : M A) : yields R Q c -> keeps R c.
Proof.
  intros Hc w. destruct (Hc w) as [HR Hq]. split; [exact HR|].
  intros n E. now rewrite E in Hq.
Qed.

Lemma yields_bind {A B} (P : A -> Prop) (Q : B -> Prop) (c : M A)
  (k : A -> M B) :
  yields R P c -> (forall a, P a -> yields R Q (k a)) -> yields R Q (bind c k).
Proof.
  intros Hc Hk w. unfold bind. specialize (Hc w).
  destruct (c w) as [[a|e|n] w1]; cbn [fst snd] in Hc; destruct Hc as [HR Hp].
  - destruct (Hk a Hp w1) as [HR' Hq]. split; [|exact Hq].
    eapply frame_trans; eassumption.
  - split; [exact HR | exact I].
  - destruct Hp.
Qed.

Lemma yields_after {A B} (Q : B -> Prop) (c : M A) (k : A -> M B) :
  keeps R c -> (forall a, yields R Q (k a)) -> yields R Q (bind c k).
Proof.
  intros Hc Hk w. unfold bind. specialize (Hc w).
  destruct (c w) as [[a|e|n] w1]; cbn [fst snd] in Hc; destruct Hc as [HR Hn].
  - destruct (Hk a w1) as [HR' Hq]. split; [|exact Hq].
    eapply frame_trans; eassumption.
  - split; [exact HR | exact I].
  - now destruct (Hn n).
Qed.

Lemma yields_try_catch {A} (Q : A -> Prop) (c : M A) (h : string -> M A) :
  yields R Q c -> (forall e, yields R Q (h e)) -> yields R Q (try_catch c h).
Proof.
  intros Hc Hh w. unfold try_catch. specialize (Hc w).
  destruct (c w) as [[a|e|n] w1]; cbn [fst snd] in Hc; destruct Hc as [HR Hq].
  - split; assumption.
  - destruct (Hh e w1) as [HR' Hq']. split; [|exact Hq'].
    eapply frame_trans; eassumption.
  - destruct Hq.
Qed.

Lemma keeps_with {A B} (P : A -> Prop) (c : M A) (k : A -> M B) :
  yields R P c -> (forall a, P a -> keeps R (k a)) -> keeps R (bind c k).
Proof.
  intros Hc Hk w. unfold bind. specialize (Hc w).
  destruct (c w) as [[a|e|n] w1]; cbn [fst snd] in Hc; destruct Hc as [HR Hp].
  - destruct (Hk a Hp w1) as [HR' Hn]. split; [|exact Hn].
    eapply frame_trans; eassumption.
  - split; [exact HR | discriminate].
  - destruct Hp.
Qed.

Lemma keeps_existsSync (p : string) : keeps R (existsSync p).
Proof. apply keeps_ask. Qed.

Lemma keeps_refused (c : FsCall) : keeps R (refused c).
Proof. apply keeps_ask. Qed.

End Keeps.

#[export] Hint Resolve keeps_ret keeps_throw keeps_ask keeps_log
  keeps_execSync keeps_existsSync keeps_refused keeps_sleep keeps_delay
  : frames.

(** One step through the syntax of a computation. *)
Ltac frame_step :=
  lazymatch goal with
  | |- keeps _ (bind _ _) => apply keeps_bind; [|intros ?]
  | |- keeps _ (try_catch _ _) => apply keeps_try_catch; [|intros ?]
  | |- keeps _ (try_finally _ _) => apply keeps_try_finally
  | |- keeps _ (if ?b then _ else _) => destruct b
  | |- keeps _ (match ?x with _ => _ end) => destruct x
  | |- keeps _ _ => solve [eauto with frames typeclass_instances]
  end.

Ltac frame := repeat frame_step.

Section Readers.
Context {R : World -> World -> Prop} `{!Frame R}.

Lemma keeps_readFileSync (p : string) : keeps R (readFileSync p).
Proof. unfold readFileSync. frame. Qed.

Lemma keeps_readdirSync (p : string) : keeps R (readdirSync p).
Proof. unfold readdirSync. frame. Qed.

Lemma keeps_logEach {A} (lvl : LogLevel) (l : Level) (items : list A) :
  keeps R (logEach lvl l items).
Proof. induction items; cbn [logEach]; frame. Qed.

Lemma keeps_attemptsFrom (lvl : LogLevel) (command : string) (timeout : N)
  (retries left : nat) :
  forall attempt, keeps R (attemptsFrom lvl command timeout retries left attempt).
Proof.
  induction left as [|left IH]; intros attempt; cbn [attemptsFrom]; frame.
Qed.

Lemma keeps_runner (lvl : LogLevel) (dT : N) (dR : nat) (command : string)
  (timeout : option N) (retries : option nat) :
  keeps R (CommandRunner.executeCommand lvl dT dR command timeout retries).
Proof. apply keeps_attemptsFrom. Qed.

End Readers.

#[export] Hint Resolve keeps_readFileSync keeps_readdirSync keeps_logEach
  keeps_runner : frames.

#[export] Hint Resolve disk_write disk_unlink disk_rename disk_copy disk_mkdir
  : frames.

End FrameFacts.

(** ** Frames of the pre-commit script *)

Module PreCommitFrames.
Import Sys Str StrOps Node Handoff PreCommit MergerSpec DiskSpec FrameFacts.
Local Open Scope string_scope.

#[local] Arguments join : simpl never.
#[local] Arguments member : simpl never.
#[local] Arguments existsb : simpl never.

Lemma searched_root : searched PROJECT_ROOT.
Proof. reflexivity. Qed.

(** The canonical file of an artifact lies in the master index itself. *)
Lemma dirname_destOf (p : string) : Path.dirname (destOf p) = MASTER_INDEX_DIR.
Proof.
  unfold destOf, Transform.transformPathToFilename, Path.dirname.
  rewrite MergerFacts.chars_join. cbn [String.eqb MASTER_INDEX_DIR].
  change (String.eqb MASTER_INDEX_DIR "") with false. cbn iota.
  rewrite StrFacts.chars_pack.
  change (chars MASTER_INDEX_DIR) with ("m"%char :: chars "aster-index").
  rewrite StrFacts.dirnameL_join; [reflexivity | reflexivity | |].
  - apply TransformFacts.sepFree_slashFree, TransformFacts.transformL_sepFree.
  - unfold Transform.transformL.
    destruct (_ || _); [discriminate|].
    destruct (Transform.isConventional _);
      intros E; apply app_eq_nil in E as [_ E]; discriminate.
Qed.

Section Readers.
Context `{Json} {R : World -> World -> Prop} `{!Frame R}.
Variable cfg : ScriptConfig.

Lemma keeps_logger (l : Level) : keeps R (logger cfg l).
Proof. apply keeps_log. Qed.

Lemma keeps_executeCommand (command : string) (timeout : option N)
  (retries : option nat) :
  keeps R (executeCommand cfg command timeout retries).
Proof. apply keeps_runner. Qed.

#[local] Hint Resolve keeps_logger keeps_executeCommand : frames.

(** What the walk returns lies in a directory that it searches, under a
    recognized name. *)
Lemma yields_walkEntry (e : Dirent) :
  forall dir, searched dir -> yields R (Forall found) (walkEntry dir e).
Proof.
  induction e as [name|name children IH|name] using TreeFacts.Dirent_nested_ind;
    intros dir Hdir; cbn [walkEntry entryName].
  - destruct (member name readmeFileNames) eqn:Ename;
      apply yields_ret; repeat constructor.
    exists dir, name. auto.
  - destruct (member name ignoredDirs); [now apply yields_ret|].
    destruct (existsb _ ignoredDirs) eqn:Eclean; [now apply yields_ret|].
    apply yields_after; [apply keeps_refused|]. intros no.
    destruct no; [apply yields_throw|].
    set (d := join dir name) in *. clearbody d.
    induction IH as [|x rest Hx _ IHrest]; [now apply yields_ret|].
    eapply yields_bind; [now apply Hx|]. intros xs Hxs.
    eapply yields_bind; [exact IHrest|]. intros more Hmore.
    apply yields_ret. apply Forall_app. now split.
  - now apply yields_ret.
Qed.

Lemma yields_walkAll (entries : list Dirent) :
  forall dir, searched dir -> yields R (Forall found) (walkAll dir entries).
Proof.
  induction entries as [|e rest IH]; intros dir Hdir; cbn [walkAll].
  - now apply yields_ret.
  - eapply yields_bind; [now apply yields_walkEntry|]. intros xs Hxs.
    eapply yields_bind; [now apply IH|]. intros more Hmore.
    apply yields_ret. apply Forall_app. now split.
Qed.

Lemma yields_findLlmReadmeFiles :
  yields R (Forall found) (findLlmReadmeFiles cfg).
Proof.
  unfold findLlmReadmeFiles, walkDirectory.
  apply yields_try_catch; [|intros e; apply yields_throw].
  apply yields_after; [frame|]. intros _.
  eapply yields_bind.
  { apply yields_after; [frame|]. intros entries.
    apply yields_walkAll, searched_root. }
  intros files Hfiles.
  apply yields_after; [frame|]. intros _.
  apply yields_after; [frame|]. intros _.
  now apply yields_ret.
Qed.

Lemma keeps_findLlmReadmeFiles : keeps R (findLlmReadmeFiles cfg).
Proof. exact (yields_keeps _ _ yields_findLlmReadmeFiles). Qed.

Lemma keeps_isDirectoryEmpty (dirPath : string) :
  keeps R (isDirectoryEmpty cfg dirPath).
Proof. unfold isDirectoryEmpty. frame. Qed.

Lemma keeps_getStagedFiles : keeps R (getStagedFiles cfg).
Proof. unfold getStagedFiles. frame. Qed.

#[local] Hint Resolve keeps_isDirectoryEmpty keeps_getStagedFiles : frames.

Lemma keeps_determineTargetDirectories :
  keeps R (determineTargetDirectories cfg).
Proof. unfold determineTargetDirectories. frame. Qed.

Lemma keeps_validateLlmGenerator (useDocker : bool) :
  keeps R (validateLlmGenerator cfg useDocker).
Proof. unfold validateLlmGenerator. frame. Qed.

Lemma keeps_tryPathFormats (formats targetDirs : list string)
  (recursiveFlag : string) :
  keeps R (tryPathFormats cfg formats targetDirs recursiveFlag).
Proof. induction formats; cbn [tryPathFormats]; frame. Qed.

#[local] Hint Resolve keeps_tryPathFormats : frames.

Lemma keeps_runGenerator (cwd : string) (win32 useDocker : bool)
  (command : string) (targetDirs : list string) (recursiveFlag : string) :
  keeps R (runGenerator cfg cwd win32 useDocker command targetDirs recursiveFlag).
Proof. unfold runGenerator. frame. Qed.

End Readers.

#[export] Hint Resolve keeps_logger keeps_executeCommand
  keeps_findLlmReadmeFiles keeps_isDirectoryEmpty keeps_getStagedFiles
  keeps_determineTargetDirectories keeps_validateLlmGenerator
  keeps_tryPathFormats keeps_runGenerator : frames.

Section Writers.
Context `{Json} {R : World -> World -> Prop} {allowed : FsCall -> Prop}
  `{!Disk R allowed}.
Variable cfg : ScriptConfig.
Hypothesis Hindex : allowed (CMkdir MASTER_INDEX_DIR).
Hypothesis Hrecord : allowed (CWrite METADATA_PATH).
Hypothesis Hrename : forall p, found p -> allowed (CRename p (destOf p)).
Hypothesis Hcopy : forall p, found p -> allowed (CCopy p (destOf p)).
Hypothesis Hunlink : forall p, found p -> allowed (CUnlink p).

Lemma keeps_ensureDirectoryExists :
  keeps R (ensureDirectoryExists cfg MASTER_INDEX_DIR).
Proof. unfold ensureDirectoryExists. frame. Qed.

Lemma keeps_processOne (p : string) (c : Counters) :
  found p -> keeps R (processOne cfg p c).
Proof.
  intros Hp. unfold processOne, transformPathToFilename.
  destruct (existsb _ excludeDirs); [frame|].
  rewrite MergerFacts.join_root.
  eapply (keeps_with (fun t => t = Transform.transformPathToFilename p)).
  { apply yields_after; [frame|]. intros _. now apply yields_ret. }
  intros targetFilename ->.
  change (join MASTER_INDEX_DIR (Transform.transformPathToFilename p))
    with (destOf p).
  rewrite dirname_destOf.
  pose proof (Hrename p Hp). pose proof (Hcopy p Hp). pose proof (Hunlink p Hp).
  frame.
Qed.

Lemma keeps_processAll (l : list string) :
  forall c, Forall found l -> keeps R (processAll cfg l c).
Proof.
  induction l as [|p l IH]; intros c Hl; cbn [processAll]; [frame|].
  inversion Hl; subst.
  apply keeps_bind; [now apply keeps_processOne|]. intros c'. now apply IH.
Qed.

Lemma keeps_processLlmReadmeFiles : keeps R (processLlmReadmeFiles cfg).
Proof.
  unfold processLlmReadmeFiles.
  apply keeps_try_catch; [|intros e; frame].
  apply keeps_bind; [frame|]. intros _.
  eapply keeps_with; [apply yields_findLlmReadmeFiles|]. intros files Hfiles.
  destruct (length files =? 0)%nat; [frame|].
  apply keeps_bind; [frame|]. intros _.
  apply keeps_bind; [apply keeps_ensureDirectoryExists|]. intros _.
  apply keeps_bind; [frame|]. intros _.
  apply keeps_bind; [now apply keeps_processAll|]. intros c. frame.
Qed.

Lemma keeps_saveCommitMetadata : keeps R (saveCommitMetadata cfg).
Proof. unfold saveCommitMetadata. frame. Qed.

#[local] Hint Resolve keeps_saveCommitMetadata keeps_processLlmReadmeFiles
  : frames.

Lemma keeps_stageLlmReadmeFiles : keeps R (stageLlmReadmeFiles cfg).
Proof. unfold stageLlmReadmeFiles. frame. Qed.

#[local] Hint Resolve keeps_stageLlmReadmeFiles : frames.

Lemma keeps_main (cwd : string) (win32 : bool) : keeps R (main cfg cwd win32).
Proof. unfold main. frame. Qed.

End Writers.

End PreCommitFrames.

(** ** Phase A as a whole *)

Module PhaseASafety.
Import Sys Str StrOps Node Handoff PreCommit MergerSpec DiskSpec FrameFacts
  PreCommitFrames.
Local Open Scope string_scope.

(** A [catch] block that only logs leaves a value or the end of the
    process. *)
Lemma caught_or_exit {A} (c : M A) (h : string -> M A) (w : World) :
  (forall e w', exists a w'', h e w' = (Ok a, w'')) ->
  (exists a, fst (try_catch c h w) = Ok a)
  \/ (exists n, fst (try_catch c h w) = Exit n).
Proof.
  intros Hh. unfold try_catch. destruct (c w) as [[a|e|n] w1]; cbn; eauto.
  destruct (Hh e w1) as (a & w2 & ->). eauto.
Qed.

Section Script.
Context `{Json}.
Variables (cfg : ScriptConfig) (cwd : string) (win32 : bool).

(** X17: [main] of the pre-commit script always completes: whatever the
    commands, the files and the platform do, it returns without throwing
    and without ending the process, so the script as it starts never runs
    the rejection handler with its [process.exit(1)]. *)
Theorem pre_commit_main_completes (w : World) :
  fst (main cfg cwd win32 w) = Ok tt
  /\ start cfg cwd win32 w = main cfg cwd win32 w.
Proof.
  assert (Hok : fst (main cfg cwd win32 w) = Ok tt).
  { assert (Hcases : (exists a, fst (main cfg cwd win32 w) = Ok a)
                     \/ exists n, fst (main cfg cwd win32 w) = Exit n).
    { unfold main. apply caught_or_exit. intros e w'.
      unfold logger, log, bind. eauto. }
    destruct Hcases as [([] & Ha) | (n & Hn)]; [exact Ha|].
    destruct (keeps_main (R := anyWorld) (allowed := fun _ => True) cfg
                I I (fun _ _ => I) (fun _ _ => I) (fun _ _ => I) cwd win32 w)
      as [_ Hne].
    now destruct (Hne n). }
  split; [exact Hok|].
  unfold start, script, try_catch.
  destruct (main cfg cwd win32 w) as [[[]|e|n] w1]; try discriminate.
  reflexivity.
Qed.

Lemma found_inside (x p : string) : ~ found x -> found p -> x <> p.
Proof. intros Hx Hp ->. auto. Qed.


End Script.
End PhaseASafety.

(** ** CommandRunner, whatever the command does *)

Module RunnerBounds.
Import Sys StrOps Node CommandRunner RunnerFacts PhaseBFacts.
Local Open Scope string_scope.

Lemma waited_app (a b : list Event) : waited (a ++ b) = (waited a + waited b)%N.
Proof.
  induction a as [|e a IH]; [reflexivity|].
  destruct e; cbn; rewrite IH; lia.
Qed.

Lemma waited_printed (lvl : LogLevel) (l : Level) : waited (printed lvl l) = 0%N.
Proof. now destruct lvl, l. Qed.

Lemma backoff_next (attempt : nat) :
  1 <= attempt -> backoff (S attempt) = (2 * backoff attempt)%N.
Proof.
  intros Ha. unfold backoff.
  replace (S attempt - 1) with (S (attempt - 1)) by lia.
  rewrite Nat2N.inj_succ, N.pow_succ_r'. lia.
Qed.

Lemma execSync_advance (command : string) (timeout : N) (w : World) :
  execSync command timeout w
  = (Ok (oracle w (spawned w) command), advance w 1 [EvExec command timeout]).
Proof. reflexivity. Qed.

Lemma emit_advance (e : Event) (w : World) :
  emit e w = (Ok tt, advance w 0 [e]).
Proof. reflexivity. Qed.

Lemma oracle_advance (w : World) (n : nat) (tr : list Event) :
  oracle (advance w n tr) = oracle w.
Proof. reflexivity. Qed.

Lemma spawned_advance (w : World) (n : nat) (tr : list Event) :
  spawned (advance w n tr) = n + spawned w.
Proof. reflexivity. Qed.

Section Loop.
Variables (lvl : LogLevel) (command : string) (timeout : N) (retries : nat).

Lemma attempts_bounded (left : nat) :
  forall (attempt : nat) (w : World),
    attempt + left = retries + 1 -> 1 <= attempt ->
    exists k tr r,
      attemptsFrom lvl command timeout retries left attempt w
      = (r, advance w k tr)
      /\ k <= left /\ (1 <= left -> 1 <= k)
      /\ commandsOf tr = repeat command k
      /\ (waited tr + backoff attempt = backoff (attempt + (k - 1)))%N
      /\ match r with
         | Ok out =>
             1 <= k /\ oracle w (spawned w + (k - 1)) command = ExecOk out
         | Throw _ => k = left
         | Exit _ => False
         end.
Proof.
  induction left as [|left IH]; intros attempt w Hinv Ha.
  - exists 0, [], (Throw "Unexpected error in executeCommand").
    cbn [attemptsFrom]. unfold throw. rewrite advance_nothing.
    repeat split; try lia. now rewrite Nat.add_0_r.
  - cbn [attemptsFrom]. unfold bind, log, sleep, ret, throw. cbn beta iota.
    rewrite execSync_advance. cbn beta iota.
    rewrite oracle_advance, spawned_advance. cbn [Nat.add].
    destruct (oracle w (spawned w) command) as [out|code message] eqn:Eo;
      cbn beta iota.
    + rewrite !advance_advance. do 3 eexists. split; [reflexivity|].
      rewrite !commandsOf_app, !commandsOf_printed, !waited_app,
        !waited_printed. cbn. rewrite !Nat.add_0_r.
      repeat split; try lia. exact Eo.
    + destruct (attempt =? retries)%nat eqn:Elast; cbn beta iota.
      * apply Nat.eqb_eq in Elast.
        rewrite !advance_advance. do 3 eexists. split; [reflexivity|].
        rewrite !commandsOf_app, !commandsOf_printed, !waited_app,
          !waited_printed. cbn. rewrite !Nat.add_0_r.
        repeat split; lia.
      * apply Nat.eqb_neq in Elast.
        rewrite emit_advance. cbn beta iota. rewrite !advance_advance.
        match goal with
        | |- context [attemptsFrom _ _ _ _ left (S attempt) ?v] =>
            destruct (IH (S attempt) v)
              as (k & tr & r & E & Hk & Hpos & Hc & Hw & Hr); [lia | lia |]
        end.
        rewrite E, advance_advance.
        assert (Hk1 : 1 <= k) by (apply Hpos; lia).
        do 3 eexists. split; [reflexivity|].
        rewrite !commandsOf_app, !commandsOf_printed, !waited_app,
          !waited_printed, Hc. cbn [commandsOf waited app repeat Nat.add].
        split; [lia|]. split; [lia|].
        split; [now rewrite Nat.add_comm|]. split.
        { fold (backoff attempt).
          replace (attempt + (k + 1 - 1)) with (S attempt + (k - 1)) by lia.
          rewrite <- Hw, (backoff_next attempt Ha). lia. }
        destruct r as [out|msg|n]; [|lia|exact Hr].
        destruct Hr as (_ & Hr). split; [lia|].
        rewrite oracle_advance, spawned_advance in Hr.
        rewrite <- Hr. f_equal. lia.
Qed.

End Loop.

(** X1: whatever the command does, a call of [executeCommand] with the
    budget [n] ends after [k <= n] attempts of that command and of nothing
    else, having waited [(2 ^ (k - 1) - 1) * 1000] milliseconds in all; it
    returns the output of its last attempt, or it throws when the budget is
    used up, and it never ends the process; the files and the listing are
    as before. *)
Theorem executeCommand_bounded (lvl : LogLevel) (dT : N) (dR : nat)
  (command : string) (timeout : option N) (retries : option nat)
  (w : World) :
  let n := default dR retries in
  exists k tr r,
    executeCommand lvl dT dR command timeout retries w = (r, advance w k tr)
    /\ k <= n
    /\ commandsOf tr = repeat command k
    /\ waited tr = ((2 ^ N.of_nat (k - 1) - 1) * 1000)%N
    /\ match r with
       | Ok out =>
           1 <= k /\ oracle w (spawned w + (k - 1)) command = ExecOk out
       | Throw _ => k = n
       | Exit _ => False
       end.
Proof.
  intros n. unfold executeCommand. fold n.
  destruct (attempts_bounded lvl command (default dT timeout) n n 1 w)
    as (k & tr & r & E & Hk & _ & Hc & Hw & Hr); [lia | lia |].
  exists k, tr, r. repeat split; try assumption.
  unfold backoff in Hw.
  replace (1 + (k - 1) - 1) with (k - 1) in Hw by lia.
  change (2 ^ N.of_nat (1 - 1))%N with 1%N in Hw.
  pose proof (N.pow_nonzero 2 (N.of_nat (k - 1)) ltac:(lia)).
  set (p := (2 ^ N.of_nat (k - 1))%N) in *. lia.
Qed.

End RunnerBounds.

(** ** Directories and moves *)

Module DirectoryFacts.
Import Sys Str StrOps Node Handoff PreCommit.
Local Open Scope string_scope.

Lemma findDir_replaceDir (name : string) (children old : list Dirent)
  (t : list Dirent) :
  findDir name t = Some old ->
  findDir name (replaceDir name children t) = Some children.
Proof.
  induction t as [|e t IH]; [discriminate|].
  destruct e as [n|n c|n]; cbn [findDir replaceDir]; auto.
  destruct (String.eqb n name) eqn:En; cbn [findDir]; rewrite En; auto.
Qed.

Lemma findDir_snoc (name : string) (children : list Dirent) (t : list Dirent) :
  findDir name t = None ->
  findDir name (t ++ [DDir name children]) = Some children.
Proof.
  induction t as [|e t IH]; cbn [app findDir].
  - now rewrite String.eqb_refl.
  - destruct e as [n|n c|n]; auto. destruct (String.eqb n name); [discriminate|auto].
Qed.

(** [mkdirSync(p, { recursive: true })] leaves [p] a directory. *)
Lemma lookupDir_mkdirp (segs : list string) :
  forall t, is_Some (lookupDir segs (mkdirp segs t)).
Proof.
  induction segs as [|s segs IH]; intros t; cbn [mkdirp lookupDir]; [eauto|].
  destruct (findDir s t) as [children|] eqn:Efind.
  - rewrite (findDir_replaceDir s _ children t Efind). apply IH.
  - rewrite (findDir_snoc s _ t Efind). apply IH.
Qed.

Section Script.
Context `{Json}.
Variable cfg : ScriptConfig.

#[local] Arguments segments : simpl never.
#[local] Arguments lookupDir : simpl never.
#[local] Arguments mkdirp : simpl never.
#[local] Arguments String.append : simpl never.

(** X5: [ensureDirectoryExists] touches no file.  When it returns, the
    path exists, and a second call changes nothing; it throws only when
    the platform refuses the [mkdir], with the error of the platform
    wrapped in its own message, and the listing is then as before. *)
Theorem ensureDirectoryExists_ensures (dirPath : string) (w : World) :
  let r := ensureDirectoryExists cfg dirPath w in
  files (snd r) = files w
  /\ match fst r with
     | Ok _ =>
         isFile (snd r) dirPath || isDirectory (snd r) dirPath = true
         /\ ensureDirectoryExists cfg dirPath (snd r) = (Ok tt, snd r)
     | Throw message =>
         message = "Failed to create directory " ++ dirPath ++ ": Error: EACCES"
         /\ refuses w (CMkdir dirPath) = true
         /\ tree (snd r) = tree w
     | Exit _ => False
     end.
Proof.
  assert (Hmade : forall tr,
             isDirectory
               (mkWorld (oracle w) (refuses w) (now w) (spawned w) (files w)
                        (mkdirp (segments dirPath) (tree w)) tr) dirPath
             = true).
  { intros tr. unfold isDirectory. cbn [tree].
    apply bool_decide_eq_true_2, lookupDir_mkdirp. }
  unfold ensureDirectoryExists, try_catch, existsSync, mkdirSync, refused, ask,
    emit, setTree, logger, log, advance, bind, ret, throw.
  cbn [fst snd files tree trace refuses oracle now spawned Nat.add].
  destruct (isFile w dirPath || isDirectory w dirPath) eqn:Eex;
    cbn [negb fst snd files]; [now rewrite Eex|].
  destruct (refuses w (CMkdir dirPath)) eqn:Erf;
    cbn [fst snd files tree trace refuses oracle now spawned]; [auto|].
  split; [reflexivity|].
  assert (Hex : forall tr,
             isFile
               (mkWorld (oracle w) (refuses w) (now w) (spawned w) (files w)
                        (mkdirp (segments dirPath) (tree w)) tr) dirPath
             || isDirectory
                  (mkWorld (oracle w) (refuses w) (now w) (spawned w) (files w)
                           (mkdirp (segments dirPath) (tree w)) tr) dirPath
             = true).
  { intros tr. rewrite Hmade. apply orb_true_r. }
  rewrite Hex. split; reflexivity.
Qed.

Lemma exists_file (v : World) (p content : string) :
  files v !! p = Some content -> isFile v p || isDirectory v p = true.
Proof.
  intros E. unfold isFile. rewrite E.
  now rewrite bool_decide_eq_true_2 by eauto.
Qed.

Lemma ensure_granted (dirPath : string) (w : World) :
  refuses w (CMkdir dirPath) = false ->
  exists w',
    ensureDirectoryExists cfg dirPath w = (Ok tt, w')
    /\ files w' = files w /\ refuses w' = refuses w.
Proof.
  intros Hok.
  unfold ensureDirectoryExists, try_catch, existsSync, mkdirSync, refused, ask,
    emit, setTree, logger, log, advance, bind, ret, throw.
  cbn [fst snd files tree trace refuses oracle now spawned Nat.add].
  destruct (isFile w dirPath || isDirectory w dirPath);
    cbn [negb fst snd files]; [eauto|].
  rewrite Hok. cbn [fst snd files tree trace refuses oracle now spawned].
  eauto.
Qed.

(** X6: [moveFile] on a destination that is there, when the platform
    refuses nothing.  It unlinks the destination and then renames: when
    the source is another file that is there, the destination ends with
    the content of the source and the source is gone; when the source is
    missing, or is the destination itself, it throws its wrapped error
    after the destination has been deleted. *)
Theorem moveFile_replaces (source destination : string) (w : World)
  (old : string) :
  (forall call, refuses w call = false) ->
  files w !! destination = Some old ->
  (forall content,
      files w !! source = Some content -> source <> destination ->
      exists w',
        moveFile cfg source destination w = (Ok tt, w')
        /\ files w' = <[destination := content]> (delete source (files w)))
  /\ (source = destination \/ files w !! source = None ->
      exists w',
        moveFile cfg source destination w
        = (Throw ("Failed to move file from " ++ source ++ " to "
                  ++ destination ++ ": Error: ENOENT"), w')
        /\ files w' = delete destination (files w)).
Proof.
  intros Hok Hdest.
  destruct (ensure_granted (Path.dirname destination) w
              (Hok (CMkdir (Path.dirname destination))))
    as (w1 & E1 & F1 & R1).
  assert (Hdest1 : files w1 !! destination = Some old) by now rewrite F1.
  assert (Hok1 : forall call, refuses w1 call = false).
  { intros call. now rewrite R1. }
  assert (Hrun :
            moveFile cfg source destination w
            = try_catch
                (unlinkSync destination >> renameSync source destination
                 >> logger cfg Verbose)%sys
                (fun error =>
                   throw ("Failed to move file from " ++ source ++ " to "
                          ++ destination ++ ": Error: " ++ error)) w1).
  { unfold moveFile, try_catch. unfold bind at 1. rewrite E1.
    unfold bind at 1. unfold existsSync, ask.
    now rewrite (exists_file w1 destination old Hdest1). }
  split.
  - intros content Hsrc Hne. rewrite <- F1 in Hsrc.
    rewrite Hrun.
    unfold try_catch, unlinkSync, renameSync, refused, ask, emit, setFiles,
      logger, log, advance, bind, ret, throw.
    repeat progress
      (cbn [oracle refuses now spawned files tree trace Nat.add fst snd];
       rewrite ?Hok1, ?Hdest1, ?lookup_delete_ne, ?Hsrc by congruence).
    eexists. split; [reflexivity|]. cbn [files].
    now rewrite (delete_delete _ source destination), insert_delete_eq, F1.
  - intros Hsrc.
    assert (Hgone : delete destination (files w1) !! source = None).
    { destruct Hsrc as [-> | Hnone]; [apply lookup_delete_eq|].
      apply lookup_delete_None. right. now rewrite F1. }
    rewrite Hrun.
    unfold try_catch, unlinkSync, renameSync, refused, ask, emit, setFiles,
      logger, log, advance, bind, ret, throw.
    repeat progress
      (cbn [oracle refuses now spawned files tree trace Nat.add fst snd];
       rewrite ?Hok1, ?Hdest1, ?Hgone).
    eexists. split; [reflexivity|]. cbn [files]. now rewrite F1.
Qed.

End Script.

End DirectoryFacts.

(** ** The search for artifacts *)

Module SearchFacts.
Import Sys Str StrOps Node Handoff PreCommit MergerSpec DiskSpec FrameFacts
  PreCommitFrames.
Local Open Scope string_scope.

(** A prefix that ends a component is a prefix of the directory. *)
Lemma prefix_component (a : list ascii) :
  forall dir name,
    Path.slashFree a ->
    startsWithL (a ++ ["/"%char]) (dir ++ "/"%char :: name) = true ->
    startsWithL a dir = true.
Proof.
  induction a as [|x a IH]; intros dir name Ha Hp; [now destruct dir|].
  inversion Ha as [|? ? Hx Ha']; subst.
  destruct dir as [|d dir]; cbn [app startsWithL] in *.
  - unfold Path.isSlash in Hx. now rewrite Hx in Hp.
  - apply andb_true_iff in Hp as [-> Hp]. cbn [andb]. eauto.
Qed.

Lemma includesL_prefix (a s : list ascii) :
  startsWithL a s = true -> includesL a s = true.
Proof. intros E. destruct s; cbn [includesL]; now rewrite E. Qed.

(** The search never pushes a file of the master index. *)
Lemma found_outside (p : string) : found p -> outside p.
Proof.
  intros (dir & name & -> & Hname & Hdir). unfold outside, startsWith.
  rewrite MergerFacts.chars_join.
  destruct (String.eqb dir "") eqn:Edir.
  - unfold member, readmeFileNames in Hname. cbn [existsb] in Hname.
    rewrite orb_false_r in Hname.
    apply orb_true_iff in Hname as [E | E]; apply String.eqb_eq in E;
      subst name; reflexivity.
  - destruct (startsWithL _ _) eqn:Ep; [|reflexivity].
    apply (prefix_component (chars "master-index")) in Ep;
      [|repeat constructor].
    apply includesL_prefix in Ep.
    unfold searched, ignoredDirs in Hdir. cbn [existsb] in Hdir.
    repeat (apply orb_false_iff in Hdir as [? Hdir]).
    unfold includes in *. congruence.
Qed.

Section Script.
Context `{Json}.
Variable cfg : ScriptConfig.

(** X7: the search of the pre-commit script only reads.  Every path it
    returns has one of the two recognized file names and lies in a
    directory in whose path no ignored name occurs; in particular it never
    returns a file of the master index.  It never ends the process. *)
Theorem search_results (w : World) :
  readOnly w (snd (findLlmReadmeFiles cfg w))
  /\ match fst (findLlmReadmeFiles cfg w) with
     | Ok files => Forall (fun p => found p /\ outside p) files
     | Throw _ => True
     | Exit _ => False
     end.
Proof.
  destruct (yields_findLlmReadmeFiles (R := readOnly) cfg w) as [HR Hq].
  split; [exact HR|].
  destruct (fst (findLlmReadmeFiles cfg w)); try exact Hq.
  eapply List.Forall_impl; [|exact Hq]. auto using found_outside.
Qed.

End Script.

End SearchFacts.

(** ** The counters of the merger *)

Module MergerCounts.
Import Sys Str StrOps Node Handoff PreCommit MergerSpec MergerFacts.
Local Open Scope string_scope.

Section Merger.
Context `{Json}.
Variable cfg : ScriptConfig.

(** One turn of the loop counts its artifact as found or as skipped, and a
    found one as new or as updated. *)
Lemma processOne_counts (p : string) (c : Counters) (w : World) :
  exists c' w',
    processOne cfg p c w = (Ok c', w')
    /\ filesFound c' + filesCopied c + filesUpdated c
       = filesFound c + filesCopied c' + filesUpdated c'
    /\ filesFound c <= filesFound c' <= filesFound c + 1
    /\ filesSkipped c <= filesSkipped c' <= filesSkipped c + 1
    /\ filesFound c + filesSkipped c + 1 <= filesFound c' + filesSkipped c'.
Proof.
  unfold processOne, transformPathToFilename.
  rewrite ?join_root.
  unfold try_catch, existsSync, mkdirSync, renameSync, copyFileSync,
    unlinkSync, refused, ask, emit, setFiles, setTree, logger, log, advance,
    bind, ret, throw.
  destruct (existsb _ excludeDirs); branches;
    (do 2 eexists; split; [reflexivity|]); cbn; lia.
Qed.

(** X10: whatever happens to the files, the loop of
    [processLlmReadmeFiles] runs to its end, and the counters it logs
    satisfy: found = new + updated; every artifact of the batch is counted
    as found or as skipped, and none more than once as either. *)
Theorem counters_consistent (l : list string) (w : World) :
  exists c w',
    processAll cfg l zero w = (Ok c, w')
    /\ filesFound c = filesCopied c + filesUpdated c
    /\ filesFound c <= length l
    /\ filesSkipped c <= length l
    /\ length l <= filesFound c + filesSkipped c.
Proof.
  enough (Hgen : forall c0 w,
             exists c w',
               processAll cfg l c0 w = (Ok c, w')
               /\ filesFound c + filesCopied c0 + filesUpdated c0
                  = filesFound c0 + filesCopied c + filesUpdated c
               /\ filesFound c0 <= filesFound c <= filesFound c0 + length l
               /\ filesSkipped c0 <= filesSkipped c
                  <= filesSkipped c0 + length l
               /\ filesFound c0 + filesSkipped c0 + length l
                  <= filesFound c + filesSkipped c).
  { destruct (Hgen zero w) as (c & w' & E & H1 & H2 & H3 & H4).
    exists c, w'. cbn in *. repeat split; try assumption; lia. }
  induction l as [|p l IH]; intros c0 w0.
  - exists c0, w0. cbn. repeat split; lia.
  - destruct (processOne_counts p c0 w0) as (c1 & w1 & E1 & A1 & B1 & C1 & D1).
    destruct (IH c1 w1) as (c2 & w2 & E2 & A2 & B2 & C2 & D2).
    exists c2, w2. cbn [processAll length]. unfold bind. rewrite E1, E2.
    repeat split; lia.
Qed.

(** X11: when the platform refuses the rename of an artifact and lets the
    copy and the unlink through, the turn ends as the rename would have
    ended it: the canonical file holds the content of the artifact, the
    artifact is gone, and the turn is not counted as skipped. *)
Theorem relocation_falls_back (p : string) (c : Counters) (w : World)
  (content : string) :
  excluded p = false ->
  outside p ->
  files w !! p = Some content ->
  refuses w (CRename p (destOf p)) = true ->
  refuses w (CCopy p (destOf p)) = false ->
  refuses w (CUnlink p) = false ->
  exists w',
    processOne cfg p c w = (Ok (classified w p c), w')
    /\ files w' = <[destOf p := content]> (delete p (files w))
    /\ In (EvFs (CCopy p (destOf p))) (trace w').
Proof.
  intros Hex Hout Hp Hrename Hcopy Hunlink.
  pose proof (isFile_lookup w p content Hp) as Hfile.
  assert (Hne : destOf p <> p).
  { intros E. now apply (outside_not_dest p p Hout). }
  assert (Hp' : <[destOf p := content]> (files w) !! p = Some content).
  { now rewrite lookup_insert_ne. }
  unfold classified, destOf in *.
  unfold processOne, transformPathToFilename.
  rewrite ?join_root.
  unfold try_catch, existsSync, mkdirSync, renameSync, copyFileSync,
    unlinkSync, refused, ask, emit, setFiles, setTree, logger, log, advance,
    bind, ret, throw.
  fold (excluded p). rewrite Hex.
  unfold isFile, isDirectory in *.
  repeat (repeat progress
            (project;
             rewrite ?Hrename, ?Hcopy, ?Hunlink, ?Hfile, ?Hp, ?Hp';
             cbn [orb]);
          match goal with
          | |- context [if ?b then _ else _] => destruct b eqn:?
          end);
    repeat progress
      (project; rewrite ?Hrename, ?Hcopy, ?Hunlink, ?Hfile, ?Hp, ?Hp';
       cbn [orb]);
    (eexists; split; [reflexivity|]); project;
    (split; [now rewrite delete_insert_ne by congruence|]);
    rewrite !in_app_iff; cbn; tauto.
Qed.

End Merger.

End MergerCounts.

(** ** Canonical names *)

Module CanonicalNames.
Import Str Path Transform StrOps PostCommit StrFacts TransformFacts.
Local Open Scope string_scope.
Local Open Scope list_scope.

Lemma startsWithL_app (p r : list ascii) : startsWithL p (p ++ r) = true.
Proof.
  induction p as [|c p IH]; [reflexivity|]. cbn [app startsWithL].
  unfold eqc. now rewrite Ascii.eqb_refl.
Qed.

Lemma endsWithL_app (a s : list ascii) : endsWithL s (a ++ s) = true.
Proof. unfold endsWithL. rewrite rev_app_distr. apply startsWithL_app. Qed.

Lemma includesL_app (a s : list ascii) : includesL s (a ++ s) = true.
Proof.
  induction a as [|c a IH]; cbn [app].
  - destruct s as [|c s]; [reflexivity|]. cbn [includesL].
    rewrite <- (app_nil_r (c :: s)) at 2. now rewrite startsWithL_app.
  - cbn [includesL]. rewrite IH. apply orb_true_r.
Qed.

Lemma replaceSeps_free (s t : list ascii) (b : bool) :
  sepFree s ->
  replaceSeps b (s ++ t)
  = s ++ replaceSeps (match s with [] => b | _ => false end) t.
Proof.
  intros Hs. revert b.
  induction Hs as [|c s Hc _ IH]; intros b; [reflexivity|].
  cbn [app replaceSeps]. rewrite Hc, IH. now destruct s.
Qed.

Lemma replaceSeps_id (s : list ascii) (b : bool) :
  sepFree s -> replaceSeps b s = s.
Proof.
  intros Hs. rewrite <- (app_nil_r s) at 1.
  rewrite replaceSeps_free by assumption. cbn. apply app_nil_r.
Qed.

(** The three shapes of a canonical name. *)
Lemma transformL_shape (p : list ascii) :
  transformL p = chars project_root_json
  \/ (isConventional (chars (flattenedToken (pack p))) = true
      /\ transformL p = chars (flattenedToken (pack p)) ++ chars "-root.json")
  \/ transformL p = chars (flattenedToken (pack p)) ++ chars ".json".
Proof.
  unfold transformL, flattenedToken. rewrite !chars_pack.
  destruct (_ || _); [now left|].
  destruct (isConventional _) eqn:E; [right; left | right; right]; auto.
Qed.

Lemma transform_ends_json (p : string) :
  endsWith ".json" (transformPathToFilename p) = true.
Proof.
  unfold endsWith, transformPathToFilename. rewrite chars_pack.
  destruct (transformL_shape (chars p)) as [-> | [(_ & ->) | ->]].
  - reflexivity.
  - change (chars "-root.json") with (chars "-root" ++ chars ".json").
    rewrite app_assoc. apply endsWithL_app.
  - apply endsWithL_app.
Qed.

(** X8: the canonical name of any path ends in [.json] and holds no path
    separator, so the canonical file lies in the master index itself: the
    relocation never needs, and never creates, a directory below it. *)
Theorem canonical_file_is_flat (p : string) :
  endsWith ".json" (transformPathToFilename p) = true
  /\ sepFree (chars (transformPathToFilename p))
  /\ Path.dirname (MergerSpec.destOf p) = PreCommit.MASTER_INDEX_DIR.
Proof.
  split; [|split].
  - apply transform_ends_json.
  - unfold transformPathToFilename. rewrite chars_pack.
    apply transformL_sepFree.
  - apply PreCommitFrames.dirname_destOf.
Qed.

(** X2: the post-commit filter recognizes the canonical names that the
    pre-commit script gives to its artifacts: the name of the project root,
    the names of the conventional directories, and every other name whose
    flattened token is made of letters, digits, hyphens and underscores,
    unless the name starts with [package], [tsconfig] or [eslint]. *)
Theorem canonical_name_is_recognized (p : string) :
  let name := transformPathToFilename p in
  forallb isWordChar (chars (flattenedToken p)) = true ->
  flattenedToken p <> "" ->
  startsWith "package" name = false ->
  startsWith "tsconfig" name = false ->
  startsWith "eslint" name = false ->
  isIndexFile name = true.
Proof.
  intros name Hword Hne Hp Ht He. subst name.
  pose proof (transform_ends_json p) as Hjson.
  unfold isIndexFile. rewrite Hjson, Hp, Ht, He. cbn [andb negb].
  unfold transformPathToFilename.
  destruct (transformL_shape (chars p)) as [-> | [(_ & E) | E]].
  - reflexivity.
  - rewrite E. unfold includes. rewrite !chars_pack.
    rewrite (includesL_app _ (chars "-root.json")).
    rewrite !orb_true_r. reflexivity.
  - rewrite pack_chars in E. rewrite E.
    assert (Hm : matchesPlainJson
                   (pack (chars (flattenedToken p) ++ chars ".json")) = true).
    { unfold matchesPlainJson, endsWith. rewrite !chars_pack.
      rewrite endsWithL_app, length_app.
      change (length (chars ".json")) with 5.
      replace (length (chars (flattenedToken p)) + 5 - 5)
        with (length (chars (flattenedToken p)) + 0) by lia.
      rewrite firstn_app_2. cbn [firstn]. rewrite app_nil_r, Hword.
      rewrite bool_decide_eq_false_2; [reflexivity|].
      intros Enil. apply Hne. rewrite <- (pack_chars (flattenedToken p)).
      now rewrite Enil. }
    rewrite Hm. cbn [andb]. now rewrite !orb_true_r.
Qed.

(** The canonical name of a file two plain directories deep. *)
Lemma transformL_flat (c : ascii) (d f : list ascii) :
  isLeading c = false -> slashFree f -> f <> [] ->
  ~ In (pack (replaceSeps false (c :: d))) conventional ->
  transformL ((c :: d) ++ "/"%char :: f)
  = replaceSeps false (c :: d) ++ chars ".json".
Proof.
  intros Hc Hf Hne Hconv.
  assert (Hslash : isSlash c = false).
  { unfold isLeading in Hc. unfold isSlash.
    now apply orb_false_iff in Hc as [_ ->]. }
  assert (Hdot : eqc c "." = false).
  { unfold isLeading in Hc.
    apply orb_false_iff in Hc as [Hc _]. now apply orb_false_iff in Hc. }
  unfold transformL. rewrite dirnameL_join by assumption.
  cbn [pack string_of_list_ascii String.eqb]. unfold eqc in Hdot.
  rewrite Hdot. cbn [andb orb stripLeading]. rewrite Hc.
  now rewrite isConventional_false.
Qed.

(** X9: the flattening is not injective.  A directory [a/b] and a
    directory [a-b] beside [a], for components [a] and [b] without a
    separator, get the same canonical name, so the artifacts of the two
    overwrite each other in the master index. *)
Theorem flattening_collides (a b f : string) :
  match chars a with c :: _ => isLeading c = false | [] => False end ->
  sepFree (chars a) -> sepFree (chars b) -> b <> "" ->
  slashFree (chars f) -> f <> "" ->
  ~ In (a ++ "-" ++ b)%string conventional ->
  (a ++ "/" ++ b ++ "/" ++ f)%string <> (a ++ "-" ++ b ++ "/" ++ f)%string
  /\ transformPathToFilename (a ++ "/" ++ b ++ "/" ++ f)
     = transformPathToFilename (a ++ "-" ++ b ++ "/" ++ f)
  /\ transformPathToFilename (a ++ "/" ++ b ++ "/" ++ f)
     = (a ++ "-" ++ b ++ ".json")%string.
Proof.
  intros Ha Hsa Hsb Hb Hsf Hf Hconv.
  destruct (chars a) as [|c a'] eqn:Ea; [contradiction|].
  assert (Hf' : chars f <> []).
  { intros E. apply Hf. now rewrite <- (pack_chars f), E. }
  assert (Hslash : replaceSeps false (c :: a' ++ "/"%char :: chars b)
                   = c :: a' ++ "-"%char :: chars b).
  { change (c :: a' ++ "/"%char :: chars b)
      with ((c :: a') ++ "/"%char :: chars b).
    rewrite replaceSeps_free by assumption. cbn [replaceSeps isSep eqc].
    cbn. now rewrite replaceSeps_id. }
  assert (Hhyphen : replaceSeps false (c :: a' ++ "-"%char :: chars b)
                    = c :: a' ++ "-"%char :: chars b).
  { apply replaceSeps_id.
    change (c :: a' ++ "-"%char :: chars b)
      with ((c :: a') ++ "-"%char :: chars b).
    apply Forall_app. split; [assumption|]. now constructor. }
  assert (Hname : pack (c :: a' ++ "-"%char :: chars b)
                  = (a ++ "-" ++ b)%string).
  { rewrite <- (pack_chars (a ++ "-" ++ b)%string), !chars_append, Ea.
    reflexivity. }
  assert (Hone : transformL (chars (a ++ "/" ++ b ++ "/" ++ f)%string)
                 = (c :: a' ++ "-"%char :: chars b) ++ chars ".json").
  { rewrite !chars_append, Ea. cbn [chars list_ascii_of_string app].
    change (c :: a' ++ "/"%char :: chars b ++ "/"%char :: chars f)
      with (c :: (a' ++ "/"%char :: chars b ++ "/"%char :: chars f)).
    replace (c :: (a' ++ "/"%char :: chars b ++ "/"%char :: chars f))
      with ((c :: a' ++ "/"%char :: chars b) ++ "/"%char :: chars f)
      by (cbn [app]; now rewrite <- app_assoc).
    rewrite transformL_flat; rewrite ?Hslash; try assumption.
    - reflexivity.
    - now rewrite Hname. }
  assert (Htwo : transformL (chars (a ++ "-" ++ b ++ "/" ++ f)%string)
                 = (c :: a' ++ "-"%char :: chars b) ++ chars ".json").
  { rewrite !chars_append, Ea. cbn [chars list_ascii_of_string app].
    replace (c :: (a' ++ "-"%char :: chars b ++ "/"%char :: chars f))
      with ((c :: a' ++ "-"%char :: chars b) ++ "/"%char :: chars f)
      by (cbn [app]; now rewrite <- app_assoc).
    rewrite transformL_flat; rewrite ?Hhyphen; try assumption.
    - reflexivity.
    - now rewrite Hname. }
  split; [|split].
  - intros E. apply (f_equal chars) in E. rewrite !chars_append, Ea in E.
    cbn [chars list_ascii_of_string app] in E.
    injection E as E. apply app_inv_head in E. discriminate.
  - unfold transformPathToFilename. now rewrite Hone, Htwo.
  - unfold transformPathToFilename. rewrite Hone.
    rewrite <- (pack_chars (a ++ "-" ++ b ++ ".json")%string).
    rewrite !chars_append, Ea. cbn [chars list_ascii_of_string app].
    now rewrite <- app_assoc.
Qed.

End CanonicalNames.

(** ** Frames of the post-commit script *)

Module PostCommitFrames.
Import Sys Str StrOps Node Handoff PostCommit DiskSpec FrameFacts.
Local Open Scope string_scope.

Section Readers.
Context `{Json} {R : World -> World -> Prop} `{!Frame R}.
Variable cfg : ScriptConfig.

Lemma keeps_post_logger (l : Level) : keeps R (logger cfg l).
Proof. apply keeps_log. Qed.

Lemma keeps_post_executeCommand (command : string) (timeout : option N)
  (retries : option nat) :
  keeps R (executeCommand cfg command timeout retries).
Proof. apply keeps_runner. Qed.

#[local] Hint Resolve keeps_post_logger keeps_post_executeCommand : frames.

Lemma keeps_loadCommitMetadata : keeps R (loadCommitMetadata cfg).
Proof. unfold loadCommitMetadata. frame. Qed.

Lemma keeps_visitEntry (e : Dirent) : forall dir, keeps R (visitEntry dir e).
Proof.
  induction e as [name|name children IH|name] using TreeFacts.Dirent_nested_ind;
    intros dir; cbn [visitEntry]; frame.
  set (d := join dir _). clearbody d.
  induction IH as [|x rest Hx _ IHrest]; frame.
Qed.

Lemma keeps_visitAll (entries : list Dirent) :
  forall dir, keeps R (visitAll dir entries).
Proof.
  induction entries as [|e rest IH]; intros dir; cbn [visitAll]; frame.
  apply keeps_visitEntry.
Qed.

#[local] Hint Resolve keeps_visitAll : frames.

Lemma keeps_hasLlmReadmeFiles : keeps R (hasLlmReadmeFiles cfg).
Proof. unfold hasLlmReadmeFiles, findIndexFiles. frame. Qed.

#[local] Hint Resolve keeps_hasLlmReadmeFiles keeps_loadCommitMetadata : frames.

Lemma keeps_commitLlmReadmeFiles (metadata : CommitMetadata) :
  keeps R (commitLlmReadmeFiles cfg metadata).
Proof. unfold commitLlmReadmeFiles. frame. Qed.

#[local] Hint Resolve keeps_commitLlmReadmeFiles : frames.

Lemma keeps_mainBody : keeps R (mainBody cfg).
Proof. unfold mainBody. frame. Qed.

End Readers.

Section Writers.
Context `{Json} {R : World -> World -> Prop} {allowed : FsCall -> Prop}
  `{!Disk R allowed}.
Variable cfg : ScriptConfig.
Hypothesis Hunlink : allowed (CUnlink METADATA_PATH).

Lemma keeps_cleanupMetadata : keeps R (cleanupMetadata cfg).
Proof. unfold cleanupMetadata. frame. Qed.

Lemma keeps_post_main : keeps R (main cfg).
Proof.
  unfold main. apply keeps_try_finally; [|apply keeps_cleanupMetadata].
  apply keeps_try_catch; [apply keeps_mainBody|]. intros e. frame.
Qed.

End Writers.

End PostCommitFrames.

Module PhaseBSafety.
Import Sys Str StrOps Node Handoff PostCommit DiskSpec FrameFacts
  PostCommitFrames.
Local Open Scope string_scope.

Section Script.
Context `{Json}.
Variable cfg : ScriptConfig.

Lemma handler_within (l : Level) (w : World) :
  within postCommitCall w
    (snd ((logger cfg l >> cleanupMetadata cfg >> @process_exit unit 0)%sys w)).
Proof.
  unfold bind at 1. unfold logger at 1, log at 1.
  pose proof (frame_print (R := within postCommitCall) w (logLevel cfg) l)
    as H1.
  set (w1 := advance w 0 _) in *. unfold bind.
  destruct (keeps_cleanupMetadata (R := within postCommitCall)
              (allowed := postCommitCall) cfg eq_refl w1) as [H2 _].
  destruct (cleanupMetadata cfg w1) as [[[]|e|n] w2]; cbn [snd] in *;
    try (eapply frame_trans; eassumption).
  eapply frame_trans; [eassumption|].
  eapply frame_trans; [eassumption|].
  apply within_quiet; [|reflexivity]. cbn.
  now rewrite fsCalls_app, app_nil_r.
Qed.

(** X4: the post-commit script changes the disk by one call only, the
    unlink of the metadata file: in [main], in the handlers of the signals
    and in the handler of a rejection.  Every other file is as before. *)
Theorem post_commit_disk_calls (w : World) :
  within postCommitCall w (snd (main cfg w))
  /\ (forall s, within postCommitCall w (snd (onSignal cfg s w)))
  /\ (forall error, within postCommitCall w (snd (onRejection cfg error w))).
Proof.
  split; [|split].
  - apply (keeps_post_main (R := within postCommitCall)
             (allowed := postCommitCall) cfg eq_refl).
  - intros s. apply handler_within.
  - intros error. apply handler_within.
Qed.

End Script.

End PhaseBSafety.

(** ** The shape of the targets *)

Module ResolverShape.
Import Sys Str StrOps Node Handoff PreCommit ResolverSpec ResolverFacts
  FrameFacts PreCommitFrames.
Local Open Scope string_scope.

Lemma member_In (x : string) (l : list string) :
  member x l = true <-> In x l.
Proof.
  unfold member. rewrite List.existsb_exists. split.
  - intros (y & Hy & E). apply String.eqb_eq in E. now subst.
  - intros Hx. exists x. split; [assumption | apply String.eqb_refl].
Qed.

Lemma setAdd_NoDup (x : string) (s : list string) :
  List.NoDup s -> List.NoDup (setAdd x s).
Proof.
  intros Hs. unfold setAdd. destruct (member x s) eqn:E; [assumption|].
  apply List.NoDup_app; [assumption | repeat constructor; intros [] |].
  intros y Hy [<- | []]. apply member_In in Hy. congruence.
Qed.

Lemma targetPathsOf_NoDup (stagedFiles : list string) :
  List.NoDup (targetPathsOf stagedFiles).
Proof.
  unfold targetPathsOf.
  enough (Hgen : forall acc, List.NoDup acc ->
             List.NoDup
               (fold_left
                  (fun targetPaths file =>
                     let parentDir := Path.dirname file in
                     if negb (String.eqb parentDir ".")
                     then setAdd parentDir targetPaths
                     else setAdd file targetPaths)
                  stagedFiles acc)).
  { apply Hgen. constructor. }
  induction stagedFiles as [|f l IH]; intros acc Hacc; [assumption|].
  cbn [fold_left]. apply IH.
  destruct (negb _); now apply setAdd_NoDup.
Qed.

Lemma trim_empty (f : string) : nonEmpty (trim f) = true -> nonEmpty f = true.
Proof. destruct f; [discriminate | reflexivity]. Qed.

Lemma nonEmpty_true (s : string) : nonEmpty s = true <-> s <> "".
Proof.
  unfold nonEmpty. rewrite negb_true_iff. split.
  - intros E ->. discriminate.
  - intros Hs. now apply String.eqb_neq.
Qed.

Section Resolver.
Context `{Json}.
Variable cfg : ScriptConfig.

(** X14: [getStagedFiles] reads only and never throws.  When git fails it
    returns the empty list; otherwise it returns exactly the lines of the
    trimmed output of git that are not blank and do not start with
    [master-index/]. *)
Theorem staged_files_filtered (w : World) :
  exists files w',
    getStagedFiles cfg w = (Ok files, w')
    /\ readOnly w w'
    /\ (forall code message,
          oracle w (spawned w) stagedCommand = ExecFail code message ->
          files = [])
    /\ (forall out,
          oracle w (spawned w) stagedCommand = ExecOk out ->
          forall f,
            In f files
            <-> In f (split newline (trim out))
                /\ trim f <> "" /\ startsWith "master-index/" f = false).
Proof.
  destruct (getStagedFiles_run cfg w) as (w' & E).
  exists (stagedIn w), w'. split; [exact E|]. split.
  { replace w' with (snd (getStagedFiles cfg w)) by now rewrite E.
    apply (keeps_getStagedFiles (R := readOnly)). }
  unfold stagedIn. split.
  - intros code message ->. reflexivity.
  - intros out -> f. unfold stagedOf.
    destruct (negb (nonEmpty out) || (String.length (trim out) =? 0)%nat)
      eqn:Eblank.
    + assert (Et : trim out = "").
      { apply orb_true_iff in Eblank as [E0 | E0].
        - apply negb_true_iff in E0. unfold nonEmpty in E0.
          apply negb_false_iff, String.eqb_eq in E0. now subst.
        - apply Nat.eqb_eq in E0. now destruct (trim out). }
      rewrite Et. cbn. split; [intros [] | intros ([<- | []] & Hf & _)].
      now apply Hf.
    + rewrite List.filter_In, !andb_true_iff, negb_true_iff, !nonEmpty_true.
      split.
      * intros (Hin & (_ & Ht) & Hs). auto.
      * intros (Hin & Ht & Hs). repeat split; try assumption.
        apply nonEmpty_true, trim_empty, nonEmpty_true, Ht.
Qed.

(** X13: [determineTargetDirectories] reads only, and the list it returns
    is never empty: the generator always gets a target.  When no target is
    configured, the list has no duplicate, and no element of it is an
    excluded directory or lies below one. *)
Theorem targets_well_formed (w : World) :
  exists dirs w',
    determineTargetDirectories cfg w = (Ok dirs, w')
    /\ readOnly w w'
    /\ dirs <> []
    /\ (targetDirectories cfg = [] ->
        List.NoDup dirs /\ Forall (fun dir => keepPath dir = true) dirs).
Proof.
  pose proof (determine_result cfg w) as E.
  destruct (determineTargetDirectories cfg w) as [r w'] eqn:Erun.
  cbn [fst] in E. subst r. exists (resolved cfg w), w'.
  split; [reflexivity|]. split.
  { replace w' with (snd (determineTargetDirectories cfg w)) by now rewrite Erun.
    apply (keeps_determineTargetDirectories (R := readOnly)). }
  unfold resolved, scopeOf.
  destruct (targetDirectories cfg) as [|d ds]; [|split; [discriminate|easy]].
  assert (Hroot : List.NoDup ["."]
                  /\ Forall (fun dir => keepPath dir = true) ["."]).
  { split; repeat constructor. intros []. }
  destruct (indexMissingOrEmpty w); [split; [discriminate | auto]|].
  destruct (stagedIn w) as [|f fs]; [split; [discriminate | auto]|].
  destruct (List.filter keepPath (targetPathsOf (f :: fs))) as [|x xs] eqn:Ef;
    [split; [discriminate | auto]|].
  split; [discriminate|]. intros _. rewrite <- Ef. split.
  - apply List.NoDup_filter, targetPathsOf_NoDup.
  - apply List.Forall_forall. intros y Hy. now apply List.filter_In in Hy.
Qed.

End Resolver.

End ResolverShape.

(** ** The check for a generator *)

Module GeneratorFacts.
Import Sys Str StrOps Node Handoff PreCommit GeneratorSpec RunnerFacts
  PhaseBFacts RunnerBounds.
Local Open Scope string_scope.

#[local] Arguments trim : simpl never.
#[local] Arguments nonEmpty : simpl never.
#[local] Arguments segments : simpl never.
#[local] Arguments lookupDir : simpl never.
#[local] Arguments isDirectory : simpl never.
#[local] Arguments isFile : simpl never.
#[local] Arguments showNat : simpl never.
#[local] Arguments String.append : simpl never.
#[local] Arguments join : simpl never.
#[local] Arguments printed : simpl never.

Lemma actionsOf_printed (lvl : LogLevel) (l : Level) :
  actionsOf (printed lvl l) = [].
Proof. now destruct lvl, l. Qed.

(** A call with a budget of one attempt. *)
Lemma runner_once (lvl : LogLevel) (dT : N) (dR : nat) (command : string)
  (t : option N) (w : World) :
  exists tr,
    CommandRunner.executeCommand lvl dT dR command t (Some 1) w
    = (PhaseBSpec.once (oracle w (spawned w) command), advance w 1 tr)
    /\ actionsOf tr = [EvExec command (default dT t)]
    /\ commandsOf tr = [command].
Proof.
  unfold CommandRunner.executeCommand, PhaseBSpec.once.
  cbn [default CommandRunner.attemptsFrom Nat.eqb].
  unfold bind, log, execSync. cbn.
  destruct (oracle w (spawned w) command); cbn;
    (eexists; split; [unfold advance; cbn; rewrite <- ?app_assoc; reflexivity|]);
    rewrite !actionsOf_app, !commandsOf_app, !actionsOf_printed,
      !commandsOf_printed; split; reflexivity.
Qed.

Lemma dockerReady_advance (w : World) (tr : list Event) :
  dockerReady (advance w 0 tr) = dockerReady w.
Proof.
  unfold dockerReady, dockerAnswers, advance. cbn [oracle spawned Nat.add].
  reflexivity.
Qed.

Lemma localReady_advance (w : World) (n : nat) (tr : list Event) :
  localReady (advance w n tr) = localReady w.
Proof. unfold localReady. apply exists_advance. Qed.

Lemma probes_advance (w : World) (tr : list Event) :
  probes (advance w 0 tr) = probes w.
Proof.
  unfold probes, dockerAnswers, advance. cbn [oracle spawned Nat.add].
  reflexivity.
Qed.

Section Script.
Context `{Json}.
Variable cfg : ScriptConfig.

Ltac probe_step :=
  unfold executeCommand;
  match goal with
  | |- context [CommandRunner.executeCommand ?l ?dT ?dR ?c ?t (Some 1) ?W] =>
      let tr := fresh "tr" in
      let Ha := fresh "Ha" in
      let Hc := fresh "Hc" in
      destruct (runner_once l dT dR c t W) as (tr & Ha & Hc);
      rewrite Ha; clear Ha;
      cbn [advance oracle spawned Nat.add]
  end.

Ltac close_probe :=
  eexists; split; [rewrite ?advance_advance; reflexivity|];
  rewrite ?actionsOf_app, ?actionsOf_printed;
  repeat match goal with H : actionsOf _ = _ /\ _ |- _ => destruct H as [-> _] end;
  reflexivity.

(** The check for a generator, as a function of the world. *)
Lemma validate_run (useDocker : bool) (w : World) :
  exists tr,
    validateLlmGenerator cfg useDocker w
    = (Ok (if dockerReady w then (true, true)
           else if localReady w then (true, false)
           else (false, useDocker)),
       advance w (length (probes w)) tr)
    /\ actionsOf tr = probes w.
Proof.
  unfold probes, dockerReady, dockerAnswers, localReady.
  unfold validateLlmGenerator, try_catch, existsSync, ask, logger, log, bind,
    ret, throw.
  cbn beta iota.
  probe_step.
  destruct (oracle w (spawned w) dockerVersion) as [dockerCheck|code message];
    cbn [PhaseBSpec.once andb]; cbn beta iota.
  - destruct (nonEmpty dockerCheck && nonEmpty (trim dockerCheck));
      cbn [andb]; cbn beta iota.
    + probe_step.
      destruct (oracle w (S (spawned w)) dockerInspect) as [out|code message];
        cbn [PhaseBSpec.once]; cbn beta iota; [close_probe|].
      rewrite !exists_advance.
      destruct (isFile w LLM_GENERATOR_FILE || isDirectory w LLM_GENERATOR_FILE);
        close_probe.
    + rewrite !exists_advance.
      destruct (isFile w LLM_GENERATOR_FILE || isDirectory w LLM_GENERATOR_FILE);
        close_probe.
  - rewrite !exists_advance.
    destruct (isFile w LLM_GENERATOR_FILE || isDirectory w LLM_GENERATOR_FILE);
      close_probe.
Qed.

(** X16: [validateLlmGenerator] never throws.  It asks for the version of
    Docker and, when there is an answer, inspects the image, each with one
    attempt of at most five seconds and without a wait, and runs nothing
    else.  Docker comes first: when both probes succeed it returns [true]
    with [config.useDocker] set; otherwise the local executable decides,
    with [config.useDocker] cleared when it is there and left as it was
    when it is not. *)
Theorem generator_priorities (useDocker : bool) (w : World) :
  let r := validateLlmGenerator cfg useDocker w in
  (exists tr,
      snd r = advance w (length (probes w)) tr /\ actionsOf tr = probes w)
  /\ (dockerReady w = true -> fst r = Ok (true, true))
  /\ (dockerReady w = false -> localReady w = true ->
      fst r = Ok (true, false))
  /\ (dockerReady w = false -> localReady w = false ->
      fst r = Ok (false, useDocker)).
Proof.
  destruct (validate_run useDocker w) as (tr & E & Ha).
  cbv zeta. rewrite E. cbn [fst snd]. split; [eauto|].
  repeat split.
  - now intros ->.
  - now intros -> ->.
  - now intros -> ->.
Qed.

(** X19: without Docker and without the local executable, [main] of the
    pre-commit script ends after the probes of the check: it runs no other
    process, and the files and the listing are as before. *)
Theorem no_generator_no_run (cwd : string) (win32 : bool) (w : World) :
  dockerReady w = false -> localReady w = false ->
  exists tr,
    main cfg cwd win32 w = (Ok tt, advance w (length (probes w)) tr)
    /\ actionsOf tr = probes w.
Proof.
  intros Hd Hl.
  unfold main, try_catch, logger, log, bind. cbn beta iota.
  match goal with
  | |- context [validateLlmGenerator cfg ?u ?W] =>
      destruct (validate_run u W) as (tr & E & Ha)
  end.
  rewrite !advance_advance in E.
  rewrite dockerReady_advance, localReady_advance, probes_advance in E.
  rewrite !advance_advance.
  rewrite E, Hd, Hl. cbn [fst snd negb]. cbn beta iota.
  rewrite !advance_advance. rewrite !Nat.add_0_r.
  eexists. split; [reflexivity|].
  now rewrite !actionsOf_app, !actionsOf_printed, Ha, app_nil_r.
Qed.

End Script.

End GeneratorFacts.

(** ** Staging *)

Module StagingFacts.
Import Sys Str StrOps Node Handoff PreCommit GeneratorSpec ResolverSpec
  RunnerFacts PhaseBFacts.
Local Open Scope string_scope.

#[local] Arguments trim : simpl never.
#[local] Arguments nonEmpty : simpl never.
#[local] Arguments segments : simpl never.
#[local] Arguments lookupDir : simpl never.
#[local] Arguments isDirectory : simpl never.
#[local] Arguments isFile : simpl never.
#[local] Arguments showNat : simpl never.
#[local] Arguments String.append : simpl never.
#[local] Arguments join : simpl never.
#[local] Arguments printed : simpl never.



Section Script.
Context `{Json}.
Variable cfg : ScriptConfig.


End Script.

End StagingFacts.

(** ** Runs of the merger *)

Module MergerRuns.
Import Sys Str StrOps Node Handoff PreCommit MergerSpec DiskSpec FrameFacts
  PreCommitFrames RunnerFacts PhaseBFacts MergerFacts.
Local Open Scope string_scope.

#[local] Arguments bind : simpl never.
#[local] Arguments join : simpl never.
#[local] Arguments member : simpl never.
#[local] Arguments existsb : simpl never.
#[local] Arguments printed : simpl never.

#[export] Instance settled_frame : Frame settled.
Proof.
  split; try (intros; now repeat split).
  unfold settled. intuition congruence.
Qed.

#[export] Instance settled_disk (allowed : FsCall -> Prop) :
  Disk settled allowed.
Proof.
  split; [exact settled_frame | ..]; intros; intros w;
    (split; [|]).
  all: try (unfold writeFileSync, unlinkSync, renameSync, copyFileSync,
              mkdirSync; call_cases; discriminate).
  all: unfold writeFileSync, unlinkSync, renameSync, copyFileSync, mkdirSync;
    call_cases; now repeat split.
Qed.

Lemma settled_grants (w w' : World) : settled w w' -> grants w -> grants w'.
Proof. intros (_ & Hr & _) Hg call. rewrite Hr. apply Hg. Qed.

Lemma grants_advance (w : World) (n : nat) (tr : list Event) :
  grants w -> grants (advance w n tr).
Proof. intros Hg call. apply Hg. Qed.

Lemma logEach_advance {A} (lvl : LogLevel) (l : Level) (items : list A)
  (w : World) :
  exists tr, logEach lvl l items w = (Ok tt, advance w 0 tr).
Proof.
  revert w. induction items as [|x items IH]; intros w.
  - exists []. now rewrite advance_nothing.
  - cbn [logEach]. unfold bind, log.
    destruct (IH (advance w 0 (printed lvl l))) as (tr & ->).
    eexists. now rewrite advance_advance.
Qed.

(** The walk returns when no [readdir] is refused, and leaves the world as
    it is. *)
Lemma walkEntry_granted (e : Dirent) :
  forall dir w, grants w -> exists files, walkEntry dir e w = (Ok files, w).
Proof.
  induction e as [name|name children IH|name] using TreeFacts.Dirent_nested_ind;
    intros dir w Hg; cbn [walkEntry entryName].
  - destruct (member name readmeFileNames); eexists; reflexivity.
  - destruct (member name ignoredDirs); [eexists; reflexivity|].
    destruct (existsb _ ignoredDirs); [eexists; reflexivity|].
    unfold bind at 1. unfold refused, ask. rewrite Hg.
    set (d := join dir name). clearbody d.
    induction IH as [|x rest Hx _ IHrest]; [eexists; reflexivity|].
    unfold bind at 1. destruct (Hx d w Hg) as (xs & ->).
    unfold bind at 1. destruct IHrest as (more & ->).
    eexists. reflexivity.
  - eexists. reflexivity.
Qed.

Lemma walkAll_granted (entries : list Dirent) :
  forall dir w, grants w -> exists files, walkAll dir entries w = (Ok files, w).
Proof.
  induction entries as [|e rest IH]; intros dir w Hg; cbn [walkAll].
  - eexists. reflexivity.
  - unfold bind at 1. destruct (walkEntry_granted e dir w Hg) as (xs & ->).
    unfold bind at 1. destruct (IH dir w Hg) as (more & ->).
    eexists. reflexivity.
Qed.

Lemma bind_ok {A B} (c : M A) (k : A -> M B) (w w' : World) (a : A) :
  c w = (Ok a, w') -> bind c k w = k a w'.
Proof. intros E. unfold bind. now rewrite E. Qed.

Lemma bind_throw {A B} (c : M A) (k : A -> M B) (w w' : World) (e : string) :
  c w = (Throw e, w') -> bind c k w = (Throw e, w').
Proof. intros E. unfold bind. now rewrite E. Qed.

Lemma try_ok {A} (c : M A) (h : string -> M A) (w w' : World) (a : A) :
  c w = (Ok a, w') -> try_catch c h w = (Ok a, w').
Proof. intros E. unfold try_catch. now rewrite E. Qed.

Lemma try_throw {A} (c : M A) (h : string -> M A) (w w' : World) (e : string) :
  c w = (Throw e, w') -> try_catch c h w = h e w'.
Proof. intros E. unfold try_catch. now rewrite E. Qed.

(** Runs the log line that heads the computation of the goal. *)
Ltac step_log :=
  match goal with
  | |- context [bind (log ?lvl ?l) ?k ?w] =>
      rewrite (bind_ok (log lvl l) k w (advance w 0 (printed lvl l)) tt eq_refl)
  end.

(** The files that the walk pushes are read off the listing alone. *)
Lemma walkEntry_listed (e : Dirent) :
  forall dir,
  exists files, forall w, grants w -> walkEntry dir e w = (Ok files, w).
Proof.
  induction e as [name|name children IH|name] using TreeFacts.Dirent_nested_ind;
    intros dir; cbn [walkEntry entryName].
  - destruct (member name readmeFileNames); eexists; reflexivity.
  - destruct (member name ignoredDirs); [eexists; reflexivity|].
    destruct (existsb _ ignoredDirs); [eexists; reflexivity|].
    set (d := join dir name). clearbody d.
    enough (Hin : exists files, forall w,
               grants w ->
               (fix walkAll (entries : list Dirent) : M (list string) :=
                  match entries with
                  | [] => ret []
                  | e :: rest =>
                      (let! found := walkEntry d e in
                       let! more := walkAll rest in
                       ret (found ++ more)%list)%sys
                  end) children w = (Ok files, w)).
    { destruct Hin as (files & Hfiles). exists files. intros w Hg.
      unfold bind at 1. unfold refused, ask. rewrite Hg. now apply Hfiles. }
    induction IH as [|x rest Hx _ IHrest]; [eexists; reflexivity|].
    destruct (Hx d) as (xs & Hxs). destruct IHrest as (more & Hmore).
    exists (xs ++ more)%list. intros w Hg.
    unfold bind at 1. rewrite (Hxs w Hg).
    unfold bind at 1. now rewrite (Hmore w Hg).
  - eexists. reflexivity.
Qed.

Lemma walkAll_listed (entries : list Dirent) :
  forall dir,
  exists files, forall w, grants w -> walkAll dir entries w = (Ok files, w).
Proof.
  induction entries as [|e rest IH]; intros dir; cbn [walkAll].
  - eexists. reflexivity.
  - destruct (walkEntry_listed e dir) as (xs & Hxs).
    destruct (IH dir) as (more & Hmore).
    exists (xs ++ more)%list. intros w Hg.
    unfold bind at 1. rewrite (Hxs w Hg).
    unfold bind at 1. now rewrite (Hmore w Hg).
Qed.

(** The master index itself is no artifact. *)
Lemma index_not_found : ~ found MASTER_INDEX_DIR.
Proof.
  intros (dir & name & E & Hname & _).
  apply (f_equal (fun s => hd_error (rev (chars s)))) in E.
  rewrite chars_join in E.
  unfold member in Hname. apply existsb_exists in Hname as (x & Hx & En).
  apply String.eqb_eq in En. subst x.
  unfold readmeFileNames in Hx. cbn [In] in Hx.
  destruct (String.eqb dir ""); destruct Hx as [<- | [<- | []]];
    rewrite ?rev_app_distr in E; cbn in E; discriminate.
Qed.

(** A directory that is listed stays listed: the calls of the script
    make directories and never remove one. *)
Lemma listed_disk (p : string) :
  Disk (fun w w' => isDirectory w p = true -> isDirectory w' p = true)
       (fun call => match call with CMkdir q => q = p | _ => True end).
Proof.
  split; [split|..].
  - auto.
  - auto.
  - intros w lvl l. exact (fun H => H).
  - intros w command timeout. unfold execSync.
    destruct (oracle _ _ _); exact (fun H => H).
  - intros w ms. exact (fun H => H).
  - intros q content _ w. unfold writeFileSync. call_cases;
      (split; [exact (fun H => H) | discriminate]).
  - intros q _ w. unfold unlinkSync. call_cases;
      (split; [exact (fun H => H) | discriminate]).
  - intros src dst _ w. unfold renameSync. call_cases;
      (split; [exact (fun H => H) | discriminate]).
  - intros src dst _ w. unfold copyFileSync. call_cases;
      (split; [exact (fun H => H) | discriminate]).
  - intros q -> w. unfold mkdirSync. call_cases;
      (split; [|discriminate]); [exact (fun H => H)|].
    intros _. unfold isDirectory. cbn [tree].
    apply bool_decide_eq_true_2, DirectoryFacts.lookupDir_mkdirp.
Qed.

Section Script.
Context `{Json}.
Variable cfg : ScriptConfig.

Lemma findLlmReadmeFiles_granted (w : World) :
  grants w ->
  exists files tr, findLlmReadmeFiles cfg w = (Ok files, advance w 0 tr).
Proof.
  intros Hg.
  destruct (walkAll_granted (tree w) PROJECT_ROOT
              (advance w 0 (printed (logLevel cfg) Verbose))
              (grants_advance _ _ _ Hg)) as (files & E).
  assert (Ewalk : walkDirectory PROJECT_ROOT
                    (advance w 0 (printed (logLevel cfg) Verbose))
                  = (Ok files, advance w 0 (printed (logLevel cfg) Verbose))).
  { unfold walkDirectory, readdirSync, refused, ask.
    unfold bind at 1 2. cbn [advance refuses]. rewrite Hg.
    unfold bind at 1. cbn [advance tree].
    change (lookupDir (segments PROJECT_ROOT) (tree w)) with (Some (tree w)).
    unfold ret at 1. exact E. }
  destruct (logEach_advance (logLevel cfg) Info files
              (advance
                 (advance (advance w 0 (printed (logLevel cfg) Verbose)) 0
                    (printed (logLevel cfg) Verbose)) 0
                 (printed (logLevel cfg) Info))) as (tr & Elog).
  exists files. unfold findLlmReadmeFiles, logger.
  destruct (0 <? length files)%nat eqn:Elen.
  - eexists. apply try_ok. step_log. rewrite (bind_ok _ _ _ _ _ Ewalk).
    step_log. rewrite Elen.
    erewrite bind_ok; [|step_log; exact Elog].
    unfold ret. rewrite !advance_advance. reflexivity.
  - eexists. apply try_ok. step_log. rewrite (bind_ok _ _ _ _ _ Ewalk).
    step_log. rewrite Elen.
    erewrite bind_ok; [|reflexivity].
    unfold ret. rewrite !advance_advance. reflexivity.
Qed.

Lemma merge_granted (w : World) :
  grants w ->
  exists r w',
    processLlmReadmeFiles cfg w = (Ok r, w')
    /\ settled w w'
    /\ (r = None -> exists tr, w' = advance w 0 tr).
Proof.
  intros Hg.
  enough (Hrun : exists r w',
             processLlmReadmeFiles cfg w = (Ok r, w')
             /\ (r = None -> exists tr, w' = advance w 0 tr)).
  { destruct Hrun as (r & w' & E & Hnone). exists r, w'.
    split; [exact E|]. split; [|exact Hnone].
    replace w' with (snd (processLlmReadmeFiles cfg w)) by now rewrite E.
    apply (keeps_processLlmReadmeFiles (R := settled)
             (allowed := fun _ => True) cfg); auto. }
  unfold processLlmReadmeFiles, logger.
  destruct (findLlmReadmeFiles_granted
              (advance w 0 (printed (logLevel cfg) Highlight))
              (grants_advance _ _ _ Hg)) as (files & tr & Efind).
  destruct (length files =? 0)%nat eqn:Elen.
  - exists None. eexists. split.
    + apply try_ok. step_log. rewrite (bind_ok _ _ _ _ _ Efind), Elen.
      step_log. unfold bind, log, ret. rewrite !advance_advance. reflexivity.
    + intros _. eexists. reflexivity.
  - match type of Efind with
    | _ = (_, ?W) =>
        destruct (DirectoryFacts.ensure_granted cfg MASTER_INDEX_DIR
                    (advance W 0 (printed (logLevel cfg) Info)))
          as (w2 & Eensure & _ & _); [apply Hg|]
    end.
    destruct (processAll_frame cfg files zero
                (advance w2 0 (printed (logLevel cfg) Info)))
      as (c & w3 & Eall & _).
    exists (Some c). eexists. split; [|discriminate].
    apply try_ok. step_log. rewrite (bind_ok _ _ _ _ _ Efind), Elen.
    step_log. unfold logger in Eensure. rewrite (bind_ok _ _ _ _ _ Eensure).
    step_log. rewrite (bind_ok _ _ _ _ _ Eall).
    repeat step_log. unfold ret. reflexivity.
Qed.

Lemma search_listed (w : World) :
  grants w ->
  exists files,
    Forall found files
    /\ forall v,
         grants v -> tree v = tree w ->
         exists tr, findLlmReadmeFiles cfg v = (Ok files, advance v 0 tr).
Proof.
  intros Hg.
  destruct (walkAll_listed (tree w) PROJECT_ROOT) as (files & Hwalk).
  assert (Hrun : forall v,
             grants v -> tree v = tree w ->
             exists tr, findLlmReadmeFiles cfg v = (Ok files, advance v 0 tr)).
  { intros v Hv Et.
    assert (Ewalk : walkDirectory PROJECT_ROOT
                      (advance v 0 (printed (logLevel cfg) Verbose))
                    = (Ok files, advance v 0 (printed (logLevel cfg) Verbose))).
    { unfold walkDirectory, readdirSync, refused, ask.
      unfold bind at 1 2. cbn [advance refuses]. rewrite Hv.
      unfold bind at 1. cbn [advance tree].
      change (lookupDir (segments PROJECT_ROOT) (tree v)) with (Some (tree v)).
      unfold ret at 1. rewrite Et. apply Hwalk.
      now apply (grants_advance v 0). }
    destruct (logEach_advance (logLevel cfg) Info files
                (advance
                   (advance (advance v 0 (printed (logLevel cfg) Verbose)) 0
                      (printed (logLevel cfg) Verbose)) 0
                   (printed (logLevel cfg) Info))) as (tr & Elog).
    unfold findLlmReadmeFiles, logger.
    destruct (0 <? length files)%nat eqn:Elen.
    - eexists. apply try_ok. step_log. rewrite (bind_ok _ _ _ _ _ Ewalk).
      step_log. rewrite Elen.
      erewrite bind_ok; [|step_log; exact Elog].
      unfold ret. rewrite !advance_advance. reflexivity.
    - eexists. apply try_ok. step_log. rewrite (bind_ok _ _ _ _ _ Ewalk).
      step_log. rewrite Elen.
      erewrite bind_ok; [|reflexivity].
      unfold ret. rewrite !advance_advance. reflexivity. }
  exists files. split; [|exact Hrun].
  destruct (Hrun w Hg eq_refl) as (tr & E).
  pose proof (yields_findLlmReadmeFiles (R := anyWorld) cfg w) as [_ Hq].
  now rewrite E in Hq.
Qed.

Lemma ensure_present (dirPath : string) (w : World) :
  refuses w (CMkdir dirPath) = false ->
  exists w',
    ensureDirectoryExists cfg dirPath w = (Ok tt, w')
    /\ files w' = files w
    /\ isFile w' dirPath || isDirectory w' dirPath = true.
Proof.
  intros Hok.
  unfold ensureDirectoryExists, try_catch, existsSync, mkdirSync, refused, ask,
    emit, setTree, logger, log, advance, bind, ret, throw.
  cbn [fst snd files tree trace refuses oracle now spawned Nat.add].
  destruct (isFile w dirPath || isDirectory w dirPath) eqn:Eex;
    cbn [negb fst snd files]; [eauto|].
  rewrite Hok. cbn [fst snd files tree trace refuses oracle now spawned].
  eexists. split; [reflexivity|]. split; [reflexivity|].
  apply orb_true_iff. right. unfold isDirectory. cbn [tree].
  apply bool_decide_eq_true_2, DirectoryFacts.lookupDir_mkdirp.
Qed.

(** X12: when the platform refuses no call, [processLlmReadmeFiles] does
    not throw.  When the search finds nothing, it returns early and has
    only logged: it makes no directory and changes no file.  Otherwise the
    master index is there when it returns, as it was or newly made, and
    the loop has run to its end over all the files found, on the files as
    they were, and its counters are the result. *)
Theorem merge_returns (w : World) :
  grants w ->
  exists artifacts r w',
    fst (findLlmReadmeFiles cfg w) = Ok artifacts
    /\ processLlmReadmeFiles cfg w = (Ok r, w')
    /\ settled w w'
    /\ (artifacts = [] -> r = None /\ exists tr, w' = advance w 0 tr)
    /\ (artifacts <> [] ->
        isFile w' MASTER_INDEX_DIR || isDirectory w' MASTER_INDEX_DIR = true
        /\ exists c w1 w2 tr,
             r = Some c
             /\ files w1 = files w
             /\ processAll cfg artifacts zero w1 = (Ok c, w2)
             /\ w' = advance w2 0 tr).
Proof.
  intros Hg.
  destruct (search_listed w Hg) as (artifacts & Hfound & Hsearch).
  destruct (Hsearch w Hg eq_refl) as (tr0 & Efind0).
  destruct (Hsearch (advance w 0 (printed (logLevel cfg) Highlight))
              (grants_advance _ _ _ Hg) eq_refl) as (tr & Efind).
  exists artifacts.
  enough (Hrun : exists r w',
             processLlmReadmeFiles cfg w = (Ok r, w')
             /\ (artifacts = [] -> r = None /\ exists tr, w' = advance w 0 tr)
             /\ (artifacts <> [] ->
                 isFile w' MASTER_INDEX_DIR || isDirectory w' MASTER_INDEX_DIR
                 = true
                 /\ exists c w1 w2 tr,
                      r = Some c
                      /\ files w1 = files w
                      /\ processAll cfg artifacts zero w1 = (Ok c, w2)
                      /\ w' = advance w2 0 tr)).
  { destruct Hrun as (r & w' & E & Hnone & Hsome). exists r, w'.
    split; [now rewrite Efind0|]. split; [exact E|].
    split; [|split; assumption].
    replace w' with (snd (processLlmReadmeFiles cfg w)) by now rewrite E.
    apply (keeps_processLlmReadmeFiles (R := settled)
             (allowed := fun _ => True) cfg); auto. }
  unfold processLlmReadmeFiles, logger.
  destruct (length artifacts =? 0)%nat eqn:Elen.
  - exists None. eexists. split; [|split].
    + apply try_ok. step_log. rewrite (bind_ok _ _ _ _ _ Efind), Elen.
      step_log. unfold bind, log, ret. rewrite !advance_advance. reflexivity.
    + intros _. split; [reflexivity|]. eexists. reflexivity.
    + intros Hne. destruct artifacts; [congruence | discriminate].
  - match type of Efind with
    | _ = (_, ?W) =>
        destruct (ensure_present MASTER_INDEX_DIR
                    (advance W 0 (printed (logLevel cfg) Info)))
          as (w2 & Eensure & F2 & P2); [apply Hg|]
    end.
    set (w2' := advance w2 0 (printed (logLevel cfg) Info)) in *.
    destruct (processAll_frame cfg artifacts zero w2')
      as (c & w3 & Eall & _ & Hstay & _).
    assert (P3 : isFile w3 MASTER_INDEX_DIR || isDirectory w3 MASTER_INDEX_DIR
                 = true).
    { assert (P2' : isFile w2' MASTER_INDEX_DIR
                    || isDirectory w2' MASTER_INDEX_DIR = true).
      { subst w2'. now rewrite exists_advance. }
      apply orb_true_iff in P2' as [Pf | Pd]; apply orb_true_iff.
      - left. unfold isFile in *. apply bool_decide_eq_true in Pf.
        apply bool_decide_eq_true_2. apply Hstay; [|exact Pf].
        intros Hin. apply index_not_found.
        now apply (proj1 (List.Forall_forall _ _) Hfound).
      - right.
        pose proof (@keeps_processAll _ _ (listed_disk MASTER_INDEX_DIR) cfg
                      eq_refl (fun _ _ => I) (fun _ _ => I) (fun _ _ => I)
                      artifacts zero Hfound w2') as [Hkeep _].
        rewrite Eall in Hkeep. now apply Hkeep. }
    exists (Some c). eexists. split; [|split].
    + apply try_ok. step_log. rewrite (bind_ok _ _ _ _ _ Efind), Elen.
      step_log. unfold logger in Eensure. rewrite (bind_ok _ _ _ _ _ Eensure).
      step_log. fold w2'. rewrite (bind_ok _ _ _ _ _ Eall).
      repeat step_log. unfold ret. rewrite !advance_advance. reflexivity.
    + intros ->. discriminate.
    + intros _. split; [now rewrite exists_advance|].
      exists c, w2', w3. eexists. repeat split; try reflexivity; assumption.
Qed.

End Script.

End MergerRuns.

(** ** Runs of phase A *)

Module PhaseARuns.
Import Sys Str StrOps Node Handoff PreCommit GeneratorSpec ResolverSpec
  MergerSpec DiskSpec FrameFacts PreCommitFrames RunnerFacts PhaseBFacts
  ResolverFacts GeneratorFacts MergerRuns.
Local Open Scope string_scope.

#[local] Arguments bind : simpl never.
#[local] Arguments join : simpl never.
#[local] Arguments printed : simpl never.
#[local] Arguments String.append : simpl never.

Lemma settled_advance (w : World) (n : nat) (tr : list Event) :
  settled w (advance w n tr).
Proof. now repeat split. Qed.

Lemma settled_succeeds (w w' : World) :
  settled w w' -> succeeds w -> succeeds w'.
Proof. intros (Ho & _) Hs n c. rewrite Ho. apply Hs. Qed.

Section Script.
Context `{Json}.
Variables (cfg : ScriptConfig) (cwd : string) (win32 : bool).

Lemma determine_settled (w : World) :
  exists dirs w',
    determineTargetDirectories cfg w = (Ok dirs, w') /\ settled w w'.
Proof.
  pose proof (determine_result cfg w) as E.
  pose proof (keeps_determineTargetDirectories (R := settled) cfg w) as [Hs _].
  destruct (determineTargetDirectories cfg w) as [r w'].
  cbn [fst snd] in *. subst r. eauto.
Qed.

(** A generator whose first attempt succeeds. *)
Lemma generator_runs (useDocker : bool) (command : string)
  (targetDirs : list string) (recursiveFlag : string) (w : World) :
  succeeds w -> 1 <= maxRetries cfg ->
  exists w',
    runGenerator cfg cwd win32 useDocker command targetDirs recursiveFlag w
    = (Ok (Some useDocker), w')
    /\ settled w w'.
Proof.
  intros Hs Hn.
  pose proof (keeps_runGenerator (R := settled) cfg cwd win32 useDocker command
                targetDirs recursiveFlag w) as [Hset _].
  enough (E : exists w',
             runGenerator cfg cwd win32 useDocker command targetDirs
               recursiveFlag w = (Ok (Some useDocker), w')).
  { destruct E as (w' & E). rewrite E in Hset. eauto. }
  unfold runGenerator, executeCommand, CommandRunner.executeCommand.
  cbn [default].
  destruct (maxRetries cfg) as [|left] eqn:En; [lia|].
  destruct (Hs (spawned w) command) as (out & Eo).
  destruct (attempt_ok (logLevel cfg) command (timeout cfg) (S left) left 1
              w out Eo) as (w1 & E1 & _).
  eexists. apply try_ok. rewrite (bind_ok _ _ _ _ _ E1).
  unfold logger. step_log. reflexivity.
Qed.

Lemma stage_two_commit (w : World) :
  createSeparateCommits cfg = true -> grants w ->
  exists w',
    stageLlmReadmeFiles cfg w = (Ok tt, w')
    /\ files w'
       = <[METADATA_PATH := JSON_stringify (HandoffSpec.fresh cfg w)]>
           (files w).
Proof.
  intros Hsep Hg.
  unfold stageLlmReadmeFiles, saveCommitMetadata. rewrite Hsep. cbn [negb].
  unfold try_catch, writeFileSync, refused, ask, emit, setFiles, logger, log,
    advance, bind, ret, throw, HandoffSpec.fresh.
  cbn [oracle refuses now spawned files tree trace Nat.add fst snd].
  rewrite Hg.
  cbn [oracle refuses now spawned files tree trace Nat.add fst snd].
  eexists. split; reflexivity.
Qed.

Lemma files_advance (w : World) (n : nat) (tr : list Event) :
  files (advance w n tr) = files w.
Proof. reflexivity. Qed.

Lemma now_advance (w : World) (n : nat) (tr : list Event) :
  now (advance w n tr) = now w.
Proof. reflexivity. Qed.

(** The command of [main], after its log lines. *)
Lemma command_chosen (useDocker : bool) (targetDirs : list string)
  (recursiveFlag : string) (w : World) :
  exists command tr,
    (if useDocker then
       (if win32 then logger cfg Verbose else ret tt) >>
       logger cfg Info >>
       ret (dockerCommand cwd targetDirs recursiveFlag)
     else
       logger cfg Info >>
       ret (localCommand (LLM_GENERATOR_PATH cwd) targetDirs recursiveFlag))%sys
      w
    = (Ok command, advance w 0 tr)
    /\ fsCalls tr = [].
Proof.
  destruct useDocker, win32; unfold logger, bind, log, ret;
    rewrite ?advance_advance; (do 2 eexists; split; [reflexivity|]);
    now rewrite ?fsCalls_app, ?fsCalls_printed.
Qed.

(** X21: when the platform refuses no call, every command succeeds, a
    generator is available and the retry budget is not zero, [main] of the
    pre-commit script in the two-commit mode returns with the hand-off
    record on disk: the metadata file holds the record of this run, for
    the post-commit script to find. *)
Theorem hand_off_prepared (w : World) :
  grants w -> succeeds w ->
  createSeparateCommits cfg = true -> 1 <= maxRetries cfg ->
  dockerReady w || localReady w = true ->
  exists w',
    main cfg cwd win32 w = (Ok tt, w')
    /\ files w' !! METADATA_PATH
       = Some (JSON_stringify (HandoffSpec.fresh cfg w)).
Proof.
  intros Hg Hs Hsep Hn Hready.
  (* the check for a generator *)
  assert (Hvalid : exists b tr n,
             validateLlmGenerator cfg (useDocker cfg)
               (advance (advance w 0 (printed (logLevel cfg) Highlight)) 0
                  (printed (logLevel cfg) Info))
             = (Ok (true, b), advance w n tr)).
  { match goal with
    | |- context [validateLlmGenerator cfg ?u ?W] =>
        destruct (validate_run cfg u W) as (tr & E & _)
    end.
    rewrite !advance_advance in E.
    rewrite dockerReady_advance, localReady_advance, probes_advance in E.
    rewrite !advance_advance. rewrite E.
    destruct (dockerReady w); [eauto|].
    destruct (localReady w); [eauto | discriminate]. }
  destruct Hvalid as (b & tr1 & n1 & E1).
  (* the targets *)
  destruct (determine_settled (advance w n1 tr1)) as (dirs & w2 & E2 & S2).
  pose proof (frame_trans _ _ _ (settled_advance w n1 tr1) S2) as Hw2.
  (* the command *)
  set (flag := if isFullScan dirs then " --recursive" else "").
  destruct (command_chosen b dirs flag
              (advance (advance w2 0 (printed (logLevel cfg) Highlight)) 0
                 (printed (logLevel cfg) Info)))
    as (command & tr3 & E3 & _).
  rewrite !advance_advance in E3.
  (* the generator *)
  destruct (generator_runs b command dirs flag (advance w2 (0 + (0 + 0)) ((printed (logLevel cfg) Highlight ++ printed (logLevel cfg) Info) ++ tr3)))
    as (w4 & E4 & S4); [|assumption|].
  { eapply settled_succeeds; [|exact Hs].
    eapply frame_trans; [exact Hw2 | apply settled_advance]. }
  assert (Hw4 : settled w w4).
  { eapply frame_trans; [exact Hw2|].
    eapply frame_trans; [apply settled_advance | exact S4]. }
  (* the merger *)
  destruct (merge_granted cfg
              (advance w4 0 (printed (logLevel cfg) Info
                             ++ printed (logLevel cfg) Verbose
                             ++ [EvSleep 2000%N])))
    as (r & w6 & E6 & S6 & _).
  { eapply settled_grants; [|exact Hg].
    eapply frame_trans; [exact Hw4 | apply settled_advance]. }
  assert (Hw6 : settled w w6).
  { eapply frame_trans; [exact Hw4|].
    eapply frame_trans; [apply settled_advance | exact S6]. }
  (* the hand-off *)
  destruct (stage_two_commit (advance w6 0 (printed (logLevel cfg) Info)) Hsep)
    as (w7 & E7 & F7).
  { eapply settled_grants; [|exact Hg].
    eapply frame_trans; [exact Hw6 | apply settled_advance]. }
  eexists. split.
  - unfold main, logger. apply try_ok.
    do 2 step_log. rewrite (bind_ok _ _ _ _ _ E1). cbn [fst snd negb].
    rewrite (bind_ok _ _ _ _ _ E2). do 2 step_log.
    fold flag. rewrite !advance_advance.
    unfold logger in E3. rewrite (bind_ok _ _ _ _ _ E3).
    rewrite (bind_ok _ _ _ _ _ E4).
    do 2 step_log. unfold delay.
    rewrite (bind_ok _ _ _ _ _ (RunnerBounds.emit_advance _ _)).
    rewrite !advance_advance. cbn [Nat.add].
    rewrite (bind_ok _ _ _ _ _ E6). step_log.
    rewrite (bind_ok _ _ _ _ _ E7). do 2 step_log. rewrite Hsep.
    do 3 step_log. unfold log. reflexivity.
  - rewrite !files_advance, F7, lookup_insert_eq.
    unfold HandoffSpec.fresh. rewrite now_advance.
    destruct Hw6 as (_ & _ & ->). reflexivity.
Qed.

Lemma readOnly_advance (w : World) (n : nat) (tr : list Event) :
  fsCalls tr = [] -> readOnly w (advance w n tr).
Proof.
  intros E. split; [now repeat split|]. cbn.
  now rewrite fsCalls_app, E, app_nil_r.
Qed.

Lemma readOnly_fails (w w' : World) : readOnly w w' -> fails w -> fails w'.
Proof. intros ((Ho & _) & _) Hf n c. rewrite Ho. apply Hf. Qed.

(** A call none of whose attempts succeeds throws. *)
Lemma runner_fails (command : string) (timeout : option N)
  (retries : option nat) (w : World) :
  fails w ->
  exists message w',
    executeCommand cfg command timeout retries w = (Throw message, w').
Proof.
  intros Hf.
  destruct (RunnerBounds.attempts_bounded (logLevel cfg) command
              (default (PreCommit.timeout cfg) timeout)
              (default (maxRetries cfg) retries)
              (default (maxRetries cfg) retries) 1 w)
    as (k & tr & r & E & _ & _ & _ & _ & Hr); [lia | lia |].
  unfold executeCommand, CommandRunner.executeCommand. rewrite E.
  destruct r as [out|message|n]; [|eauto|contradiction].
  destruct Hr as (_ & Hr).
  destruct (Hf (spawned w + (k - 1)) command) as (c & m & Ec). congruence.
Qed.

Lemma generator_fails (command : string) (targetDirs : list string)
  (recursiveFlag : string) (w : World) :
  fails w ->
  exists w',
    runGenerator cfg cwd win32 false command targetDirs recursiveFlag w
    = (Ok None, w').
Proof.
  intros Hf. destruct (runner_fails command None None w Hf) as (m & w1 & E).
  unfold runGenerator. eexists.
  erewrite try_throw; [|erewrite bind_throw; [reflexivity | exact E]].
  cbn [andb]. unfold logger. step_log.
  erewrite bind_ok; [|reflexivity].
  erewrite bind_ok; [|reflexivity].
  cbn iota. step_log. reflexivity.
Qed.

(** X20: when no command succeeds, neither Docker nor git nor the
    generator, [main] of the pre-commit script still returns, and it has
    only read: no file is moved, the master index is not made, and no
    metadata is written. *)
Theorem failures_are_harmless (w : World) :
  fails w ->
  exists w', main cfg cwd win32 w = (Ok tt, w') /\ readOnly w w'.
Proof.
  intros Hf.
  assert (Hdocker : dockerReady w = false).
  { unfold dockerReady, dockerAnswers.
    now destruct (Hf (spawned w) dockerVersion) as (c & m & ->). }
  match goal with
  | |- context [main cfg cwd win32 ?v] =>
      destruct (validate_run cfg (useDocker cfg)
                  (advance (advance v 0 (printed (logLevel cfg) Highlight)) 0
                     (printed (logLevel cfg) Info))) as (tr1 & E1 & Ha1)
  end.
  rewrite !advance_advance in E1.
  rewrite dockerReady_advance, localReady_advance, probes_advance, Hdocker
    in E1.
  pose proof (keeps_validateLlmGenerator (R := readOnly) cfg (useDocker cfg)
                (advance w (0 + 0)
                   (printed (logLevel cfg) Highlight
                    ++ printed (logLevel cfg) Info))) as [R1 _].
  rewrite E1 in R1. cbn [snd] in R1.
  assert (R0 : readOnly w
                 (advance w (0 + 0)
                    (printed (logLevel cfg) Highlight
                     ++ printed (logLevel cfg) Info))).
  { apply readOnly_advance.
    now rewrite fsCalls_app, !fsCalls_printed. }
  pose proof (frame_trans _ _ _ R0 R1) as Hw1.
  destruct (localReady w).
  - (* the local executable is there *)
    match type of E1 with
    | _ = (_, ?W1) =>
        pose proof (determine_result cfg W1) as Ed;
        pose proof (keeps_determineTargetDirectories (R := readOnly) cfg W1)
          as [R2 _];
        destruct (determineTargetDirectories cfg W1) as [rd w2] eqn:E2
    end.
    cbn [fst snd] in Ed, R2. subst rd.
    pose proof (frame_trans _ _ _ Hw1 R2) as Hw2.
    match type of E2 with
    | _ = (Ok ?d, _) => set (dirs := d) in *
    end.
    set (flag := if isFullScan dirs then " --recursive" else "").
    destruct (command_chosen false dirs flag
                (advance (advance w2 0 (printed (logLevel cfg) Highlight)) 0
                   (printed (logLevel cfg) Info)))
      as (command & tr3 & E3 & F3).
    rewrite !advance_advance in E3.
    match type of E3 with
    | _ = (_, ?W3) =>
        pose proof (keeps_runGenerator (R := readOnly) cfg cwd win32 false
                      command dirs flag W3) as [R4 _];
        assert (R3 : readOnly w2 W3)
          by (apply readOnly_advance;
              now rewrite !fsCalls_app, !fsCalls_printed, F3);
        destruct (generator_fails command dirs flag W3) as (w4 & E4)
    end.
    { eapply readOnly_fails; [|exact Hf].
      eapply frame_trans; [exact Hw2 | exact R3]. }
    rewrite E4 in R4. cbn [snd] in R4.
    eexists. split.
    + unfold main, logger. apply try_ok.
      do 2 step_log. rewrite !advance_advance.
      rewrite (bind_ok _ _ _ _ _ E1). cbn [fst snd negb].
      rewrite (bind_ok _ _ _ _ _ E2). do 2 step_log.
      fold flag. rewrite !advance_advance.
      unfold logger in E3. rewrite (bind_ok _ _ _ _ _ E3).
      rewrite (bind_ok _ _ _ _ _ E4). reflexivity.
    + eapply frame_trans; [exact Hw2|].
      eapply frame_trans; [exact R3 | exact R4].
  - (* no generator *)
    eexists. split.
    + unfold main, logger. apply try_ok.
      do 2 step_log. rewrite !advance_advance.
      rewrite (bind_ok _ _ _ _ _ E1). cbn [fst snd negb].
      step_log. unfold log. reflexivity.
    + eapply frame_trans; [exact Hw1|].
      eapply frame_trans; apply readOnly_advance; apply fsCalls_printed.
Qed.

End Script.

End PhaseARuns.

(** ** The gate of the post-commit script *)

Module GateFacts.
Import Sys Str StrOps Node Handoff PostCommit PhaseBSpec DiskSpec FrameFacts
  RunnerFacts PhaseBFacts MergerRuns.
Local Open Scope string_scope.

#[local] Arguments bind : simpl never.
#[local] Arguments join : simpl never.
#[local] Arguments isIndexFile : simpl never.
#[local] Arguments printed : simpl never.
#[local] Arguments segments : simpl never.
#[local] Arguments lookupDir : simpl never.
#[local] Arguments isDirectory : simpl never.
#[local] Arguments isFile : simpl never.

Lemma app_nil_iff {A} (a b : list A) : (a ++ b = [] <-> a = [] /\ b = [])%list.
Proof. split; [apply app_eq_nil | now intros [-> ->]]. Qed.

(** The walk over the master index returns the files that pass the filter;
    there is none exactly when no entry holds one. *)
Lemma visitEntry_granted (e : Dirent) :
  forall dir w,
    grants w ->
    exists files,
      visitEntry dir e w = (Ok files, w)
      /\ (files = [] <-> holdsIndexFile e = false).
Proof.
  induction e as [name|name children IH|name] using TreeFacts.Dirent_nested_ind;
    intros dir w Hg; cbn [visitEntry entryName holdsIndexFile].
  - destruct (isIndexFile name); eexists; (split; [reflexivity|]); easy.
  - unfold bind at 1. unfold refused, ask. rewrite Hg.
    set (d := join dir name). clearbody d.
    induction IH as [|x rest Hx _ IHrest].
    + exists []. split; [reflexivity | easy].
    + unfold bind at 1. destruct (Hx d w Hg) as (xs & -> & Hxs).
      unfold bind at 1. destruct IHrest as (more & -> & Hmore).
      eexists. split; [reflexivity|]. cbn [existsb].
      rewrite app_nil_iff, orb_false_iff. tauto.
  - exists []. split; [reflexivity | easy].
Qed.

Lemma visitAll_granted (entries : list Dirent) :
  forall dir w,
    grants w ->
    exists files,
      visitAll dir entries w = (Ok files, w)
      /\ (files = [] <-> existsb holdsIndexFile entries = false).
Proof.
  induction entries as [|e rest IH]; intros dir w Hg; cbn [visitAll existsb].
  - exists []. split; [reflexivity | easy].
  - unfold bind at 1.
    destruct (visitEntry_granted e dir w Hg) as (xs & -> & Hxs).
    unfold bind at 1. destruct (IH dir w Hg) as (more & -> & Hmore).
    eexists. split; [reflexivity|].
    rewrite app_nil_iff, orb_false_iff. tauto.
Qed.

Lemma length_zero {A} (l : list A) : (length l =? 0)%nat = true <-> l = [].
Proof. destruct l; cbn; split; congruence. Qed.

Lemma readdir_granted (p : string) (w : World) :
  grants w ->
  readdirSync p w
  = (match lookupDir (segments p) (tree w) with
     | Some entries => Ok entries
     | None => Throw "ENOENT"
     end, w).
Proof.
  intros Hg. unfold readdirSync, refused, ask. unfold bind at 1 2. rewrite Hg.
  unfold bind. now destruct (lookupDir _ _).
Qed.

Lemma exists_run (p : string) (w : World) :
  existsSync p w = (Ok (isFile w p || isDirectory w p), w).
Proof. reflexivity. Qed.

Section Script.
Context `{Json}.
Variable cfg : ScriptConfig.

(** X3: when the platform refuses no call, [hasLlmReadmeFiles] answers
    [true] exactly when the master index is a listed directory and some
    regular file in it, at any depth, has a name that passes the filter;
    it never throws, starts no process and changes nothing on disk. *)
Theorem gate_characterized (w : World) :
  grants w ->
  exists tr,
    hasLlmReadmeFiles cfg w = (Ok (indexHoldsFile w), advance w 0 tr)
    /\ fsCalls tr = [].
Proof.
  intros Hg. unfold hasLlmReadmeFiles, indexHoldsFile, logger.
  pose proof (readdir_granted masterIndexPath w Hg) as Eread.
  destruct (isFile w masterIndexPath || isDirectory w masterIndexPath) eqn:Eex.
  2: { assert (Enone : lookupDir (segments masterIndexPath) (tree w) = None).
       { apply orb_false_iff in Eex as [_ Ed]. unfold isDirectory in Ed.
         apply bool_decide_eq_false in Ed.
         destruct (lookupDir _ _); [exfalso; eauto | reflexivity]. }
       rewrite Enone. eexists. split.
       - apply try_ok. rewrite (bind_ok _ _ _ _ _ (exists_run _ _)), Eex.
         cbn [negb]. step_log. reflexivity.
       - apply fsCalls_printed. }
  destruct (lookupDir (segments masterIndexPath) (tree w)) as [entries|] eqn:Edir.
  2: { eexists. split.
       - erewrite try_throw.
         2: { rewrite (bind_ok _ _ _ _ _ (exists_run _ _)), Eex. cbn [negb].
              now rewrite (bind_throw _ _ _ _ _ Eread). }
         step_log. reflexivity.
       - apply fsCalls_printed. }
  destruct entries as [|e entries].
  { eexists. split.
    - apply try_ok. rewrite (bind_ok _ _ _ _ _ (exists_run _ _)), Eex.
      cbn [negb]. rewrite (bind_ok _ _ _ _ _ Eread). cbn [length Nat.eqb].
      step_log. reflexivity.
    - apply fsCalls_printed. }
  destruct (visitAll_granted (e :: entries) masterIndexPath w Hg)
    as (files & Ewalk & Hfiles).
  assert (Efind : findIndexFiles masterIndexPath w = (Ok files, w)).
  { unfold findIndexFiles. now rewrite (bind_ok _ _ _ _ _ Eread). }
  destruct (length files =? 0)%nat eqn:Elen.
  - pose proof Elen as Enil. apply length_zero, Hfiles in Enil. rewrite Enil.
    eexists. split.
    + apply try_ok. rewrite (bind_ok _ _ _ _ _ (exists_run _ _)), Eex.
      cbn [negb]. rewrite (bind_ok _ _ _ _ _ Eread). cbn [length Nat.eqb].
      rewrite (bind_ok _ _ _ _ _ Efind), Elen. step_log. reflexivity.
    + apply fsCalls_printed.
  - assert (Ehold : existsb holdsIndexFile (e :: entries) = true).
    { apply not_false_iff_true. intros Eh.
      apply Hfiles in Eh. rewrite Eh in Elen. discriminate. }
    rewrite Ehold.
    destruct (logEach_advance (logLevel cfg) Info files
                (advance
                   (advance w 0 (printed (logLevel cfg) Verbose)) 0
                   (printed (logLevel cfg) Info))) as (tr & Elog).
    destruct (keeps_logEach (R := readOnly) (logLevel cfg) Info files
                (advance
                   (advance w 0 (printed (logLevel cfg) Verbose)) 0
                   (printed (logLevel cfg) Info))) as [(_ & Hcalls) _].
    rewrite Elog in Hcalls. cbn [snd advance trace] in Hcalls.
    rewrite !fsCalls_app, !fsCalls_printed, !app_nil_r in Hcalls.
    eexists. split.
    + apply try_ok. rewrite (bind_ok _ _ _ _ _ (exists_run _ _)), Eex.
      cbn [negb]. rewrite (bind_ok _ _ _ _ _ Eread). cbn [length Nat.eqb].
      rewrite (bind_ok _ _ _ _ _ Efind), Elen. do 2 step_log.
      rewrite (bind_ok _ _ _ _ _ Elog).
      unfold ret. rewrite !advance_advance. reflexivity.
    + rewrite !fsCalls_app, !fsCalls_printed. cbn [app].
      rewrite <- (app_nil_r (fsCalls (trace w))) in Hcalls at 2.
      now apply app_inv_head in Hcalls.
Qed.


End Script.

End GateFacts.

(** ** Runs on concrete worlds *)

Module ScriptExamples.
Import Sys Str StrOps Node Handoff JsonText PreCommit MergerSpec DiskSpec
  GeneratorSpec Worlds.
Local Open Scope string_scope.

Lemma moveFile_replaces_witness :
  exists w',
    moveFile config "src/llmreadme.json" "master-index/src-root.json"
      (indexedSrc generated)
    = (Ok tt, w')
    /\ files w'
       = <["master-index/src-root.json" := "{standard}"]>
           (delete "src/llmreadme.json" (files (indexedSrc generated))).
Proof.
  apply (proj1 (DirectoryFacts.moveFile_replaces config "src/llmreadme.json"
                  "master-index/src-root.json" (indexedSrc generated) "{old}"
                  (fun call => eq_refl) ltac:(vm_compute; reflexivity))).
  - vm_compute. reflexivity.
  - discriminate.
Defined.

Lemma relocation_falls_back_witness :
  exists w',
    processOne config "src/llmreadme.json" zero crossDevice
    = (Ok (mkCounters 1 1 0 0), w')
    /\ files w'
       = <["master-index/src-root.json" := "{standard}"]>
           (delete "src/llmreadme.json" (files crossDevice))
    /\ In (EvFs (CCopy "src/llmreadme.json" "master-index/src-root.json"))
          (trace w').
Proof.
  apply (MergerCounts.relocation_falls_back config "src/llmreadme.json" zero
           crossDevice "{standard}");
    vm_compute; reflexivity.
Defined.

Lemma canonical_name_is_recognized_witness :
  PostCommit.isIndexFile
    (Transform.transformPathToFilename "apps/api/llmreadme.json") = true.
Proof.
  apply (CanonicalNames.canonical_name_is_recognized "apps/api/llmreadme.json");
    try reflexivity.
  discriminate.
Defined.

(** The filter of the post-commit script does not see the canonical file
    of a directory below [packages]. *)
Example packages_are_not_recognized :
  Transform.transformPathToFilename "packages/core/llmreadme.json"
  = "packages-core.json"
  /\ PostCommit.isIndexFile "packages-core.json" = false.
Proof. split; reflexivity. Qed.

Lemma flattening_collides_witness :
  Transform.transformPathToFilename "apps/api/llmreadme.json"
  = Transform.transformPathToFilename "apps-api/llmreadme.json".
Proof.
  apply (CanonicalNames.flattening_collides "apps" "api" "llmreadme.json").
  - reflexivity.
  - repeat constructor.
  - repeat constructor.
  - discriminate.
  - repeat constructor.
  - discriminate.
  - cbn. intuition discriminate.
Defined.

Lemma gate_characterized_witness :
  exists tr,
    PostCommit.hasLlmReadmeFiles PostCommit.config ready
    = (Ok (indexHoldsFile ready), advance ready 0 tr)
    /\ fsCalls tr = [].
Proof.
  apply (GateFacts.gate_characterized PostCommit.config ready).
  intros call. reflexivity.
Defined.

(** In [ready] the master index holds a file that passes the filter. *)
Example ready_index_holds_file : indexHoldsFile ready = true.
Proof. reflexivity. Qed.

Lemma merge_returns_witness :
  exists artifacts r w',
    fst (findLlmReadmeFiles config generated) = Ok artifacts
    /\ processLlmReadmeFiles config generated = (Ok r, w')
    /\ settled generated w'
    /\ (artifacts = [] ->
        r = None /\ exists tr, w' = advance generated 0 tr)
    /\ (artifacts <> [] ->
        isFile w' MASTER_INDEX_DIR || isDirectory w' MASTER_INDEX_DIR = true
        /\ exists c w1 w2 tr,
             r = Some c
             /\ files w1 = files generated
             /\ processAll config artifacts zero w1 = (Ok c, w2)
             /\ w' = advance w2 0 tr).
Proof.
  apply (MergerRuns.merge_returns config generated).
  intros call. reflexivity.
Defined.

(** In [generated] the search finds the two artifacts of [src]. *)
Example generated_artifacts :
  fst (findLlmReadmeFiles config generated)
  = Ok ["src/llmreadme.json"; "src/llmreadme-enhanced.json"].
Proof. reflexivity. Qed.

Lemma no_generator_no_run_witness :
  exists tr,
    main config "/home/dev/project" false broken
    = (Ok tt, advance broken (length (probes broken)) tr)
    /\ actionsOf tr = probes broken.
Proof.
  apply (GeneratorFacts.no_generator_no_run config "/home/dev/project" false
           broken);
    vm_compute; reflexivity.
Defined.

Lemma hand_off_prepared_witness :
  exists w',
    main config "/home/dev/project" false installed = (Ok tt, w')
    /\ files w' !! METADATA_PATH
       = Some (JSON_stringify (HandoffSpec.fresh config installed)).
Proof.
  apply (PhaseARuns.hand_off_prepared config "/home/dev/project" false
           installed).
  - intros call. reflexivity.
  - intros n command. now exists "".
  - reflexivity.
  - cbn. lia.
  - vm_compute. reflexivity.
Defined.

Lemma failures_are_harmless_witness :
  exists w',
    main config "/home/dev/project" false broken = (Ok tt, w')
    /\ readOnly broken w'.
Proof.
  apply (PhaseARuns.failures_are_harmless config "/home/dev/project" false
           broken).
  intros n command. now do 2 eexists.
Defined.

End ScriptExamples.
